(** * DendriticMLP: construction, forward pass and hardcoded dendritic weights

    A shallow embedding of
    [nupic/research/frameworks/dendrites/modules/dendritic_mlp.py].

    Conventions of the embedding.
    - Tensor entries are rationals ([Q]); every value the hardcoding code
      produces (0, 1, -1, -0.95 and copies of context entries) is exact.
    - A Python exception is a value of [exn]; code that may raise lives in
      the monad [M St], a state monad whose state survives a raise.
    - Tensor objects that the code mutates through [.data] live in a heap
      indexed by locations; [unsqueeze] and [squeeze] allocate new objects.
    - [torch.randperm] is an operation of a generator state ([RandPerm]).
    - The layer classes, [KWinners], [SparseWeights] and [nn.Linear] are
      external; a constructed module is the record of the arguments it was
      built from. *)

From Stdlib Require Import QArith Qround Reals Lra.
From stdpp Require Import gmap strings list fin_maps.

(** ** Exceptions and the state-and-exception monad *)

Inductive exn : Type :=
| AssertionError
| IndexError
| KeyError
| RuntimeError
| TypeError
| ValueError
| Exception (msg : string).

Inductive result (A : Type) : Type :=
| Ok (a : A)
| Raise (e : exn).
Arguments Ok {A} a.
Arguments Raise {A} e.

Definition rbind {A B} (r : result A) (k : A -> result B) : result B :=
  match r with
  | Ok a => k a
  | Raise e => Raise e
  end.

Definition M (St A : Type) : Type := St -> result A * St.

Definition ret {St A} (a : A) : M St A := fun s => (Ok a, s).

Definition raise {St A} (e : exn) : M St A := fun s => (Raise e, s).

Definition bind {St A B} (m : M St A) (k : A -> M St B) : M St B :=
  fun s =>
    match m s with
    | (Ok a, s') => k a s'
    | (Raise e, s') => (Raise e, s')
    end.

Definition lift_result {St A} (r : result A) : M St A := fun s => (r, s).

Notation "'let!' x ':=' m 'in' k" := (bind m (fun x => k))
  (at level 10, x pattern, m at level 100, k at level 200).

Notation "'try!' x ':=' r 'in' k" := (rbind r (fun x => k))
  (at level 10, x pattern, r at level 100, k at level 200).

(** [for x in xs: acc = body(acc, x)] *)
Fixpoint for_loop {St A B} (body : B -> A -> M St B) (xs : list A) (acc : B)
  : M St B :=
  match xs with
  | [] => ret acc
  | x :: xs' => let! acc' := body acc x in for_loop body xs' acc'
  end.

(** ** Tensors *)

Abbreviation vec := (list Q).
Abbreviation mat := (list (list Q)).
Abbreviation cube := (list (list (list Q))).

(** A tensor object of rank 2 or 3: its shape and its entries, row-major. *)
Inductive tensor : Type :=
| Tensor2 (n0 n1 : nat) (rows : mat)
| Tensor3 (n0 n1 n2 : nat) (units : cube).

Definition well_shaped_mat (n0 n1 : nat) (rows : mat) : Prop :=
  length rows = n0 /\ Forall (fun r => length r = n1) rows.

Definition well_shaped_cube (n0 n1 n2 : nat) (units : cube) : Prop :=
  length units = n0 /\
  Forall (fun segs => length segs = n1 /\ Forall (fun r => length r = n2) segs) units.

Definition well_shaped (t : tensor) : Prop :=
  match t with
  | Tensor2 n0 n1 rows => well_shaped_mat n0 n1 rows
  | Tensor3 n0 n1 n2 units => well_shaped_cube n0 n1 n2 units
  end.

(** [t.size()] unpacked into three, respectively two, names. *)
Definition size3 (t : tensor) : result (nat * nat * nat) :=
  match t with
  | Tensor3 n0 n1 n2 _ => Ok (n0, n1, n2)
  | Tensor2 _ _ _ => Raise ValueError
  end.

Definition size2 (t : tensor) : result (nat * nat) :=
  match t with
  | Tensor2 n0 n1 _ => Ok (n0, n1)
  | Tensor3 _ _ _ _ => Raise ValueError
  end.

Definition rows_of (t : tensor) : mat :=
  match t with
  | Tensor2 _ _ rows => rows
  | Tensor3 _ _ _ units => concat units
  end.

(** [t.unsqueeze(dim=1)] and [t.squeeze(dim=1)]. *)
Definition unsqueeze1 (t : tensor) : tensor :=
  match t with
  | Tensor2 n0 n1 rows => Tensor3 n0 1 n1 (map (fun r => [r]) rows)
  | Tensor3 _ _ _ _ => t
  end.

Definition squeeze1 (t : tensor) : tensor :=
  match t with
  | Tensor3 n0 1 n2 units => Tensor2 n0 n2 (map (@concat Q) units)
  | _ => t
  end.

(** [torch.ones(shape)], [torch.zeros(shape)] and [c * t]. *)
Definition full3 (n0 n1 n2 : nat) (x : Q) : cube :=
  replicate n0 (replicate n1 (replicate n2 x)).

Definition ones3 (n0 n1 n2 : nat) : cube := full3 n0 n1 n2 1%Q.
Definition zeros3 (n0 n1 n2 : nat) : cube := full3 n0 n1 n2 0%Q.

Definition scale3 (c : Q) (w : cube) : cube := map (map (map (Qmult c))) w.

(** Broadcasting a 1-d value of length [L] along a last dimension [D]:
    allowed when [L = D] or [L = 1]. *)
Definition broadcast_to (D : nat) (v : vec) : result vec :=
  if decide (length v = D) then Ok v
  else if decide (length v = 1) then Ok (replicate D (hd 0%Q v))
  else Raise RuntimeError.

(** [m[c, :]] *)
Definition getitem_row (m : mat) (c : nat) : result vec :=
  match m !! c with
  | Some r => Ok r
  | None => Raise IndexError
  end.

(** [m[idx, :]] for an index tensor [idx]. *)
Fixpoint index_rows (m : mat) (idx : list nat) : result mat :=
  match idx with
  | [] => Ok []
  | p :: idx' =>
      try! r := getitem_row m p in
      try! rs := index_rows m idx' in
      Ok (r :: rs)
  end.

(** [w[i, seg, :]] *)
Definition getitem_segment (w : cube) (i seg : nat) : result vec :=
  match w !! i with
  | None => Raise IndexError
  | Some segs =>
      match segs !! seg with
      | None => Raise IndexError
      | Some r => Ok r
      end
  end.

(** [w[i, seg, :] = v] *)
Definition setitem_segment (D : nat) (w : cube) (i seg : nat) (v : vec)
  : result cube :=
  match w !! i with
  | None => Raise IndexError
  | Some segs =>
      if decide (seg < length segs) then
        try! r := broadcast_to D v in
        Ok (<[i := <[seg := r]> segs]> w)
      else Raise IndexError
  end.

(** [w[i, :, :] = v] *)
Definition setitem_unit (D : nat) (w : cube) (i : nat) (v : vec) : result cube :=
  match w !! i with
  | None => Raise IndexError
  | Some segs =>
      try! r := broadcast_to D v in
      Ok (<[i := map (fun _ => r) segs]> w)
  end.

(** [w[i, 1:, :] = x] for a scalar [x] *)
Definition fill_tail (w : cube) (i : nat) (x : Q) : result cube :=
  match w !! i with
  | None => Raise IndexError
  | Some segs =>
      Ok (<[i := take 1 segs ++ map (map (fun _ => x)) (drop 1 segs)]> w)
  end.

(** [w[i, 1:, :] += v] *)
Definition iadd_tail (D : nat) (w : cube) (i : nat) (v : vec) : result cube :=
  match w !! i with
  | None => Raise IndexError
  | Some segs =>
      try! r := broadcast_to D v in
      Ok (<[i := take 1 segs ++ map (fun s => zip_with Qplus s r) (drop 1 segs)]> w)
  end.

(** [1.0 * (v > 0)] *)
Definition gt_zero (x : Q) : bool := negb (Qle_bool x 0).

Definition bool_to_float (b : bool) : Q := if b then 1%Q else 0%Q.

Definition indicator (v : vec) : vec :=
  map (fun x => (1 * bool_to_float (gt_zero x))%Q) v.

(** ** The random generator *)

(** [torch.randperm(n)] draws a permutation of [0 .. n-1] and advances the
    generator. *)
Class RandPerm (G : Type) : Type := {
  randperm : nat -> G -> list nat * G;
  randperm_perm : forall n g, (randperm n g).1 ≡ₚ seq 0 n
}.

Definition torch_randperm {G} `{RandPerm G} (n : nat) : M G (list nat) :=
  fun g => let '(p, g') := randperm n g in (Ok p, g').

(** ** [_hardcode_dendritic_weights]: the two initialisations *)

Section NewWeights.
Context {G : Type} `{RandPerm G}.

(** [init == "non_overlapping"]: the body of [for i in range(num_units)]. *)
Definition non_overlapping_unit (num_contexts dim_context : nat)
  (context_vectors : mat) (new_dendritic_weights : cube) (i : nat)
  : M G cube :=
  let! perm := torch_randperm num_contexts in
  let! context_perm := lift_result (index_rows context_vectors perm) in
  let! first := lift_result (getitem_row context_perm 0) in
  let! w1 := lift_result
    (setitem_unit dim_context new_dendritic_weights i (indicator first)) in
  let! w2 := lift_result (fill_tail w1 i (-1)%Q) in
  let! seg0 := lift_result (getitem_segment w2 i 0) in
  lift_result (iadd_tail dim_context w2 i seg0).

Definition non_overlapping (num_units num_segments dim_context num_contexts : nat)
  (context_vectors : mat) : M G cube :=
  for_loop (non_overlapping_unit num_contexts dim_context context_vectors)
    (seq 0 num_units) (zeros3 num_units num_segments dim_context).

(** [k = int(0.05 * num_units)]. The product is taken in the rationals;
    the double-precision product truncates to the same integer, the
    quotient of [num_units] by 20, for every [num_units] below 2^48. *)
Definition units_per_context (num_units : nat) : nat :=
  Z.to_nat (Qfloor (0.05 * inject_Z (Z.of_nat num_units))).

(** The loop state of the "overlapping" initialisation: the new weights,
    the dictionary [num_contexts_chosen], and a history of the assignments
    [new_dendritic_weights[i, segment_id, :] = context_vectors[c, :]] that
    were executed, as triples [(c, i, segment_id)], oldest first. *)
Record overlap_state : Type := {
  new_dendritic_weights : cube;
  num_contexts_chosen : gmap nat nat;
  assigned : list (nat * nat * nat)
}.

(** The body of [for i in selected_units]. *)
Definition overlapping_unit (num_segments dim_context : nat)
  (context_vectors : mat) (c : nat) (st : overlap_state) (i : nat)
  : M G overlap_state :=
  match num_contexts_chosen st !! i with
  | None => raise KeyError
  | Some segment_id =>
      if decide (segment_id = num_segments) then ret st
      else
        let! v := lift_result (getitem_row context_vectors c) in
        let! w := lift_result
          (setitem_segment dim_context (new_dendritic_weights st) i segment_id v) in
        ret {| new_dendritic_weights := w;
               num_contexts_chosen := <[i := segment_id + 1]> (num_contexts_chosen st);
               assigned := assigned st ++ [(c, i, segment_id)] |}
  end.

(** The body of [for c in range(num_contexts)]. *)
Definition overlapping_context (num_units num_segments dim_context k : nat)
  (context_vectors : mat) (st : overlap_state) (c : nat) : M G overlap_state :=
  let! perm := torch_randperm num_units in
  let selected_units := take k perm in
  for_loop (overlapping_unit num_segments dim_context context_vectors c)
    selected_units st.

Definition overlapping (num_units num_segments dim_context num_contexts : nat)
  (context_vectors : mat) : M G overlap_state :=
  let new := scale3 (-0.95)%Q (ones3 num_units num_segments dim_context) in
  let k := units_per_context num_units in
  let chosen : gmap nat nat :=
    list_to_map (map (fun i => (i, 0)) (seq 0 num_units)) in
  for_loop
    (overlapping_context num_units num_segments dim_context k context_vectors)
    (seq 0 num_contexts)
    {| new_dendritic_weights := new;
       num_contexts_chosen := chosen;
       assigned := [] |}.

End NewWeights.

(** ** The heap of tensor objects *)

Definition loc := positive.

(** The part of the process state the hardcoding touches: tensor objects
    and the generator of [torch]. *)
Record world (G : Type) : Type := World {
  heap : gmap loc tensor;
  rng : G
}.
Arguments World {G} heap rng.
Arguments heap {G} w.
Arguments rng {G} w.

Section Heap.
Context {G : Type}.

(** Reading the tensor a name refers to. *)
Definition load (l : loc) : M (world G) tensor :=
  fun w =>
    match heap w !! l with
    | Some t => (Ok t, w)
    | None => (Raise (Exception "dangling reference"), w)
    end.

(** A new tensor object (the result of [unsqueeze] or [squeeze]). *)
Definition new_object (t : tensor) : M (world G) loc :=
  fun w =>
    let l := fresh (dom (heap w)) in
    (Ok l, World (<[l := t]> (heap w)) (rng w)).

(** [x.data = t] *)
Definition set_data (l : loc) (t : tensor) : M (world G) unit :=
  fun w => (Ok tt, World (<[l := t]> (heap w)) (rng w)).

(** A computation that only uses the generator. *)
Definition with_rng {A} (m : M G A) : M (world G) A :=
  fun w => let '(r, g') := m (rng w) in (r, World (heap w) g').

End Heap.

(** ** [DendriticMLP._hardcode_dendritic_weights] *)

Section Hardcode.
Context {G : Type} `{RandPerm G}.

Definition _hardcode_dendritic_weights (dendrite_weights : loc)
  (context_vectors : tensor) (init : string) : M (world G) unit :=
  let! t := load dendrite_weights in
  let original_weights := dendrite_weights in
  let! (squeeze, dendrite_weights) :=
    match t with
    | Tensor2 _ _ _ =>
        let! view := new_object (unsqueeze1 t) in ret (true, view)
    | Tensor3 _ _ _ _ => ret (false, dendrite_weights)
    end in
  let! t3 := load dendrite_weights in
  let! (num_units, num_segments, dim_context) := lift_result (size3 t3) in
  let! (num_contexts, _) := lift_result (size2 context_vectors) in
  let! new_weights :=
    if String.eqb init "overlapping" then
      let! st := with_rng (overlapping num_units num_segments dim_context
                             num_contexts (rows_of context_vectors)) in
      ret (new_dendritic_weights st)
    else if String.eqb init "non_overlapping" then
      with_rng (non_overlapping num_units num_segments dim_context
                  num_contexts (rows_of context_vectors))
    else raise (Exception "Invalid dendritic weight hardcode choice") in
  let! _ := set_data dendrite_weights
              (Tensor3 num_units num_segments dim_context new_weights) in
  if squeeze : bool then
    let! t' := load dendrite_weights in
    let! squeezed := new_object (squeeze1 t') in
    let! s := load squeezed in
    set_data original_weights s
  else ret tt.

End Hardcode.

(** ** The external modules *)

(** [nn.Linear(in_features, out_features, bias)] *)
Record Linear : Type := {
  in_features : nat;
  out_features : nat;
  bias : bool
}.

(** The dendritic layer classes: the two the constructor names, and any
    other class the caller passes. *)
Inductive layer_class : Type :=
| AbsoluteMaxGatingDendriticLayer
| OneSegmentDendriticLayer
| OtherDendriticLayer (name : string).

(** The argument [dendritic_layer_class]: one class or a list of classes. *)
Inductive layer_class_arg : Type :=
| OneClass (c : layer_class)
| ClassList (cs : list layer_class).

(** The argument [output_size]: an integer or an iterable of integers. *)
Inductive size_arg : Type :=
| IntSize (n : nat)
| IterSize (ns : list nat).

(** A call of one of the two initialisers on a module, with its
    [input_sparsity]. *)
Inductive init_call : Type :=
| InitSparseWeights (input_sparsity : Q)
| InitSparseDendrites (input_sparsity : Q).

(** A constructed dendritic layer: the class, the keyword arguments it was
    built with, the initialiser calls applied to it, and its
    [named_parameters()] as pairs of a name and the [requires_grad] flag. *)
Record DendriticLayer : Type := {
  layer_class_of : layer_class;
  module : Linear;
  layer_num_segments : Z;
  layer_dim_context : nat;
  module_sparsity : Q;
  dendrite_sparsity : Q;
  layer_init_calls : list init_call;
  named_parameters : list (string * bool)
}.

(** [KWinners(n, percent_on, k_inference_factor, boost_strength,
    boost_strength_factor)] or [nn.ReLU()]. *)
Inductive activation : Type :=
| KWinners (n : nat) (percent_on : option Q)
    (k_inference_factor boost_strength boost_strength_factor : Q)
| ReLU.

(** An output head: [nn.Sequential] of a [SparseWeights(nn.Linear)] and an
    optional nonlinearity (an opaque module, known by its name). *)
Record OutputLayer : Type := {
  output_linear : Linear;
  output_sparsity : Q;
  allow_extremes : bool;
  output_init_calls : list init_call;
  non_linearity : option string
}.

(** [sub in s] for Python strings. *)
Fixpoint contains (sub s : string) : bool :=
  if String.prefix sub s then true
  else
    match s with
    | EmptyString => false
    | String _ s' => contains sub s'
    end.

(** [assert b] *)
Definition assert_ (b : bool) : result unit :=
  if b then Ok tt else Raise AssertionError.

(** A [for] loop whose body may raise but has no other effect. *)
Fixpoint for_result {A B} (body : B -> A -> result B) (xs : list A) (acc : B)
  : result B :=
  match xs with
  | [] => Ok acc
  | x :: xs' => try! acc' := body acc x in for_result body xs' acc'
  end.

(** ** [DendriticMLP] *)

Module DendriticMLP.

Record t (Layer : Type) : Type := {
  num_segments : Z;
  input_size : nat;
  hidden_sizes : list nat;
  output_size : size_arg;
  dim_context : nat;
  kw : bool;
  kw_percent_on : option Q;
  weight_sparsity : Q;
  dendrite_weight_sparsity : Q;
  output_nonlinearity : option string;
  hardcode_dendrites : bool;
  _layers : list Layer;
  _activations : list activation;
  _single_output_head : bool;
  _output_layers : list OutputLayer
}.
Arguments num_segments {Layer} self : rename.
Arguments input_size {Layer} self : rename.
Arguments hidden_sizes {Layer} self : rename.
Arguments output_size {Layer} self : rename.
Arguments dim_context {Layer} self : rename.
Arguments kw {Layer} self : rename.
Arguments kw_percent_on {Layer} self : rename.
Arguments weight_sparsity {Layer} self : rename.
Arguments dendrite_weight_sparsity {Layer} self : rename.
Arguments output_nonlinearity {Layer} self : rename.
Arguments hardcode_dendrites {Layer} self : rename.
Arguments _layers {Layer} self : rename.
Arguments _activations {Layer} self : rename.
Arguments _single_output_head {Layer} self : rename.
Arguments _output_layers {Layer} self : rename.

(** *** [__init__] *)

Section Init.

(** The [named_parameters()] of a freshly built layer of a class, which the
    layer classes decide. *)
Variable class_parameters : layer_class -> Linear -> Z -> nat -> list (string * bool).

(** [1 - kw_percent_on if kw else 0.0] *)
Definition kw_input_sparsity (kw : bool) (kw_percent_on : option Q) : result Q :=
  if kw then
    match kw_percent_on with
    | Some p => Ok (1 - p)%Q
    | None => Raise TypeError
    end
  else Ok 0%Q.

(** [self._init_sparse_weights(m, input_sparsity)] and
    [self._init_sparse_dendrites(m, input_sparsity)] on a dendritic layer.
    The constructor's model does not hold the weights of a layer, so here
    a call is recorded with its argument and leaves every other field of
    the layer as it is. The bodies of the two functions (the bound, the
    draws of [nn.init.uniform_], the masking by [rezero_weights] and the
    guard on [m.segments]) are modelled on a layer that holds its weights
    in [SparseInit] below. *)
Definition _init_sparse_weights (m : DendriticLayer) (input_sparsity : Q)
  : DendriticLayer :=
  {| layer_class_of := layer_class_of m;
     module := module m;
     layer_num_segments := layer_num_segments m;
     layer_dim_context := layer_dim_context m;
     module_sparsity := module_sparsity m;
     dendrite_sparsity := dendrite_sparsity m;
     layer_init_calls := layer_init_calls m ++ [InitSparseWeights input_sparsity];
     named_parameters := named_parameters m |}.

Definition _init_sparse_dendrites (m : DendriticLayer) (input_sparsity : Q)
  : DendriticLayer :=
  {| layer_class_of := layer_class_of m;
     module := module m;
     layer_num_segments := layer_num_segments m;
     layer_dim_context := layer_dim_context m;
     module_sparsity := module_sparsity m;
     dendrite_sparsity := dendrite_sparsity m;
     layer_init_calls := layer_init_calls m ++ [InitSparseDendrites input_sparsity];
     named_parameters := named_parameters m |}.

(** [for name, param in curr_dend.named_parameters():
       if "segments" in name: param.requires_grad = False] *)
Definition freeze_segments (m : DendriticLayer) : DendriticLayer :=
  {| layer_class_of := layer_class_of m;
     module := module m;
     layer_num_segments := layer_num_segments m;
     layer_dim_context := layer_dim_context m;
     module_sparsity := module_sparsity m;
     dendrite_sparsity := dendrite_sparsity m;
     layer_init_calls := layer_init_calls m;
     named_parameters :=
       map (fun '(name, requires_grad) =>
              if contains "segments" name then (name, false)
              else (name, requires_grad))
           (named_parameters m) |}.

(** The state of the loop over the hidden layers. *)
Record hidden_state : Type := {
  cur_input_size : nat;
  cur_layers : list DendriticLayer;
  cur_activations : list activation
}.

(** The body of [for i in range(len(self.hidden_sizes))]. *)
Definition hidden_layer_step
  (hidden_sizes : list nat) (num_segments : Z) (dim_context : nat)
  (kw : bool) (kw_percent_on : option Q) (context_percent_on : Q)
  (weight_sparsity dendrite_sparsity : Q) (weight_init dendrite_init : string)
  (freeze_dendrites : bool) (dendritic_layer_classes : list layer_class)
  (st : hidden_state) (i : nat) : result hidden_state :=
  try! cls :=
    match dendritic_layer_classes !! i with
    | Some c => Ok c
    | None => Raise IndexError
    end in
  try! size_i :=
    match hidden_sizes !! i with
    | Some n => Ok n
    | None => Raise IndexError
    end in
  let linear :=
    {| in_features := cur_input_size st; out_features := size_i; bias := true |} in
  let curr_dend :=
    {| layer_class_of := cls;
       module := linear;
       layer_num_segments := num_segments;
       layer_dim_context := dim_context;
       module_sparsity := weight_sparsity;
       dendrite_sparsity := dendrite_sparsity;
       layer_init_calls := [];
       named_parameters := class_parameters cls linear num_segments dim_context |} in
  try! curr_dend :=
    if String.eqb weight_init "modified" then
      if decide (i = 0) then Ok (_init_sparse_weights curr_dend 0)
      else
        try! s := kw_input_sparsity kw kw_percent_on in
        Ok (_init_sparse_weights curr_dend s)
    else Ok curr_dend in
  let curr_dend :=
    if String.eqb dendrite_init "modified" then
      _init_sparse_dendrites curr_dend (1 - context_percent_on)%Q
    else curr_dend in
  let curr_dend :=
    if freeze_dendrites then freeze_segments curr_dend else curr_dend in
  let curr_activation :=
    if kw then KWinners size_i kw_percent_on 1 0 0 else ReLU in
  Ok {| cur_input_size := size_i;
        cur_layers := cur_layers st ++ [curr_dend];
        cur_activations := cur_activations st ++ [curr_activation] |}.

(** The body of [for out_size in output_size]. *)
Definition output_layer_step (input_size : nat) (kw : bool)
  (kw_percent_on : option Q) (weight_sparsity : Q) (weight_init : string)
  (output_nonlinearity : option string)
  (heads : list OutputLayer) (out_size : nat) : result (list OutputLayer) :=
  let linear :=
    {| in_features := input_size; out_features := out_size; bias := true |} in
  try! calls :=
    if String.eqb weight_init "modified" then
      try! s := kw_input_sparsity kw kw_percent_on in
      Ok [InitSparseWeights s]
    else Ok [] in
  Ok (heads ++ [{| output_linear := linear;
                   output_sparsity := weight_sparsity;
                   allow_extremes := true;
                   output_init_calls := calls;
                   non_linearity := output_nonlinearity |}]).

Definition __init__
  (input_size : nat) (output_size : size_arg) (hidden_sizes : list nat)
  (num_segments : Z) (dim_context : nat) (kw : bool)
  (kw_percent_on : option Q) (context_percent_on : Q)
  (dendrite_weight_sparsity weight_sparsity : Q)
  (weight_init dendrite_init : string) (freeze_dendrites : bool)
  (output_nonlinearity : option string)
  (dendritic_layer_class : layer_class_arg) : result (t DendriticLayer) :=
  try! _ := assert_ (String.eqb weight_init "kaiming"
                     || String.eqb weight_init "modified") in
  try! _ := assert_ (String.eqb dendrite_init "kaiming"
                     || String.eqb dendrite_init "modified") in
  try! _ := assert_ match kw_percent_on with
                    | None => true
                    | Some p => Qle_bool 0 p && negb (Qle_bool 1 p)
                    end in
  try! _ := assert_ (Qle_bool 0 context_percent_on) in
  let kw :=
    match kw_percent_on with
    | Some p => if Qeq_bool p 0 then false else kw
    | None => kw
    end in
  let dendritic_layer_class :=
    if (num_segments =? 1)%Z then OneClass OneSegmentDendriticLayer
    else dendritic_layer_class in
  let hardcode_dendrites := String.eqb dendrite_init "hardcoded" in
  let dendrite_sparsity :=
    if hardcode_dendrites then 0%Q else dendrite_weight_sparsity in
  let dendritic_layer_classes :=
    match dendritic_layer_class with
    | OneClass c => map (fun _ => c) (seq 0 (length hidden_sizes))
    | ClassList cs => cs
    end in
  try! hidden :=
    for_result
      (hidden_layer_step hidden_sizes num_segments dim_context kw kw_percent_on
         context_percent_on weight_sparsity dendrite_sparsity weight_init
         dendrite_init freeze_dendrites dendritic_layer_classes)
      (seq 0 (length hidden_sizes))
      {| cur_input_size := input_size; cur_layers := []; cur_activations := [] |} in
  let single_output_head :=
    match output_size with
    | IntSize _ => true
    | IterSize _ => false
    end in
  let output_sizes :=
    match output_size with
    | IntSize n => [n]
    | IterSize ns => ns
    end in
  try! heads :=
    for_result
      (output_layer_step (cur_input_size hidden) kw kw_percent_on
         weight_sparsity weight_init output_nonlinearity)
      output_sizes [] in
  Ok {| num_segments := num_segments;
        input_size := input_size;
        hidden_sizes := hidden_sizes;
        output_size := output_size;
        dim_context := dim_context;
        kw := kw;
        kw_percent_on := kw_percent_on;
        weight_sparsity := weight_sparsity;
        dendrite_weight_sparsity := dendrite_weight_sparsity;
        output_nonlinearity := output_nonlinearity;
        hardcode_dendrites := hardcode_dendrites;
        _layers := cur_layers hidden;
        _activations := cur_activations hidden;
        _single_output_head := single_output_head;
        _output_layers := heads |}.

End Init.

(** *** [forward] *)

Section Forward.
Context {Layer X Ctx : Type}.

(** What the modules compute is decided outside this file. *)
Variable layer_forward : Layer -> X -> option Ctx -> X.
Variable activation_forward : activation -> X -> X.
Variable head_forward : OutputLayer -> X -> X.

(** A module call, as recorded in the trace of [forward]. *)
Inductive call : Type :=
| CallLayer (layer : Layer) (x : X) (context : option Ctx)
| CallActivation (a : activation) (x : X)
| CallHead (head : OutputLayer) (x : X).

(** One tensor for a single output head, a list otherwise. *)
Inductive output : Type :=
| Single (y : X)
| Multi (ys : list X).

Definition call_layer (layer : Layer) (x : X) (context : option Ctx)
  : M (list call) X :=
  fun tr => (Ok (layer_forward layer x context), tr ++ [CallLayer layer x context]).

Definition call_activation (a : activation) (x : X) : M (list call) X :=
  fun tr => (Ok (activation_forward a x), tr ++ [CallActivation a x]).

Definition call_head (head : OutputLayer) (x : X) : M (list call) X :=
  fun tr => (Ok (head_forward head x), tr ++ [CallHead head x]).

(** [[out_layer(x) for out_layer in heads]] *)
Fixpoint call_heads (heads : list OutputLayer) (x : X) : M (list call) (list X) :=
  match heads with
  | [] => ret []
  | head :: heads' =>
      let! y := call_head head x in
      let! ys := call_heads heads' x in
      ret (y :: ys)
  end.

Definition forward (self : t Layer) (x : X) (context : option Ctx)
  : M (list call) output :=
  let! _ := lift_result
    (assert_ (match context with Some _ => true | None => false end
              || (num_segments self =? 0)%Z)) in
  let! x :=
    for_loop
      (fun x '(layer, activation) =>
         let! y := call_layer layer x context in
         call_activation activation y)
      (zip (_layers self) (_activations self)) x in
  if _single_output_head self then
    match _output_layers self !! 0 with
    | Some head => let! y := call_head head x in ret (Single y)
    | None => raise IndexError
    end
  else
    let! ys := call_heads (_output_layers self) x in
    ret (Multi ys).

End Forward.

(** *** [hardcode_dendritic_weights] *)

Section HardcodeMethod.
Context {G : Type} `{RandPerm G} {Layer : Type}.

(** [dendrite.weights]: the tensor object holding the segment weights of a
    layer. *)
Variable weights : Layer -> loc.

Definition hardcode_dendritic_weights (self : t Layer)
  (context_vectors : tensor) (init : string) : M (world G) unit :=
  if (0 <? num_segments self)%Z then
    for_loop
      (fun _ dendrite =>
         _hardcode_dendritic_weights (weights dendrite) context_vectors init)
      (_layers self) tt
  else ret tt.

End HardcodeMethod.

End DendriticMLP.

(** ** [_init_sparse_weights] and [_init_sparse_dendrites]

    The two initialisers on a layer that holds its weights. Weights and
    sparsities are real numbers here: the bound is computed with a square
    root and a division, which are taken exactly. [nn.init.uniform_] is an
    operation of the generator. *)

Module SparseInit.

(** A weight tensor: its shape and its entries in storage order. *)
Record weight_tensor : Type := {
  dims : list nat;
  entries : list R
}.

(** [m.segments]: the dendrite segments of a layer, with their own
    sparsity and their own mask ([True] where the weight is forced to
    zero). *)
Record DendriteSegments : Type := {
  segments_sparsity : R;
  segments_weights : weight_tensor;
  segments_zero_mask : list bool
}.

(** The layer [m] with the attributes the initialisers read and write:
    [m.sparsity], [m.module.weight], the mask of the sparse weights,
    [m.dim_context] and [m.segments], which is None for a layer without
    dendrite segments. The tensor the source names [m.segment_weights] is
    [segments_weights] of [m.segments]. *)
Record SparseWeights : Type := {
  sparsity : R;
  module_weight : weight_tensor;
  zero_mask : list bool;
  dim_context : nat;
  segments : option DendriteSegments
}.

(** The layer after [m.module.weight] has been overwritten in place. *)
Definition set_module_weight (m : SparseWeights) (w : weight_tensor)
  : SparseWeights :=
  {| sparsity := sparsity m;
     module_weight := w;
     zero_mask := zero_mask m;
     dim_context := dim_context m;
     segments := segments m |}.

(** The layer after [m.segment_weights], the weights of its segments [s],
    has been overwritten in place. *)
Definition set_segment_weights (m : SparseWeights) (s : DendriteSegments)
    (w : weight_tensor) : SparseWeights :=
  {| sparsity := sparsity m;
     module_weight := module_weight m;
     zero_mask := zero_mask m;
     dim_context := dim_context m;
     segments :=
       Some {| segments_sparsity := segments_sparsity s;
               segments_weights := w;
               segments_zero_mask := segments_zero_mask s |} |}.

(** One draw from the uniform distribution U(a, b): a value of the range
    [a, b) that [torch] samples from. *)
Class Uniform (G : Type) : Type := {
  uniform : R -> R -> G -> R * G;
  uniform_range :
    forall a b g, (a < b)%R -> (a <= (uniform a b g).1 < b)%R
}.

Section Initialisers.
Context {G : Type} `{Uniform G}.

(** [n] successive draws from U(a, b). *)
Fixpoint draws (a b : R) (n : nat) (g : G) : list R * G :=
  match n with
  | 0 => ([], g)
  | S n' =>
      let '(x, g1) := uniform a b g in
      let '(xs, g2) := draws a b n' g1 in
      (x :: xs, g2)
  end.

(** [nn.init.uniform_(tensor, a, b)]: every entry is replaced by a draw
    from U(a, b); the shape stays. *)
Definition uniform_ (t : weight_tensor) (a b : R) : M G weight_tensor :=
  fun g =>
    let '(xs, g') := draws a b (length (entries t)) g in
    (Ok {| dims := dims t; entries := xs |}, g').

(** Position [i] is masked: the mask has the shape of the weights and is
    read in the same storage order. *)
Definition masked (mask : list bool) (i : nat) : bool :=
  default false (mask !! i).

(** [weights.data[zero_mask] = 0] *)
Definition rezero (mask : list bool) (t : weight_tensor) : weight_tensor :=
  {| dims := dims t;
     entries := imap (fun i x => if masked mask i then 0%R else x)
                  (entries t) |}.

(** Modelled from the spec: [rezero_weights], of the sparse-weights
    modules that are not under src/, applied with [m.apply] to the layer
    and its submodules: it masks the sparse weights, so the weights of the
    linear module and those of the dendrite segments are set to zero at
    every masked position. *)
Definition apply_rezero_weights (m : SparseWeights) : SparseWeights :=
  {| sparsity := sparsity m;
     module_weight := rezero (zero_mask m) (module_weight m);
     zero_mask := zero_mask m;
     dim_context := dim_context m;
     segments :=
       match segments m with
       | Some s =>
           Some {| segments_sparsity := segments_sparsity s;
                   segments_weights :=
                     rezero (segments_zero_mask s) (segments_weights s);
                   segments_zero_mask := segments_zero_mask s |}
       | None => None
       end |}.

(** [_, fan_in = m.module.weight.size()] *)
Definition fan_in_of (t : weight_tensor) : result nat :=
  match dims t with
  | [_; fan_in] => Ok fan_in
  | _ => Raise ValueError
  end.

(** The bound is computed in the reals. This is what the source computes
    when the product under the root is positive; elsewhere numpy gives
    [inf] or [nan], which the reals do not have. *)
Definition _init_sparse_weights (m : SparseWeights) (input_sparsity : R)
  : M G SparseWeights :=
  let input_density := (1 - input_sparsity)%R in
  let weight_density := (1 - sparsity m)%R in
  let! fan_in := lift_result (fan_in_of (module_weight m)) in
  let bound := (1 / sqrt (input_density * weight_density * INR fan_in))%R in
  let! weight := uniform_ (module_weight m) (- bound)%R bound in
  ret (apply_rezero_weights (set_module_weight m weight)).

Definition _init_sparse_dendrites (m : SparseWeights) (input_sparsity : R)
  : M G SparseWeights :=
  match segments m with
  | None => ret m
  | Some s =>
      let input_density := (1 - input_sparsity)%R in
      let weight_density := (1 - segments_sparsity s)%R in
      let fan_in := dim_context m in
      let bound := (1 / sqrt (input_density * weight_density * INR fan_in))%R in
      let! weights := uniform_ (segments_weights s) (- bound)%R bound in
      ret (apply_rezero_weights (set_segment_weights m s weights))
  end.

End Initialisers.

(** *** Vocabulary of the statements *)

(** [h = 1 / sqrt((1 - input_sparsity) * (1 - sparsity) * fan_in)] *)
Definition bound (input_sparsity weight_sparsity : R) (fan_in : nat) : R :=
  (1 / sqrt ((1 - input_sparsity) * (1 - weight_sparsity) * INR fan_in))%R.

(** [new] has the shape of [old]; at every position it holds zero where
    the mask is set and, elsewhere, the draw [xs !! i] made for that
    position, which lies in the range of [uniform_] for the bounds [- h]
    and [h]. *)
Definition sampled_then_rezeroed (h : R) (mask : list bool) (xs : list R)
    (old new : weight_tensor) : Prop :=
  dims new = dims old /\
  length (entries new) = length (entries old) /\
  forall i, i < length (entries old) ->
    exists x,
      xs !! i = Some x /\ (- h <= x < h)%R /\
      entries new !! i = Some (if masked mask i then 0%R else x).

(** *** A generator and a layer to run the initialisers on *)

(** The [g]-th draw is the point of [a, b) at the fraction [1 / (g + 2)]
    of the way from [a] to [b]. *)
#[global, refine] Instance stepping_generator : Uniform nat := {|
  uniform a b g := ((a + (b - a) / (INR g + 2))%R, S g)
|}.
Proof.
  intros a b g Hab. cbn [fst].
  pose proof (pos_INR g) as Hg.
  assert (Hd : (0 < INR g + 2)%R) by lra.
  assert (Hq : (0 < (b - a) / (INR g + 2))%R).
  { apply Rdiv_lt_0_compat; lra. }
  assert (Hq' : ((b - a) / (INR g + 2) < b - a)%R).
  { apply (Rmult_lt_reg_r (INR g + 2)); [exact Hd |].
    unfold Rdiv. rewrite Rmult_assoc, Rinv_l by lra. nra. }
  lra.
Defined.

(** A 2 x 2 sparse linear layer with two masked weights, and one dendrite
    segment per unit over a context of dimension 2, one weight of each
    segment masked. *)
Definition example_segments : DendriteSegments :=
  {| segments_sparsity := (1 / 2)%R;
     segments_weights := {| dims := [2; 1; 2]; entries := [1; 1; 1; 1]%R |};
     segments_zero_mask := [false; true; true; false] |}.

Definition example_layer : SparseWeights :=
  {| sparsity := (1 / 2)%R;
     module_weight := {| dims := [2; 2]; entries := [1; 1; 1; 1]%R |};
     zero_mask := [true; false; false; true];
     dim_context := 2;
     segments := Some example_segments |}.

(** The same layer without dendrite segments. *)
Definition example_plain_layer : SparseWeights :=
  {| sparsity := (1 / 2)%R;
     module_weight := {| dims := [2; 2]; entries := [1; 1; 1; 1]%R |};
     zero_mask := [true; false; false; true];
     dim_context := 2;
     segments := None |}.

End SparseInit.

(** ** Vocabulary of the statements *)

(** What the spec calls the elementwise indicator of [v > 0]. *)
Definition positive_indicator (v : vec) : vec :=
  map (fun x => if Qlt_le_dec 0 x then 1%Q else 0%Q) v.

(** The segments of one unit after its loop iteration. *)
Definition hardcoded_unit (num_segments : nat) (ind : vec) : list vec :=
  ind :: replicate (num_segments - 1) (zip_with Qplus (map (fun _ => (-1)%Q) ind) ind).

(** A row that was never hardcoded: [-0.95 * 1] in every coordinate. *)
Definition constant_row (D : nat) : vec := replicate D (-0.95 * 1)%Q.

(** The history, projected: the segments assigned in unit [i], and the
    units assigned for context [c], both in execution order. *)
Definition segments_of_unit (i : nat) (log : list (nat * nat * nat)) : list nat :=
  map (fun e => e.2) (filter (fun e => e.1.2 = i) log).

Definition units_of_context (c : nat) (log : list (nat * nat * nat)) : list nat :=
  map (fun e => e.1.2) (filter (fun e => e.1.1 = c) log).

(** What holds of unit [i] between two iterations. *)
Definition unit_ok (ctx : mat) (S D : nat) (st : overlap_state) (i : nat) : Prop :=
  exists n segs,
    num_contexts_chosen st !! i = Some n /\
    n <= S /\
    new_dendritic_weights st !! i = Some segs /\
    length segs = S /\
    segments_of_unit i (assigned st) = seq 0 n /\
    (forall j, j < n ->
       exists c v, (c, i, j) ∈ assigned st /\ ctx !! c = Some v /\
                   segs !! j = Some v) /\
    (forall j, n <= j -> j < S -> segs !! j = Some (constant_row D)).

Definition state_ok (ctx : mat) (U S D : nat) (st : overlap_state) : Prop :=
  length (new_dendritic_weights st) = U /\
  forall i, i < U -> unit_ok ctx S D st i.

Section HardcodedWeights.
Context {G : Type} `{RandPerm G}.

(** The new weights of a call, as the branches on [init] compute them. *)
Definition hardcoded_weights (init : string) (U S D C : nat) (ctx : mat)
  : M G cube :=
  if String.eqb init "overlapping" then
    let! st := overlapping U S D C ctx in ret (new_dendritic_weights st)
  else if String.eqb init "non_overlapping" then non_overlapping U S D C ctx
  else raise (Exception "Invalid dendritic weight hardcode choice").

End HardcodedWeights.

Section ForwardVocabulary.
Context {Layer X Ctx : Type}.
Variable layer_forward : Layer -> X -> option Ctx -> X.
Variable activation_forward : activation -> X -> X.

(** The value after the hidden layers, and the calls made on the way, for
    pairs of a layer and an activation. *)
Definition hidden_pass (context : option Ctx)
  (pairs : list (Layer * activation)) (x : X) : X :=
  fold_left
    (fun x p => activation_forward p.2 (layer_forward p.1 x context)) pairs x.

Fixpoint hidden_calls (context : option Ctx)
  (pairs : list (Layer * activation)) (x : X)
  : list (@DendriticMLP.call Layer X Ctx) :=
  match pairs with
  | [] => []
  | p :: pairs' =>
      let y := layer_forward p.1 x context in
      DendriticMLP.CallLayer p.1 x context
        :: DendriticMLP.CallActivation p.2 y
        :: hidden_calls context pairs' (activation_forward p.2 y)
  end.

(** The dendritic layers a trace calls, each with the context it got. *)
Definition called_layers (tr : list (@DendriticMLP.call Layer X Ctx))
  : list (Layer * option Ctx) :=
  omap (fun e =>
          match e with
          | DendriticMLP.CallLayer l _ c => Some (l, c)
          | _ => None
          end) tr.

End ForwardVocabulary.

(** The effect of the freezing loop on one parameter. *)
Definition frozen (before after : string * bool) : Prop :=
  after.1 = before.1 /\
  (contains "segments" before.1 = true -> after.2 = false) /\
  (contains "segments" before.1 = false -> after.2 = before.2).

Section ConstructorVocabulary.
Variable class_parameters : layer_class -> Linear -> Z -> nat -> list (string * bool).

(** What the constructor guarantees of a hidden layer that it built with
    the given arguments. *)
Definition layer_built (num_segments : Z) (dim_context : nat)
  (weight_sparsity dendrite_sparsity_arg : Q) (freeze_dendrites : bool)
  (layer : DendriticLayer) : Prop :=
  layer_num_segments layer = num_segments /\
  layer_dim_context layer = dim_context /\
  module_sparsity layer = weight_sparsity /\
  dendrite_sparsity layer = dendrite_sparsity_arg /\
  let initial :=
    class_parameters (layer_class_of layer) (module layer) num_segments dim_context in
  if freeze_dendrites then Forall2 frozen initial (named_parameters layer)
  else named_parameters layer = initial.

End ConstructorVocabulary.

(** [kw] after [if kw_percent_on == 0.0: kw = False]. *)
Definition effective_kw (kw_percent_on : option Q) (kw : bool) : bool :=
  match kw_percent_on with
  | Some p => if Qeq_bool p 0 then false else kw
  | None => kw
  end.

(** ** Data to run the model on *)

(** A generator: it returns [0 .. n-1] rotated by its state, and then
    advances. *)
#[export, refine] Instance rotating_generator : RandPerm nat := {|
  randperm n g := (rotate g (seq 0 n), S g)
|}.
Proof.
  intros n g. simpl. unfold rotate.
  rewrite Permutation_app_comm. by rewrite take_drop.
Defined.

(** Three context vectors of dimension 2. *)
Definition example_contexts : mat := [[1; -2]; [0; 3]; [-1; -1]]%Q.

(** A heap with a layer of 2 units with 3 segments at location 1, a
    one-segment layer of 2 units at location 2, and a layer of 40 units
    with 2 segments at location 3. *)
Definition example_heap : gmap loc tensor :=
  {[ 1%positive := Tensor3 2 3 2 (zeros3 2 3 2);
     2%positive := Tensor2 2 2 [[5; 5]; [6; 6]]%Q;
     3%positive := Tensor3 40 2 2 (zeros3 40 2 2) ]}.

(** The parameters of the dendritic layer classes: a sparse linear module
    and dendrite segments; the bias of the linear module starts frozen. *)
Definition example_parameters (cls : layer_class) (linear : Linear)
  (num_segments : Z) (dim_context : nat) : list (string * bool) :=
  [("module.module.weight", true); ("module.module.bias", false);
   ("segments.weights", true); ("segments.bias", true)].

(** A network of two hidden layers of 2 units, as
    [hardcode_dendritic_weights] sees it: a layer is known by the location
    of its weights. *)
Definition example_network (num_segments : Z) : DendriticMLP.t loc :=
  {| DendriticMLP.num_segments := num_segments;
     DendriticMLP.input_size := 4;
     DendriticMLP.hidden_sizes := [2; 2];
     DendriticMLP.output_size := IntSize 2;
     DendriticMLP.dim_context := 2;
     DendriticMLP.kw := false;
     DendriticMLP.kw_percent_on := Some 0.05%Q;
     DendriticMLP.weight_sparsity := 0.95%Q;
     DendriticMLP.dendrite_weight_sparsity := 0.95%Q;
     DendriticMLP.output_nonlinearity := None;
     DendriticMLP.hardcode_dendrites := false;
     DendriticMLP._layers := [1%positive; 2%positive];
     DendriticMLP._activations := [ReLU; ReLU];
     DendriticMLP._single_output_head := true;
     DendriticMLP._output_layers :=
       [{| output_linear := {| in_features := 2; out_features := 2; bias := true |};
           output_sparsity := 0.95%Q;
           allow_extremes := true;
           output_init_calls := [];
           non_linearity := None |}] |}.

(** Stand-ins for what the modules compute, on numbers. *)
Definition example_layer_forward (layer : loc) (x : nat) (context : option nat)
  : nat :=
  Pos.to_nat layer + x + default 0 context.

Definition example_activation_forward (a : activation) (x : nat) : nat := 2 * x.

Definition example_head_forward (head : OutputLayer) (x : nat) : nat :=
  x + out_features (output_linear head).

(** The list [dendritic_layer_classes] of [__init__]: one-segment layers
    when [num_segments == 1], else the class repeated for each hidden size,
    or the list as passed. *)
Definition layer_classes_used (num_segments : Z)
  (dendritic_layer_class : layer_class_arg) (hidden_sizes : list nat)
  : list layer_class :=
  match (if (num_segments =? 1)%Z then OneClass OneSegmentDendriticLayer
         else dendritic_layer_class) with
  | OneClass c => map (fun _ => c) (seq 0 (length hidden_sizes))
  | ClassList cs => cs
  end.

(** The sizes the loop over the output heads runs through. *)
Definition output_sizes_of (output_size : size_arg) : list nat :=
  match output_size with
  | IntSize n => [n]
  | IterSize ns => ns
  end.

(** [t.shape] *)
Definition shape_of (t : tensor) : list nat :=
  match t with
  | Tensor2 n0 n1 _ => [n0; n1]
  | Tensor3 n0 n1 n2 _ => [n0; n1; n2]
  end.

(** A weight tensor that a call with [init] and context vectors of width
    [dim_context] can fill: its last dimension is [dim_context], and for
    "non_overlapping" it has a segment. *)
Definition accepts (init : string) (dim_context : nat) (t : tensor) : Prop :=
  match t with
  | Tensor2 _ n1 _ => n1 = dim_context
  | Tensor3 _ n1 n2 _ =>
      n2 = dim_context /\ (init = "non_overlapping" -> 0 < n1)
  end.

(** A stand-in for what a constructed dendritic layer computes. *)
Definition example_dendritic_forward (layer : DendriticLayer) (x : nat)
  (context : option nat) : nat :=
  out_features (module layer) + x + default 0 context.

(** * Verification *)

(** ** The monad and [for_loop] *)

Lemma bind_ok {St A B} (m : M St A) (k : A -> M St B) s a s' :
  m s = (Ok a, s') -> bind m k s = k a s'.
Proof. intros Hm. unfold bind. by rewrite Hm. Qed.

Lemma bind_raise {St A B} (m : M St A) (k : A -> M St B) s e s' :
  m s = (Raise e, s') -> bind m k s = (Raise e, s').
Proof. intros Hm. unfold bind. by rewrite Hm. Qed.

Lemma seq_split_at (n : nat) (pre post : list nat) (x : nat) :
  seq 0 n = pre ++ x :: post ->
  pre = seq 0 x /\ x < n /\ post = seq (S x) (n - S x).
Proof.
  intros Heq.
  assert (Hlen : length pre + S (length post) = n).
  { pose proof (length_seq n 0) as Hl. rewrite Heq, length_app in Hl.
    simpl in Hl. lia. }
  assert (Hx : x = length pre).
  { assert (Hl : seq 0 n !! length pre = Some x).
    { rewrite Heq. by rewrite list_lookup_middle. }
    apply lookup_seq in Hl. lia. }
  subst x.
  assert (Hn : n = length pre + S (length post)) by lia.
  rewrite Hn, seq_app in Heq. simpl in Heq.
  apply app_inj_1 in Heq as [Hpre Hpost]; [| by rewrite length_seq].
  split; [done |]. split; [lia |].
  injection Hpost as Hpost.
  replace (n - S (length pre)) with (length post) by lia.
  by rewrite <- Hpost at 1.
Qed.

(** The invariant rule of [for_loop]: the invariant is indexed by the
    elements already processed. *)
Lemma for_loop_invariant {St A B} (body : B -> A -> M St B)
  (I : list A -> B -> St -> Prop) (xs : list A) (acc : B) (s : St) :
  I [] acc s ->
  (forall pre x post acc s,
      xs = pre ++ x :: post -> I pre acc s ->
      exists acc' s', body acc x s = (Ok acc', s') /\ I (pre ++ [x]) acc' s') ->
  exists acc' s', for_loop body xs acc s = (Ok acc', s') /\ I xs acc' s'.
Proof.
  intros Hinit Hstep.
  assert (Hgen : forall rest pre acc s,
             xs = pre ++ rest -> I pre acc s ->
             exists acc' s', for_loop body rest acc s = (Ok acc', s') /\ I xs acc' s').
  { induction rest as [| x rest IH]; intros pre acc0 s0 Hxs Hpre.
    - rewrite app_nil_r in Hxs. subst pre. by exists acc0, s0.
    - destruct (Hstep pre x rest acc0 s0 Hxs Hpre) as (acc1 & s1 & Hb & Hinv).
      simpl. rewrite (bind_ok _ _ _ _ _ Hb).
      apply (IH (pre ++ [x])); [| done].
      by rewrite <- app_assoc. }
  by apply (Hgen xs []).
Qed.

(** ** Tensor primitives *)

Lemma broadcast_to_same (D : nat) (v : vec) :
  length v = D -> broadcast_to D v = Ok v.
Proof. intros Hv. unfold broadcast_to. by rewrite decide_True. Qed.

Lemma index_rows_ok (m : mat) (idx : list nat) :
  Forall (fun p => p < length m) idx ->
  exists rs, index_rows m idx = Ok rs /\ Forall2 (fun p r => m !! p = Some r) idx rs.
Proof.
  induction 1 as [| p idx Hp _ IH].
  - exists []. by split.
  - destruct IH as (rs & Hrs & Hall).
    destruct (lookup_lt_is_Some_2 m p Hp) as [r Hr].
    exists (r :: rs). simpl. unfold getitem_row. rewrite Hr. simpl.
    rewrite Hrs. simpl. split; [done | by constructor].
Qed.

Lemma randperm_length {G} `{RandPerm G} (n : nat) (g : G) :
  length (randperm n g).1 = n.
Proof. by rewrite (randperm_perm n g), length_seq. Qed.

Lemma randperm_bound {G} `{RandPerm G} (n : nat) (g : G) :
  Forall (fun p => p < n) (randperm n g).1.
Proof.
  apply Forall_forall. intros p Hp.
  rewrite (randperm_perm n g) in Hp.
  apply elem_of_seq in Hp. lia.
Qed.

Lemma randperm_NoDup {G} `{RandPerm G} (n : nat) (g : G) :
  NoDup (randperm n g).1.
Proof. rewrite (randperm_perm n g). apply NoDup_seq. Qed.

(** ** The "non_overlapping" initialisation *)


Lemma indicator_positive (v : vec) : indicator v = positive_indicator v.
Proof.
  unfold indicator, positive_indicator. apply map_ext. intros x.
  unfold gt_zero. destruct (Qlt_le_dec 0 x) as [Hlt | Hle].
  - destruct (Qle_bool x 0) eqn:Hb; [| reflexivity].
    apply Qle_bool_iff in Hb. exfalso. exact (Qlt_not_le _ _ Hlt Hb).
  - apply Qle_bool_iff in Hle. rewrite Hle. reflexivity.
Qed.

Lemma map_const_replicate {A B} (b : B) (l : list A) :
  map (fun _ => b) l = replicate (length l) b.
Proof. induction l as [| a l IH]; simpl; [done | by rewrite IH]. Qed.

Section NonOverlapping.
Context {G : Type} `{RandPerm G}.

Lemma non_overlapping_unit_run (C D S : nat) (ctx : mat) (w : cube)
  (i : nat) (g : G) (segs : list vec) :
  well_shaped_mat C D ctx -> 0 < C -> 0 < S ->
  w !! i = Some segs -> length segs = S ->
  exists v, v ∈ ctx /\
    non_overlapping_unit C D ctx w i g
    = (Ok (<[i := hardcoded_unit S (indicator v)]> w), (randperm C g).2).
Proof.
  intros [HC HD] HCpos HSpos Hi Hsegs.
  unfold non_overlapping_unit, torch_randperm.
  destruct (randperm C g) as [perm g'] eqn:Hperm.
  assert (Hlen : length perm = C).
  { pose proof (randperm_length C g) as Hl. by rewrite Hperm in Hl. }
  assert (Hbound : Forall (fun p => p < length ctx) perm).
  { pose proof (randperm_bound C g) as Hb. rewrite Hperm in Hb.
    by rewrite HC. }
  destruct (index_rows_ok ctx perm Hbound) as (rs & Hrs & Hall).
  destruct perm as [| p perm]; [simpl in Hlen; lia |].
  inversion Hall as [| ? v ? rs' Hv Hall' ]; subst.
  exists v. split; [by eapply list_elem_of_lookup_2 |].
  assert (Hvlen : length (indicator v) = D).
  { unfold indicator. rewrite length_map.
    rewrite Forall_forall in HD. apply HD.
    by eapply list_elem_of_lookup_2. }
  assert (Hilt : i < length w) by (by eapply lookup_lt_Some).
  unfold bind, lift_result.
  rewrite Hperm, Hrs. cbn [getitem_row lookup list_lookup].
  unfold setitem_unit. rewrite Hi, (broadcast_to_same _ _ Hvlen). simpl.
  unfold fill_tail. rewrite list_lookup_insert_eq by done.
  unfold getitem_segment. rewrite list_lookup_insert_eq by (by rewrite length_insert).
  destruct segs as [| s0 segs]; [simpl in HSpos; lia |].
  simpl. unfold iadd_tail.
  rewrite list_lookup_insert_eq by (by rewrite length_insert).
  rewrite (broadcast_to_same _ _ Hvlen). simpl.
  rewrite !list_insert_insert_eq.
  do 3 f_equal. unfold hardcoded_unit. f_equal.
  rewrite !drop_0, !map_map, map_const_replicate.
  f_equal. simpl. lia.
Qed.

Lemma non_overlapping_run (U S D C : nat) (ctx : mat) (g : G) :
  well_shaped_mat C D ctx -> 0 < C -> 0 < S ->
  exists w g',
    non_overlapping U S D C ctx g = (Ok w, g') /\
    length w = U /\
    forall i, i < U ->
      exists v, v ∈ ctx /\ w !! i = Some (hardcoded_unit S (indicator v)).
Proof.
  intros Hctx HC HS. unfold non_overlapping.
  pose (I := fun (pre : list nat) (w : cube) (_ : G) =>
    length w = U /\
    (forall i, i < U -> exists segs, w !! i = Some segs /\ length segs = S) /\
    (forall i, i < length pre ->
       exists v, v ∈ ctx /\ w !! i = Some (hardcoded_unit S (indicator v)))).
  destruct (for_loop_invariant (non_overlapping_unit C D ctx) I (seq 0 U)
              (zeros3 U S D) g) as (w & g' & Hrun & HU & _ & Hfin).
  - split; [| split].
    + unfold zeros3, full3. by rewrite length_replicate.
    + intros i Hi. eexists. split.
      * unfold zeros3, full3. by apply lookup_replicate_2.
      * by rewrite length_replicate.
    + simpl. intros i Hi. lia.
  - intros pre x post w s Hsplit (HU & Hshape & Hdone).
    apply seq_split_at in Hsplit as (Hpre & Hx & _).
    destruct (Hshape x Hx) as (segs & Hsegs & Hlen).
    destruct (non_overlapping_unit_run C D S ctx w x s segs Hctx HC HS Hsegs Hlen)
      as (v & Hv & Hrun).
    eexists _, _. split; [exact Hrun |].
    split; [by rewrite length_insert |]. split.
    + intros i Hi. destruct (decide (i = x)) as [-> | Hne].
      * eexists. split; [apply list_lookup_insert_eq; lia |].
        unfold hardcoded_unit. simpl. rewrite length_replicate. lia.
      * rewrite list_lookup_insert_ne by done. by apply Hshape.
    + intros i Hi. rewrite length_app in Hi. simpl in Hi.
      assert (Hlp : length pre = x) by (by rewrite Hpre, length_seq).
      destruct (decide (i = x)) as [-> | Hne].
      * exists v. split; [done |]. apply list_lookup_insert_eq. lia.
      * rewrite list_lookup_insert_ne by done. apply Hdone. lia.
  - exists w, g'. split; [done |]. split; [done |].
    intros i Hi. apply Hfin. by rewrite length_seq.
Qed.

End NonOverlapping.

(** ** [_hardcode_dendritic_weights] with [init == "non_overlapping"] *)

Lemma hardcoded_unit_shape (S D : nat) (ind : vec) :
  0 < S -> length ind = D ->
  length (hardcoded_unit S ind) = S /\
  Forall (fun r => length r = D) (hardcoded_unit S ind).
Proof.
  intros HS Hind. unfold hardcoded_unit. split.
  - simpl. rewrite length_replicate. lia.
  - constructor; [done |]. apply Forall_replicate.
    rewrite length_zip_with, length_map. lia.
Qed.

Lemma minus_one_plus_indicator (v : vec) :
  Forall2 (fun x x0 => (x == x0 - 1)%Q /\
             (x0 = 1%Q /\ x = 0%Q \/ x0 = 0%Q /\ x = (-1)%Q))
    (zip_with Qplus (map (fun _ => (-1)%Q) (positive_indicator v))
       (positive_indicator v))
    (positive_indicator v).
Proof.
  induction v as [| x v IH]; simpl; [constructor |].
  constructor; [| exact IH].
  destruct (Qlt_le_dec 0 x); split; try reflexivity.
  - left. by split.
  - right. by split.
Qed.

Section NonOverlappingHeap.
Context {G : Type} `{RandPerm G}.

Lemma non_overlapping_shape (U S D C : nat) (ctx : mat) (w' : cube) :
  well_shaped_mat C D ctx -> 0 < S ->
  length w' = U ->
  (forall i, i < U ->
     exists v, v ∈ ctx /\ w' !! i = Some (hardcoded_unit S (indicator v))) ->
  well_shaped_cube U S D w'.
Proof.
  intros Hctx HS HU Hunits.
  split; [done |]. apply Forall_forall. intros segs Hsegs.
  apply list_elem_of_lookup in Hsegs as [i Hi].
  assert (Hlt : i < U) by (rewrite <- HU; by eapply lookup_lt_Some).
  destruct (Hunits i Hlt) as (v & Hv & Hw).
  rewrite Hw in Hi. injection Hi as <-.
  apply hardcoded_unit_shape; [done |].
  unfold indicator. rewrite length_map.
  destruct Hctx as [_ HD]. rewrite Forall_forall in HD. by apply HD.
Qed.

(** C1. On a weight tensor of shape (num_units, num_segments, dim_context)
    with at least one segment, and a non-empty matrix of context vectors of
    width dim_context, [_hardcode_dendritic_weights] with
    [init == "non_overlapping"] returns normally, and afterwards every unit
    [i] has a row [v] of [context_vectors] such that segment 0 of the unit
    is the indicator of [v > 0], and every entry of every later segment is
    the entry of segment 0 minus 1 (0 where segment 0 is 1, -1 where it is
    0). *)
Theorem non_overlapping_hardcodes_one_context
  (l : loc) (U S D C : nat) (w : cube) (ctx : mat)
  (h : gmap loc tensor) (g : G) :
  h !! l = Some (Tensor3 U S D w) ->
  well_shaped_mat C D ctx -> 0 < C -> 0 < S ->
  exists w' g',
    _hardcode_dendritic_weights l (Tensor2 C D ctx) "non_overlapping" (World h g)
    = (Ok tt, World (<[l := Tensor3 U S D w']> h) g') /\
    well_shaped_cube U S D w' /\
    forall i, i < U ->
      exists v seg0,
        v ∈ ctx /\
        getitem_segment w' i 0 = Ok seg0 /\
        seg0 = positive_indicator v /\
        forall j, 1 <= j < S ->
          exists r,
            getitem_segment w' i j = Ok r /\
            Forall2 (fun x x0 => (x == x0 - 1)%Q /\
                       (x0 = 1%Q /\ x = 0%Q \/ x0 = 0%Q /\ x = (-1)%Q)) r seg0.
Proof.
  intros Hl Hctx HC HS.
  destruct (non_overlapping_run U S D C ctx g Hctx HC HS)
    as (w' & g' & Hrun & HU & Hunits).
  exists w', g'. split; [| split].
  - unfold _hardcode_dendritic_weights, bind, load, lift_result, with_rng,
      set_data, ret. simpl.
    rewrite Hl. simpl. rewrite Hl. simpl. by rewrite Hrun.
  - by eapply non_overlapping_shape.
  - intros i Hi. destruct (Hunits i Hi) as (v & Hv & Hw).
    exists v, (positive_indicator v). split; [done |].
    unfold getitem_segment. rewrite Hw, indicator_positive.
    split; [done |]. split; [done |].
    intros j [Hj1 Hj2]. eexists. split.
    + unfold hardcoded_unit. destruct j as [| j]; [lia |]. simpl.
      rewrite lookup_replicate_2 by lia. reflexivity.
    + apply minus_one_plus_indicator.
Qed.

End NonOverlappingHeap.

(** ** The "overlapping" initialisation *)


Lemma map_replicate_eq {A B} (f : A -> B) (n : nat) (x : A) :
  map f (replicate n x) = replicate n (f x).
Proof. induction n as [| n IH]; simpl; [done | by rewrite IH]. Qed.

Lemma scaled_ones (U S D : nat) :
  scale3 (-0.95)%Q (ones3 U S D) = replicate U (replicate S (constant_row D)).
Proof.
  unfold scale3, ones3, full3, constant_row.
  by rewrite !map_replicate_eq.
Qed.

Lemma zero_counts_lookup (U i : nat) :
  i < U ->
  (list_to_map (map (fun i => (i, 0)) (seq 0 U)) : gmap nat nat) !! i = Some 0.
Proof.
  intros Hi. apply elem_of_list_to_map_1.
  - rewrite map_map. simpl. rewrite map_id. apply NoDup_seq.
  - apply list_elem_of_In, in_map_iff. exists i. split; [done |].
    apply in_seq. lia.
Qed.

Lemma segments_of_unit_snoc (i : nat) (log : list (nat * nat * nat)) (c i' j : nat) :
  segments_of_unit i (log ++ [(c, i', j)])
  = segments_of_unit i log ++ (if decide (i' = i) then [j] else []).
Proof.
  unfold segments_of_unit. rewrite filter_app, map_app. f_equal.
  rewrite filter_cons, filter_nil. simpl. by destruct (decide (i' = i)).
Qed.

Lemma units_of_context_snoc (c : nat) (log : list (nat * nat * nat)) (c' i j : nat) :
  units_of_context c (log ++ [(c', i, j)])
  = units_of_context c log ++ (if decide (c' = c) then [i] else []).
Proof.
  unfold units_of_context. rewrite filter_app, map_app. f_equal.
  rewrite filter_cons, filter_nil. simpl. by destruct (decide (c' = c)).
Qed.

Section Overlapping.
Context {G : Type} `{RandPerm G}.

Lemma state_ok_init (ctx : mat) (U S D : nat) :
  state_ok ctx U S D
    {| new_dendritic_weights := scale3 (-0.95)%Q (ones3 U S D);
       num_contexts_chosen := list_to_map (map (fun i => (i, 0)) (seq 0 U));
       assigned := [] |}.
Proof.
  rewrite scaled_ones. split; simpl.
  - by rewrite length_replicate.
  - intros i Hi. exists 0, (replicate S (constant_row D)). simpl.
    split; [by apply zero_counts_lookup |]. split; [lia |].
    split; [by apply lookup_replicate_2 |].
    split; [by rewrite length_replicate |].
    split; [done |]. split; [intros j Hj; lia |].
    intros j _ Hj. by apply lookup_replicate_2.
Qed.

(** One iteration of [for i in selected_units]: it returns normally, keeps
    the state well formed and appends at most one entry to the history. *)
Lemma overlapping_unit_step (ctx : mat) (U S D C c i : nat)
  (st : overlap_state) (g : G) :
  well_shaped_mat C D ctx -> c < C -> i < U ->
  state_ok ctx U S D st ->
  exists st',
    overlapping_unit S D ctx c st i g = (Ok st', g) /\
    state_ok ctx U S D st' /\
    (assigned st' = assigned st \/
     exists n, n < S /\ assigned st' = assigned st ++ [(c, i, n)]).
Proof.
  intros [HC HD] Hc Hi [HU Hunits].
  destruct (Hunits i Hi) as (n & segs & Hn & HnS & Hw & Hlen & Hlog & Hhard & Hconst).
  unfold overlapping_unit. rewrite Hn.
  destruct (decide (n = S)) as [-> | Hne].
  { exists st. split; [done |]. split; [by split | by left]. }
  assert (Hc' : c < length ctx) by lia.
  destruct (lookup_lt_is_Some_2 ctx c Hc') as [v Hv].
  assert (Hvlen : length v = D).
  { rewrite Forall_forall in HD. apply HD. by eapply list_elem_of_lookup_2. }
  unfold bind, lift_result, getitem_row, setitem_segment, ret.
  rewrite Hv, Hw. rewrite decide_True by lia.
  rewrite (broadcast_to_same _ _ Hvlen). simpl.
  eexists. split; [reflexivity |]. split.
  - split; simpl; [by rewrite length_insert |].
    intros i' Hi'. destruct (decide (i' = i)) as [-> | Hii].
    + exists (n + 1), (<[n := v]> segs). simpl.
      split; [by rewrite lookup_insert_eq |]. split; [lia |].
      split; [apply list_lookup_insert_eq; lia |].
      split; [by rewrite length_insert |].
      split. { rewrite segments_of_unit_snoc, decide_True by done.
               rewrite Hlog. by rewrite Nat.add_1_r, seq_S. }
      split.
      * intros j Hj. destruct (decide (j = n)) as [-> | Hjn].
        -- exists c, v. split; [set_solver |]. split; [done |].
           apply list_lookup_insert_eq. lia.
        -- destruct (Hhard j ltac:(lia)) as (c0 & v0 & Hin & Hc0 & Hj0).
           exists c0, v0. split; [set_solver |]. split; [done |].
           by rewrite list_lookup_insert_ne.
      * intros j Hj1 Hj2. rewrite list_lookup_insert_ne by lia.
        apply Hconst; lia.
    + destruct (Hunits i' Hi') as (n' & segs' & Hn' & HnS' & Hw' & Hlen' & Hlog' & Hhard' & Hconst').
      exists n', segs'. simpl.
      split; [by rewrite lookup_insert_ne |]. split; [done |].
      split; [by rewrite list_lookup_insert_ne |]. split; [done |].
      split. { rewrite segments_of_unit_snoc, decide_False by done.
               by rewrite app_nil_r. }
      split; [| done].
      intros j Hj. destruct (Hhard' j Hj) as (c0 & v0 & Hin & Hc0 & Hj0).
      exists c0, v0. split; [set_solver | done].
  - right. exists n. simpl. split; [lia | done].
Qed.

End Overlapping.

Lemma units_of_context_app (c : nat) (l1 l2 : list (nat * nat * nat)) :
  units_of_context c (l1 ++ l2) = units_of_context c l1 ++ units_of_context c l2.
Proof. unfold units_of_context. by rewrite filter_app, map_app. Qed.

Lemma units_of_context_same (c : nat) (l : list (nat * nat * nat)) :
  Forall (fun e => e.1.1 = c) l ->
  units_of_context c l = map (fun e => e.1.2) l.
Proof.
  unfold units_of_context. induction 1 as [| e l He _ IH]; [done |].
  rewrite filter_cons, decide_True by done. simpl. by rewrite IH.
Qed.

Lemma units_of_context_other (c : nat) (l : list (nat * nat * nat)) :
  Forall (fun e => e.1.1 <> c) l -> units_of_context c l = [].
Proof.
  unfold units_of_context. induction 1 as [| e l He _ IH]; [done |].
  by rewrite filter_cons, decide_False.
Qed.

Section OverlappingLoops.
Context {G : Type} `{RandPerm G}.

(** The loop [for i in selected_units], for one context [c]. *)
Lemma overlapping_units_loop (ctx : mat) (U S D C c : nat) (sel : list nat)
  (st : overlap_state) (g : G) :
  well_shaped_mat C D ctx -> c < C ->
  Forall (fun i => i < U) sel ->
  state_ok ctx U S D st ->
  exists st' extra,
    for_loop (overlapping_unit S D ctx c) sel st g = (Ok st', g) /\
    state_ok ctx U S D st' /\
    assigned st' = assigned st ++ extra /\
    Forall (fun e => e.1.1 = c) extra /\
    map (fun e => e.1.2) extra `sublist_of` sel.
Proof.
  intros Hctx Hc Hsel Hok.
  pose (I := fun (pre : list nat) (st' : overlap_state) (g' : G) =>
    g' = g /\ state_ok ctx U S D st' /\
    exists extra,
      assigned st' = assigned st ++ extra /\
      Forall (fun e => e.1.1 = c) extra /\
      map (fun e => e.1.2) extra `sublist_of` pre).
  destruct (for_loop_invariant (overlapping_unit S D ctx c) I sel st g)
    as (st' & g' & Hrun & -> & Hok' & extra & Hlog & Hall & Hsub).
  - split; [done |]. split; [done |]. exists [].
    split; [by rewrite app_nil_r |]. split; [constructor | done].
  - intros pre i post st1 g1 Hsplit (-> & Hok1 & extra & Hlog & Hall & Hsub).
    assert (Hi : i < U).
    { rewrite Forall_forall in Hsel. apply Hsel. rewrite Hsplit. set_solver. }
    destruct (overlapping_unit_step ctx U S D C c i st1 g Hctx Hc Hi Hok1)
      as (st2 & Hrun & Hok2 & Hstep).
    exists st2, g. split; [done |]. split; [done |]. split; [done |].
    destruct Hstep as [Hsame | (n & _ & Hsnoc)].
    + exists extra. rewrite Hsame. split; [done |]. split; [done |].
      by apply sublist_inserts_r.
    + exists (extra ++ [(c, i, n)]). rewrite Hsnoc, Hlog.
      split; [by rewrite app_assoc |]. split.
      * apply Forall_app. split; [done | by constructor].
      * rewrite map_app. simpl. by apply sublist_app.
  - by exists st', extra.
Qed.

(** The whole "overlapping" initialisation. *)
Lemma overlapping_run (U S D C : nat) (ctx : mat) (g : G) :
  well_shaped_mat C D ctx ->
  exists st g',
    overlapping U S D C ctx g = (Ok st, g') /\
    state_ok ctx U S D st /\
    (forall e, e ∈ assigned st -> e.1.1 < C) /\
    (forall c, NoDup (units_of_context c (assigned st)) /\
               length (units_of_context c (assigned st)) <= units_per_context U).
Proof.
  intros Hctx. unfold overlapping.
  set (k := units_per_context U).
  pose (I := fun (pre : list nat) (st : overlap_state) (_ : G) =>
    state_ok ctx U S D st /\
    (forall e, e ∈ assigned st -> e.1.1 ∈ pre) /\
    (forall c, NoDup (units_of_context c (assigned st)) /\
               length (units_of_context c (assigned st)) <= k)).
  destruct (for_loop_invariant (overlapping_context U S D k ctx) I (seq 0 C)
              {| new_dendritic_weights := scale3 (-0.95)%Q (ones3 U S D);
                 num_contexts_chosen := list_to_map (map (fun i => (i, 0)) (seq 0 U));
                 assigned := [] |} g)
    as (st & g' & Hrun & Hok & Hctxs & Hunits).
  - split; [apply state_ok_init |]. split; simpl.
    + intros e He. by apply elem_of_nil in He.
    + intros c. split; [constructor | simpl; lia].
  - intros pre c post st g0 Hsplit (Hok & Hctxs & Hunits).
    apply seq_split_at in Hsplit as (Hpre & Hc & _).
    unfold overlapping_context, bind, torch_randperm.
    destruct (randperm U g0) as [perm g1] eqn:Hperm.
    assert (Hbound : Forall (fun i => i < U) (take k perm)).
    { apply Forall_take. pose proof (randperm_bound U g0) as Hb.
      by rewrite Hperm in Hb. }
    assert (Hnodup : NoDup (take k perm)).
    { pose proof (randperm_NoDup U g0) as Hn. rewrite Hperm in Hn.
      eapply sublist_NoDup; [exact Hn | apply sublist_take]. }
    destruct (overlapping_units_loop ctx U S D C c (take k perm) st g1
                Hctx Hc Hbound Hok)
      as (st' & extra & Hrun & Hok' & Hlog & Hall & Hsub).
    exists st', g1. split; [done |]. split; [done |]. split.
    + intros e He. rewrite Hlog in He. apply elem_of_app in He as [He | He].
      * apply elem_of_app. left. by apply Hctxs.
      * apply elem_of_app. right. rewrite Forall_forall in Hall.
        rewrite (Hall e He). constructor.
    + intros c'. rewrite Hlog, units_of_context_app.
      destruct (decide (c' = c)) as [-> | Hne].
      * rewrite (units_of_context_other c (assigned st)).
        2:{ apply Forall_forall. intros e He Hec.
            apply Hctxs in He. rewrite Hec, Hpre in He.
            apply elem_of_seq in He. lia. }
        rewrite (units_of_context_same c extra Hall). simpl. split.
        -- eapply sublist_NoDup; [exact Hnodup | exact Hsub].
        -- apply sublist_length in Hsub. rewrite length_take in Hsub. lia.
      * rewrite (units_of_context_other c' extra), app_nil_r; [apply Hunits |].
        eapply Forall_impl; [exact Hall |]. simpl. intros e He. congruence.
  - exists st, g'. split; [done |]. split; [done |]. split; [| done].
    intros e He. apply Hctxs in He. apply elem_of_seq in He. lia.
Qed.

End OverlappingLoops.

Lemma constant_row_eq (D : nat) : constant_row D = replicate D (-0.95)%Q.
Proof. reflexivity. Qed.

(** The rows of a well-formed state: hardcoded below the count, constant
    from the count on. *)
Lemma state_ok_row (ctx : mat) (U S D : nat) (st : overlap_state)
  (i j : nat) (r : vec) :
  state_ok ctx U S D st ->
  getitem_segment (new_dendritic_weights st) i j = Ok r ->
  i < U /\ j < S /\ (r = constant_row D \/ r ∈ ctx).
Proof.
  intros [HU Hunits] Hget. unfold getitem_segment in Hget.
  destruct (new_dendritic_weights st !! i) as [segs |] eqn:Hw; [| done].
  destruct (segs !! j) as [r' |] eqn:Hj; [| done].
  injection Hget as ->.
  assert (Hi : i < U) by (rewrite <- HU; by eapply lookup_lt_Some).
  destruct (Hunits i Hi) as (n & segs' & _ & _ & Hw' & Hlen & _ & Hhard & Hconst).
  rewrite Hw in Hw'. injection Hw' as <-.
  assert (HjS : j < S) by (rewrite <- Hlen; by eapply lookup_lt_Some).
  split; [done |]. split; [done |].
  destruct (decide (j < n)) as [Hlt | Hge].
  - destruct (Hhard j Hlt) as (c & v & _ & Hc & Hv).
    rewrite Hj in Hv. injection Hv as ->.
    right. by eapply list_elem_of_lookup_2.
  - rewrite Hconst in Hj by lia. injection Hj as <-. by left.
Qed.

Lemma state_ok_shape (ctx : mat) (U S D C : nat) (st : overlap_state) :
  well_shaped_mat C D ctx ->
  state_ok ctx U S D st ->
  well_shaped_cube U S D (new_dendritic_weights st).
Proof.
  intros [_ HD] Hok. pose proof Hok as [HU Hunits].
  split; [done |]. apply Forall_forall. intros segs Hsegs.
  apply list_elem_of_lookup in Hsegs as [i Hi].
  assert (Hlt : i < U) by (rewrite <- HU; by eapply lookup_lt_Some).
  destruct (Hunits i Hlt) as (n & segs' & _ & _ & Hw' & Hlen & _).
  rewrite Hi in Hw'. injection Hw' as <-. split; [done |].
  apply Forall_forall. intros r Hr.
  apply list_elem_of_lookup in Hr as [j Hj].
  destruct (state_ok_row ctx U S D st i j r Hok) as (_ & _ & [-> | Hin]).
  - unfold getitem_segment. by rewrite Hi, Hj.
  - unfold constant_row. by rewrite length_replicate.
  - rewrite Forall_forall in HD. by apply HD.
Qed.

Section OverlappingHeap.
Context {G : Type} `{RandPerm G}.

(** C2. On a weight tensor of shape (num_units, num_segments, dim_context)
    and a matrix of context vectors of width dim_context,
    [_hardcode_dendritic_weights] with [init == "overlapping"] returns
    normally, and afterwards: every (unit, segment) row is the constant
    vector -0.95 or a row of [context_vectors]; in every unit the segments
    assigned were, in execution order, exactly 0, 1, ..., n-1 for some
    n <= num_segments (so no segment was assigned twice), those segments
    hold context rows and the later ones are still constant; and for every
    context the units assigned for it are pairwise distinct and at most
    k = int(0.05 * num_units). *)
Theorem overlapping_hardcodes_prefixes
  (l : loc) (U S D C : nat) (w : cube) (ctx : mat)
  (h : gmap loc tensor) (g : G) :
  h !! l = Some (Tensor3 U S D w) ->
  well_shaped_mat C D ctx ->
  exists st g',
    overlapping U S D C ctx g = (Ok st, g') /\
    _hardcode_dendritic_weights l (Tensor2 C D ctx) "overlapping" (World h g)
    = (Ok tt, World (<[l := Tensor3 U S D (new_dendritic_weights st)]> h) g') /\
    well_shaped_cube U S D (new_dendritic_weights st) /\
    (forall i j r,
        getitem_segment (new_dendritic_weights st) i j = Ok r ->
        r = replicate D (-0.95)%Q \/ r ∈ ctx) /\
    (forall i, i < U ->
       exists n,
         n <= S /\
         segments_of_unit i (assigned st) = seq 0 n /\
         (forall j, j < n ->
            exists c v,
              (c, i, j) ∈ assigned st /\ ctx !! c = Some v /\
              getitem_segment (new_dendritic_weights st) i j = Ok v) /\
         (forall j, n <= j < S ->
            getitem_segment (new_dendritic_weights st) i j
            = Ok (replicate D (-0.95)%Q))) /\
    (forall c,
        NoDup (units_of_context c (assigned st)) /\
        length (units_of_context c (assigned st))
        <= Z.to_nat (Qfloor (0.05 * inject_Z (Z.of_nat U)))).
Proof.
  intros Hl Hctx.
  destruct (overlapping_run U S D C ctx g Hctx)
    as (st & g' & Hrun & Hok & _ & Hper).
  exists st, g'. split; [done |]. split; [| split; [| split; [| split]]].
  - unfold _hardcode_dendritic_weights, bind, load, lift_result, with_rng,
      set_data, ret. simpl.
    rewrite Hl. simpl. rewrite Hl. simpl. by rewrite Hrun.
  - by eapply state_ok_shape.
  - intros i j r Hget.
    destruct (state_ok_row ctx U S D st i j r Hok Hget) as (_ & _ & Hr).
    by rewrite <- constant_row_eq.
  - intros i Hi. destruct Hok as [HU Hunits].
    destruct (Hunits i Hi) as (n & segs & _ & HnS & Hw & Hlen & Hlog & Hhard & Hconst).
    exists n. split; [done |]. split; [done |]. split.
    + intros j Hj. destruct (Hhard j Hj) as (c & v & Hin & Hc & Hv).
      exists c, v. split; [done |]. split; [done |].
      unfold getitem_segment. by rewrite Hw, Hv.
    + intros j [Hj1 Hj2]. unfold getitem_segment.
      rewrite Hw, (Hconst j Hj1 Hj2). by rewrite constant_row_eq.
  - exact Hper.
Qed.

End OverlappingHeap.

(** ** A two-dimensional weight tensor *)

Section OneSegment.
Context {G : Type} `{RandPerm G}.


Lemma hardcoded_weights_run (init : string) (U S D C : nat) (ctx : mat) (g : G) :
  well_shaped_mat C D ctx ->
  init = "overlapping" \/ (init = "non_overlapping" /\ 0 < C /\ 0 < S) ->
  exists new g',
    hardcoded_weights init U S D C ctx g = (Ok new, g') /\
    well_shaped_cube U S D new.
Proof.
  intros Hctx [-> | (-> & HC & HS)]; unfold hardcoded_weights; simpl.
  - destruct (overlapping_run U S D C ctx g Hctx) as (st & g' & Hrun & Hok & _).
    exists (new_dendritic_weights st), g'.
    split; [by rewrite (bind_ok _ _ _ _ _ Hrun) | by eapply state_ok_shape].
  - destruct (non_overlapping_run U S D C ctx g Hctx HC HS)
      as (w' & g' & Hrun & HU & Hunits).
    exists w', g'. split; [done | by eapply non_overlapping_shape].
Qed.

(** The call on a two-dimensional tensor, step by step: a view with a
    segment dimension is created, the view receives the new weights, and
    the squeezed view is assigned to the original. *)
Lemma hardcode_two_dimensional (l : loc) (U D C W : nat) (rows ctx : mat)
  (init : string) (h : gmap loc tensor) (g g' : G) (new : cube) :
  h !! l = Some (Tensor2 U D rows) ->
  hardcoded_weights init U 1 D C ctx g = (Ok new, g') ->
  let view := fresh (dom h) in
  let h1 := <[view := Tensor3 U 1 D new]>
              (<[view := Tensor3 U 1 D (map (fun r => [r]) rows)]> h) in
  let squeezed := fresh (dom h1) in
  _hardcode_dendritic_weights l (Tensor2 C W ctx) init (World h g)
  = (Ok tt,
     World (<[l := Tensor2 U D (map (@concat Q) new)]>
              (<[squeezed := Tensor2 U D (map (@concat Q) new)]> h1)) g').
Proof.
  intros Hl Hnew view h1 squeezed.
  unfold _hardcode_dendritic_weights.
  unfold bind at 1. unfold load at 1. cbn [heap rng]. rewrite Hl.
  unfold bind at 1. unfold bind at 1. unfold new_object at 1.
  cbn [heap rng unsqueeze1 ret]. fold view.
  unfold bind at 1. unfold load at 1. cbn [heap rng].
  rewrite lookup_insert_eq.
  unfold bind at 1. unfold lift_result at 1. cbn [size3].
  unfold bind at 1. unfold lift_result at 1. cbn [size2 rows_of].
  unfold bind at 1.
  assert (Hw : forall w0 : world G,
    (if String.eqb init "overlapping"
     then let! st := with_rng (overlapping U 1 D C ctx) in ret (new_dendritic_weights st)
     else if String.eqb init "non_overlapping"
          then with_rng (non_overlapping U 1 D C ctx)
          else raise (Exception "Invalid dendritic weight hardcode choice")) w0
    = (let '(r, g1) := hardcoded_weights init U 1 D C ctx (rng w0) in
       (r, World (heap w0) g1))).
  { intros w0. unfold hardcoded_weights.
    destruct (String.eqb init "overlapping").
    - unfold bind, with_rng, ret.
      destruct (overlapping U 1 D C ctx (rng w0)) as [[st | e] g1]; reflexivity.
    - destruct (String.eqb init "non_overlapping"); [reflexivity |].
      unfold raise. by destruct w0. }
  rewrite Hw. cbn [heap rng]. rewrite Hnew.
  unfold bind at 1. unfold set_data at 1. cbn [heap rng]. fold h1.
  unfold bind at 1. unfold load at 1. cbn [heap rng].
  unfold h1 at 1. rewrite lookup_insert_eq. fold h1.
  unfold bind at 1. unfold new_object at 1. cbn [heap rng squeeze1].
  fold squeezed.
  unfold bind at 1. unfold load at 1. cbn [heap rng].
  rewrite lookup_insert_eq.
  reflexivity.
Qed.

Lemma squeeze_one_segment (U D : nat) (new : cube) :
  well_shaped_cube U 1 D new ->
  well_shaped_mat U D (map (@concat Q) new) /\
  forall i, i < U ->
    exists r, map (@concat Q) new !! i = Some r /\ getitem_segment new i 0 = Ok r.
Proof.
  intros [HU Hall]. split; [split |].
  - by rewrite length_map.
  - apply Forall_forall. intros r Hr.
    apply list_elem_of_In, in_map_iff in Hr as (segs & <- & Hsegs).
    apply list_elem_of_In in Hsegs.
    rewrite Forall_forall in Hall. destruct (Hall segs Hsegs) as [Hlen Hrows].
    destruct segs as [| r [| ? ?]]; try done.
    simpl. rewrite app_nil_r. by inversion Hrows.
  - intros i Hi.
    destruct (lookup_lt_is_Some_2 new i ltac:(lia)) as [segs Hsegs].
    rewrite Forall_forall in Hall.
    destruct (Hall segs ltac:(by eapply list_elem_of_lookup_2)) as [Hlen _].
    destruct segs as [| r [| ? ?]]; try done.
    exists r. split.
    + rewrite list_lookup_fmap_Some_2 with (x := [r]); [| done].
      simpl. by rewrite app_nil_r.
    + unfold getitem_segment. by rewrite Hsegs.
Qed.

(** C10. Given a two-dimensional weight tensor of shape
    (num_units, dim_context), a valid [init] and context vectors of width
    dim_context (non-empty for "non_overlapping"),
    [_hardcode_dendritic_weights] returns normally; the new weights are
    computed at shape (num_units, 1, dim_context); afterwards the original
    tensor object has shape (num_units, dim_context) again and its row [i]
    is segment 0 of unit [i] of the new weights; every other tensor object
    that existed before the call is unchanged. *)
Theorem one_segment_weights_written_back
  (l : loc) (U D C : nat) (rows ctx : mat) (init : string)
  (h : gmap loc tensor) (g : G) :
  h !! l = Some (Tensor2 U D rows) ->
  well_shaped_mat C D ctx ->
  init = "overlapping" \/ (init = "non_overlapping" /\ 0 < C) ->
  exists new h' g',
    _hardcode_dendritic_weights l (Tensor2 C D ctx) init (World h g)
    = (Ok tt, World h' g') /\
    hardcoded_weights init U 1 D C ctx g = (Ok new, g') /\
    h' !! l = Some (Tensor2 U D (map (@concat Q) new)) /\
    well_shaped_mat U D (map (@concat Q) new) /\
    (forall i, i < U ->
       exists r, map (@concat Q) new !! i = Some r /\
                 getitem_segment new i 0 = Ok r) /\
    (forall l', l' ∈ dom h -> l' <> l -> h' !! l' = h !! l').
Proof.
  intros Hl Hctx Hinit.
  destruct (hardcoded_weights_run init U 1 D C ctx g Hctx) as (new & g' & Hnew & Hshape).
  { destruct Hinit as [-> | [-> HC]]; [by left | right]. repeat split; [done | lia]. }
  destruct (squeeze_one_segment U D new Hshape) as [Hmat Hrows].
  pose proof (hardcode_two_dimensional l U D C D rows ctx init h g g' new Hl Hnew)
    as Hrun. cbv zeta in Hrun.
  eexists new, _, g'. split; [exact Hrun |]. split; [done |].
  split; [by rewrite lookup_insert_eq |]. split; [done |]. split; [done |].
  intros l' Hdom Hne.
  set (view := fresh (dom h)) in *.
  set (h1 := <[view := Tensor3 U 1 D new]>
               (<[view := Tensor3 U 1 D (map (fun r => [r]) rows)]> h)) in *.
  assert (Hv : view ∉ dom h) by apply is_fresh.
  assert (Hsub : forall x, x ∈ dom h -> x ∈ dom h1).
  { intros x Hx. unfold h1. rewrite !dom_insert_L.
    by do 2 apply elem_of_union_r. }
  assert (Hs : fresh (dom h1) ∉ dom h1) by apply is_fresh.
  rewrite lookup_insert_ne by done.
  rewrite lookup_insert_ne by (intros Heq; apply Hs, Hsub; by rewrite Heq).
  unfold h1.
  rewrite !lookup_insert_ne; [done | |]; intros Heq; apply Hv; by rewrite Heq.
Qed.

End OneSegment.

(** ** An invalid [init] *)

Section InvalidInit.
Context {G : Type} `{RandPerm G}.

(** The static method raises on an invalid [init] and assigns to no tensor
    object that existed before the call. *)
Lemma hardcode_invalid_init (l : loc) (ctxT : tensor) (init : string)
  (h : gmap loc tensor) (g : G) :
  init <> "overlapping" -> init <> "non_overlapping" ->
  exists e h',
    _hardcode_dendritic_weights l ctxT init (World h g) = (Raise e, World h' g) /\
    forall l' t, h !! l' = Some t -> h' !! l' = Some t.
Proof.
  intros Hov Hnon.
  apply String.eqb_neq in Hov, Hnon.
  unfold _hardcode_dendritic_weights.
  unfold bind at 1. unfold load at 1. cbn [heap rng].
  destruct (h !! l) as [t |] eqn:Hl.
  2:{ eexists _, h. split; [reflexivity | done]. }
  destruct t as [U D rows | U S D w].
  - unfold bind at 1. unfold bind at 1. unfold new_object at 1.
    cbn [heap rng unsqueeze1 ret].
    unfold bind at 1. unfold load at 1. cbn [heap rng].
    rewrite lookup_insert_eq.
    unfold bind at 1. unfold lift_result at 1. cbn [size3].
    unfold bind at 1. unfold lift_result at 1.
    assert (Hfr : forall l' t, h !! l' = Some t ->
              <[fresh (dom h) := Tensor3 U 1 D (map (fun r => [r]) rows)]> h !! l'
              = Some t).
    { intros l' t Ht. rewrite lookup_insert_ne; [done |].
      intros Heq. apply (is_fresh (dom h)). rewrite Heq.
      apply elem_of_dom. by exists t. }
    destruct ctxT as [C W ctx | ? ? ? ?]; cbn [size2].
    + unfold bind at 1. rewrite Hov, Hnon. unfold raise.
      eexists _, _. split; [reflexivity | exact Hfr].
    + eexists _, _. split; [reflexivity | exact Hfr].
  - unfold bind at 1. unfold ret at 1.
    unfold bind at 1. unfold load at 1. cbn [heap rng]. rewrite Hl.
    unfold bind at 1. unfold lift_result at 1. cbn [size3].
    unfold bind at 1. unfold lift_result at 1.
    destruct ctxT as [C W ctx | ? ? ? ?]; cbn [size2].
    + unfold bind at 1. rewrite Hov, Hnon. unfold raise.
      eexists _, h. split; [reflexivity | done].
    + eexists _, h. split; [reflexivity | done].
Qed.

(** C5. For an [init] other than "overlapping" and "non_overlapping",
    [hardcode_dendritic_weights] raises when [self.num_segments > 0] and
    the network has a hidden layer, and every tensor object that existed
    before the call, so the weights of every hidden layer, is unchanged,
    as is the generator; when [self.num_segments == 0] the call returns
    normally and changes nothing, whatever [init] is. *)
Theorem invalid_init_raises_before_assignment {Layer : Type}
  (weights : Layer -> loc) (self : DendriticMLP.t Layer)
  (context_vectors : tensor) (init : string)
  (h : gmap loc tensor) (g : G) :
  (init <> "overlapping" -> init <> "non_overlapping" ->
   (0 < DendriticMLP.num_segments self)%Z ->
   DendriticMLP._layers self <> [] ->
   exists e h',
     DendriticMLP.hardcode_dendritic_weights weights self context_vectors init
       (World h g)
     = (Raise e, World h' g) /\
     (forall l t, h !! l = Some t -> h' !! l = Some t) /\
     (forall dendrite t,
        dendrite ∈ DendriticMLP._layers self ->
        h !! weights dendrite = Some t -> h' !! weights dendrite = Some t)) /\
  (DendriticMLP.num_segments self = 0%Z ->
   DendriticMLP.hardcode_dendritic_weights weights self context_vectors init
     (World h g)
   = (Ok tt, World h g)).
Proof.
  split.
  - intros Hov Hnon Hseg Hlayers.
    unfold DendriticMLP.hardcode_dendritic_weights.
    apply Z.ltb_lt in Hseg. rewrite Hseg.
    destruct (DendriticMLP._layers self) as [| d rest]; [done |].
    destruct (hardcode_invalid_init (weights d) context_vectors init h g Hov Hnon)
      as (e & h' & Hrun & Hframe).
    exists e, h'. simpl. rewrite (bind_raise _ _ _ _ _ Hrun).
    split; [done |]. split; [done |].
    intros dendrite t _ Ht. by apply Hframe.
  - intros Hzero. unfold DendriticMLP.hardcode_dendritic_weights.
    by rewrite Hzero.
Qed.

End InvalidInit.

(** ** [forward] *)

Section ForwardSpec.
Context {Layer X Ctx : Type}.
Variable layer_forward : Layer -> X -> option Ctx -> X.
Variable activation_forward : activation -> X -> X.
Variable head_forward : OutputLayer -> X -> X.


Lemma hidden_loop_run (context : option Ctx)
  (pairs : list (Layer * activation)) (x : X)
  (tr : list (@DendriticMLP.call Layer X Ctx)) :
  for_loop
    (fun x '(layer, activation) =>
       let! y := DendriticMLP.call_layer layer_forward layer x context in
       DendriticMLP.call_activation activation_forward activation y)
    pairs x tr
  = (Ok (hidden_pass layer_forward activation_forward context pairs x), tr ++ hidden_calls layer_forward activation_forward context pairs x).
Proof.
  revert x tr. induction pairs as [| [l a] pairs IH]; intros x tr.
  - simpl. unfold ret. by rewrite app_nil_r.
  - cbn [for_loop]. unfold bind at 1. unfold bind at 1.
    unfold DendriticMLP.call_layer at 1.
    unfold DendriticMLP.call_activation at 1.
    rewrite IH. unfold hidden_pass. simpl.
    by rewrite <- !app_assoc.
Qed.

Lemma call_heads_run (heads : list OutputLayer) (x : X)
  (tr : list (@DendriticMLP.call Layer X Ctx)) :
  DendriticMLP.call_heads head_forward heads x tr
  = (Ok (map (fun head => head_forward head x) heads),
     tr ++ map (fun head => DendriticMLP.CallHead head x) heads).
Proof.
  revert tr. induction heads as [| head heads IH]; intros tr.
  - simpl. unfold ret. by rewrite app_nil_r.
  - cbn [DendriticMLP.call_heads]. unfold bind at 1.
    unfold DendriticMLP.call_head at 1.
    unfold bind at 1. rewrite IH. unfold ret. simpl.
    by rewrite <- app_assoc.
Qed.

Lemma called_layers_hidden (context : option Ctx)
  (pairs : list (Layer * activation)) (x : X) :
  called_layers (hidden_calls layer_forward activation_forward context pairs x)
  = map (fun p => (p.1, context)) pairs.
Proof.
  revert x. induction pairs as [| p pairs IH]; intros x; [done |].
  simpl. unfold called_layers in *. simpl. by rewrite IH.
Qed.

Lemma map_fst_zip {A B} (l : list A) (k : list B) :
  length l = length k -> map fst (zip l k) = l.
Proof.
  revert k. induction l as [| a l IH]; intros [| b k] Hlen; try done.
  simpl. rewrite IH; [done |]. simpl in Hlen. lia.
Qed.

(** C6. With [num_segments != 0], [forward] with [context == None] raises
    an AssertionError and calls no module. With a context it calls, for
    every (layer, activation) pair in order, the layer on the current
    value and that same context and then the activation, and after the
    pairs the output head, or all the output heads, on the last value;
    when there are as many activations as layers the layers called are
    exactly [self._layers]. *)
Theorem forward_threads_context (self : DendriticMLP.t Layer) (x : X)
  (tr : list (@DendriticMLP.call Layer X Ctx)) :
  (DendriticMLP.num_segments self <> 0%Z ->
   DendriticMLP.forward layer_forward activation_forward head_forward
     self x None tr
   = (Raise AssertionError, tr)) /\
  (forall c : Ctx,
     let pairs := zip (DendriticMLP._layers self) (DendriticMLP._activations self) in
     let y := hidden_pass layer_forward activation_forward (Some c) pairs x in
     let calls := hidden_calls layer_forward activation_forward (Some c) pairs x in
     DendriticMLP.forward layer_forward activation_forward head_forward
       self x (Some c) tr
     = (if DendriticMLP._single_output_head self then
          match DendriticMLP._output_layers self !! 0 with
          | Some head =>
              (Ok (DendriticMLP.Single (head_forward head y)),
               tr ++ calls ++ [DendriticMLP.CallHead head y])
          | None => (Raise IndexError, tr ++ calls)
          end
        else
          (Ok (DendriticMLP.Multi
                 (map (fun head => head_forward head y)
                    (DendriticMLP._output_layers self))),
           tr ++ calls
              ++ map (fun head => DendriticMLP.CallHead head y)
                   (DendriticMLP._output_layers self))) /\
     called_layers calls = map (fun p => (p.1, Some c)) pairs /\
     (length (DendriticMLP._layers self) = length (DendriticMLP._activations self) ->
      map fst (called_layers calls) = DendriticMLP._layers self)).
Proof.
  split.
  - intros Hseg. unfold DendriticMLP.forward.
    apply Z.eqb_neq in Hseg. rewrite Hseg. reflexivity.
  - intros c pairs y calls. split; [| split].
    + unfold DendriticMLP.forward. cbn [orb assert_].
      unfold bind at 1. unfold lift_result at 1.
      unfold bind at 1. rewrite hidden_loop_run. fold pairs y calls.
      destruct (DendriticMLP._single_output_head self).
      * destruct (DendriticMLP._output_layers self !! 0) as [head |]; [| done].
        unfold bind, DendriticMLP.call_head, ret. by rewrite <- app_assoc.
      * unfold bind at 1. rewrite call_heads_run. unfold ret.
        by rewrite <- app_assoc.
    + apply called_layers_hidden.
    + intros Hlen. unfold calls. rewrite called_layers_hidden.
      rewrite map_map. simpl. by apply map_fst_zip.
Qed.

End ForwardSpec.

(** ** [__init__] *)

Lemma for_result_invariant {A B} (body : B -> A -> result B)
  (I : list A -> B -> Prop) (xs : list A) (acc res : B) :
  for_result body xs acc = Ok res ->
  I [] acc ->
  (forall pre x post acc acc',
      xs = pre ++ x :: post -> I pre acc -> body acc x = Ok acc' ->
      I (pre ++ [x]) acc') ->
  I xs res.
Proof.
  intros Hrun Hinit Hstep.
  assert (Hgen : forall rest pre acc,
             xs = pre ++ rest -> I pre acc ->
             for_result body rest acc = Ok res -> I xs res).
  { induction rest as [| x rest IH]; intros pre acc0 Hxs Hpre Hr.
    - rewrite app_nil_r in Hxs. subst pre. simpl in Hr. by injection Hr as <-.
    - simpl in Hr. destruct (body acc0 x) as [acc1 |] eqn:Hb; [| done].
      simpl in Hr. apply (IH (pre ++ [x]) acc1); [| | done].
      + by rewrite <- app_assoc.
      + by eapply Hstep. }
  by apply (Hgen xs [] acc).
Qed.


Section InitSpec.
Variable class_parameters : layer_class -> Linear -> Z -> nat -> list (string * bool).


Lemma freeze_segments_frozen (params : list (string * bool)) :
  Forall2 frozen params
    (map (fun '(name, requires_grad) =>
            if contains "segments" name then (name, false)
            else (name, requires_grad)) params).
Proof.
  induction params as [| [name rg] params IH]; simpl; [constructor |].
  constructor; [| exact IH].
  unfold frozen. destruct (contains "segments" name) eqn:Hc; simpl;
    rewrite Hc; by repeat split.
Qed.

Lemma hidden_layer_step_built
  (hidden_sizes : list nat) (num_segments : Z) (dim_context : nat)
  (kw : bool) (kw_percent_on : option Q) (context_percent_on : Q)
  (weight_sparsity dendrite_sparsity : Q) (weight_init dendrite_init : string)
  (freeze_dendrites : bool) (classes : list layer_class)
  (st st' : DendriticMLP.hidden_state) (i : nat) :
  DendriticMLP.hidden_layer_step class_parameters hidden_sizes num_segments
    dim_context kw kw_percent_on context_percent_on weight_sparsity
    dendrite_sparsity weight_init dendrite_init freeze_dendrites classes st i
  = Ok st' ->
  exists layer n,
    hidden_sizes !! i = Some n /\
    layer_built class_parameters num_segments dim_context weight_sparsity dendrite_sparsity
      freeze_dendrites layer /\
    DendriticMLP.cur_layers st' = DendriticMLP.cur_layers st ++ [layer] /\
    DendriticMLP.cur_activations st'
    = DendriticMLP.cur_activations st
      ++ [if kw then KWinners n kw_percent_on 1 0 0 else ReLU].
Proof.
  unfold DendriticMLP.hidden_layer_step. intros Hstep.
  destruct (classes !! i) as [cls |]; [| done].
  destruct (hidden_sizes !! i) as [n |]; [| done].
  cbn [rbind] in Hstep.
  match type of Hstep with
  | rbind ?r _ = _ => destruct r as [layer0 |] eqn:Hinit; [| done]
  end.
  cbn [rbind] in Hstep. injection Hstep as <-.
  eexists _, n. split; [done |]. split; [| split; reflexivity].
  assert (Hl0 : layer_built class_parameters num_segments dim_context weight_sparsity
                  dendrite_sparsity false layer0).
  { destruct (String.eqb weight_init "modified").
    - destruct (decide (i = 0)).
      + injection Hinit as <-. by repeat split.
      + destruct (DendriticMLP.kw_input_sparsity kw kw_percent_on); [| done].
        injection Hinit as <-. by repeat split.
    - injection Hinit as <-. by repeat split. }
  destruct Hl0 as (H1 & H2 & H3 & H4 & H5). cbv zeta in H5.
  assert (Hl1 : layer_built class_parameters num_segments dim_context weight_sparsity
                  dendrite_sparsity false
                  (if String.eqb dendrite_init "modified"
                   then DendriticMLP._init_sparse_dendrites layer0
                          (1 - context_percent_on)%Q
                   else layer0)).
  { destruct (String.eqb dendrite_init "modified"); by repeat split. }
  destruct Hl1 as (K1 & K2 & K3 & K4 & K5). cbv zeta in K5.
  destruct freeze_dendrites; [| by repeat split].
  repeat split; try done. cbv zeta. cbn [DendriticMLP.freeze_segments
    layer_class_of module named_parameters].
  rewrite <- K5. apply freeze_segments_frozen.
Qed.

(** The loop over the hidden layers, when it completes. *)
Lemma hidden_layers_built
  (hidden_sizes : list nat) (num_segments : Z) (dim_context : nat)
  (kw : bool) (kw_percent_on : option Q) (context_percent_on : Q)
  (weight_sparsity dendrite_sparsity : Q) (weight_init dendrite_init : string)
  (freeze_dendrites : bool) (classes : list layer_class)
  (input_size : nat) (hidden : DendriticMLP.hidden_state) :
  for_result
    (DendriticMLP.hidden_layer_step class_parameters hidden_sizes num_segments
       dim_context kw kw_percent_on context_percent_on weight_sparsity
       dendrite_sparsity weight_init dendrite_init freeze_dendrites classes)
    (seq 0 (length hidden_sizes))
    {| DendriticMLP.cur_input_size := input_size;
       DendriticMLP.cur_layers := [];
       DendriticMLP.cur_activations := [] |}
  = Ok hidden ->
  length (DendriticMLP.cur_layers hidden) = length hidden_sizes /\
  Forall (layer_built class_parameters num_segments dim_context weight_sparsity
            dendrite_sparsity freeze_dendrites)
    (DendriticMLP.cur_layers hidden) /\
  DendriticMLP.cur_activations hidden
  = map (fun n => if kw then KWinners n kw_percent_on 1 0 0 else ReLU)
      hidden_sizes.
Proof.
  intros Hrun.
  pose (I := fun (pre : list nat) (st : DendriticMLP.hidden_state) =>
    length (DendriticMLP.cur_layers st) = length pre /\
    Forall (layer_built class_parameters num_segments dim_context weight_sparsity
              dendrite_sparsity freeze_dendrites)
      (DendriticMLP.cur_layers st) /\
    DendriticMLP.cur_activations st
    = map (fun n => if kw then KWinners n kw_percent_on 1 0 0 else ReLU)
        (take (length pre) hidden_sizes)).
  assert (HI : I (seq 0 (length hidden_sizes)) hidden).
  { eapply (for_result_invariant _ I); [exact Hrun | |].
    - by repeat split.
    - intros pre i post st st' Hsplit (Hlen & Hall & Hacts) Hstep.
      apply seq_split_at in Hsplit as (Hpre & Hi & _).
      assert (Hlp : length pre = i) by (by rewrite Hpre, length_seq).
      apply hidden_layer_step_built in Hstep
        as (layer & n & Hn & Hbuilt & Hlayers & Hact).
      split; [| split].
      + rewrite Hlayers, !length_app. simpl. lia.
      + rewrite Hlayers. apply Forall_app. split; [done | by constructor].
      + rewrite Hact, Hacts, length_app, Hlp. simpl.
        rewrite Nat.add_1_r, (take_S_r _ _ _ Hn), map_app. reflexivity. }
  destruct HI as (Hlen & Hall & Hacts).
  rewrite length_seq in Hlen, Hacts. rewrite firstn_all in Hacts.
  by repeat split.
Qed.

End InitSpec.

Section Constructed.
Variable class_parameters : layer_class -> Linear -> Z -> nat -> list (string * bool).
Variables (input_size : nat) (output_size : size_arg) (hidden_sizes : list nat).
Variables (num_segments : Z) (dim_context : nat) (kw : bool).
Variables (kw_percent_on : option Q) (context_percent_on : Q).
Variables (dendrite_weight_sparsity weight_sparsity : Q).
Variables (weight_init dendrite_init : string) (freeze_dendrites : bool).
Variables (output_nonlinearity : option string).
Variable dendritic_layer_class : layer_class_arg.
Variable self : DendriticMLP.t DendriticLayer.

Hypothesis constructed :
  DendriticMLP.__init__ class_parameters input_size output_size hidden_sizes
    num_segments dim_context kw kw_percent_on context_percent_on
    dendrite_weight_sparsity weight_sparsity weight_init dendrite_init
    freeze_dendrites output_nonlinearity dendritic_layer_class
  = Ok self.


(** What a completed construction tells. *)
Lemma init_inversion :
  (dendrite_init = "kaiming" \/ dendrite_init = "modified") /\
  DendriticMLP.hardcode_dendrites self = String.eqb dendrite_init "hardcoded" /\
  DendriticMLP.kw self = (effective_kw kw_percent_on kw) /\
  DendriticMLP.kw_percent_on self = kw_percent_on /\
  DendriticMLP.hidden_sizes self = hidden_sizes /\
  DendriticMLP.dendrite_weight_sparsity self = dendrite_weight_sparsity /\
  length (DendriticMLP._layers self) = length hidden_sizes /\
  Forall (layer_built class_parameters num_segments dim_context weight_sparsity
            (if String.eqb dendrite_init "hardcoded" then 0%Q
             else dendrite_weight_sparsity)
            freeze_dendrites)
    (DendriticMLP._layers self) /\
  DendriticMLP._activations self
  = map (fun n => if (effective_kw kw_percent_on kw) then KWinners n kw_percent_on 1 0 0 else ReLU)
      hidden_sizes.
Proof.
  pose proof constructed as Hc. unfold DendriticMLP.__init__ in Hc.
  destruct (String.eqb weight_init "kaiming" || String.eqb weight_init "modified");
    [| done].
  cbn [assert_ rbind] in Hc.
  destruct (String.eqb dendrite_init "kaiming" || String.eqb dendrite_init "modified")
    eqn:Hdi; [| done].
  cbn [assert_ rbind] in Hc.
  match type of Hc with
  | rbind (assert_ ?b) _ = _ => destruct b; [| done]
  end.
  cbn [assert_ rbind] in Hc.
  destruct (Qle_bool 0 context_percent_on); [| done].
  cbn [assert_ rbind] in Hc.
  fold (effective_kw kw_percent_on kw) in Hc.
  match type of Hc with
  | rbind ?r _ = _ => destruct r as [hidden |] eqn:Hhidden; [| done]
  end.
  cbn [rbind] in Hc.
  match type of Hc with
  | rbind ?r _ = _ => destruct r as [heads |] eqn:Hheads; [| done]
  end.
  cbn [rbind] in Hc. injection Hc as <-.
  apply hidden_layers_built in Hhidden as (Hlen & Hall & Hacts).
  cbn [DendriticMLP.hardcode_dendrites DendriticMLP.kw
       DendriticMLP.kw_percent_on DendriticMLP.hidden_sizes
       DendriticMLP.dendrite_weight_sparsity DendriticMLP._layers
       DendriticMLP._activations].
  split; [| by repeat split].
  apply orb_true_iff in Hdi as [Hk | Hm]; [left | right];
    by apply String.eqb_eq.
Qed.

(** A constructed network has one activation per layer, and exactly one
    output head when [output_size] is an integer. *)
Lemma init_forward_shape :
  length (DendriticMLP._layers self) = length (DendriticMLP._activations self) /\
  (DendriticMLP._single_output_head self = true ->
   exists head, DendriticMLP._output_layers self = [head]).
Proof.
  destruct init_inversion as (_ & _ & _ & _ & _ & _ & Hlen & _ & Hacts).
  split; [by rewrite Hlen, Hacts, length_map |].
  pose proof constructed as Hc. unfold DendriticMLP.__init__ in Hc.
  repeat match type of Hc with
  | rbind (assert_ ?b) _ = _ => destruct b; [cbn [assert_ rbind] in Hc | done]
  end.
  match type of Hc with
  | rbind ?r _ = _ => destruct r as [hidden |]; [| done]
  end.
  cbn [rbind] in Hc.
  match type of Hc with
  | rbind ?r _ = _ => destruct r as [heads |] eqn:Hheads; [| done]
  end.
  cbn [rbind] in Hc. injection Hc as <-.
  cbn [DendriticMLP._single_output_head DendriticMLP._output_layers].
  destruct output_size as [n | ns]; [| done].
  intros _. cbn [for_result] in Hheads.
  unfold DendriticMLP.output_layer_step in Hheads.
  match type of Hheads with
  | rbind (rbind ?r _) _ = _ => destruct r as [calls |]; [| done]
  end.
  cbn [rbind app] in Hheads. injection Hheads as <-. by eexists.
Qed.

End Constructed.

(** C7. After a construction with [freeze_dendrites == True], in every
    hidden layer the parameters are those the layer class gave it, with
    the same names in the same order; each one whose name contains
    "segments" has [requires_grad == False], and each other one has the
    flag it had. *)
Theorem frozen_dendrites_only_segments
  (class_parameters : layer_class -> Linear -> Z -> nat -> list (string * bool))
  (input_size : nat) (output_size : size_arg) (hidden_sizes : list nat)
  (num_segments : Z) (dim_context : nat) (kw : bool)
  (kw_percent_on : option Q) (context_percent_on : Q)
  (dendrite_weight_sparsity weight_sparsity : Q)
  (weight_init dendrite_init : string) (freeze_dendrites : bool)
  (output_nonlinearity : option string)
  (dendritic_layer_class : layer_class_arg)
  (self : DendriticMLP.t DendriticLayer) :
  DendriticMLP.__init__ class_parameters input_size output_size hidden_sizes
    num_segments dim_context kw kw_percent_on context_percent_on
    dendrite_weight_sparsity weight_sparsity weight_init dendrite_init
    freeze_dendrites output_nonlinearity dendritic_layer_class
  = Ok self ->
  freeze_dendrites = true ->
  forall layer,
    layer ∈ DendriticMLP._layers self ->
    Forall2
      (fun before after =>
         after.1 = before.1 /\
         (contains "segments" before.1 = true -> after.2 = false) /\
         (contains "segments" before.1 = false -> after.2 = before.2))
      (class_parameters (layer_class_of layer) (module layer)
         num_segments dim_context)
      (named_parameters layer).
Proof.
  intros Hinit Hfreeze layer Hin.
  destruct (init_inversion _ _ _ _ _ _ _ _ _ _ _ _ _ _ _ _ _ Hinit)
    as (_ & _ & _ & _ & _ & _ & _ & Hall & _).
  rewrite Forall_forall in Hall.
  destruct (Hall layer Hin) as (_ & _ & _ & _ & Hparams).
  cbv zeta in Hparams. by rewrite Hfreeze in Hparams.
Qed.

(** C8. A constructed DendriticMLP has [hardcode_dendrites == False], and
    every hidden layer was given [dendrite_sparsity =
    dendrite_weight_sparsity]. *)
Theorem hardcode_dendrites_is_false
  (class_parameters : layer_class -> Linear -> Z -> nat -> list (string * bool))
  (input_size : nat) (output_size : size_arg) (hidden_sizes : list nat)
  (num_segments : Z) (dim_context : nat) (kw : bool)
  (kw_percent_on : option Q) (context_percent_on : Q)
  (dendrite_weight_sparsity weight_sparsity : Q)
  (weight_init dendrite_init : string) (freeze_dendrites : bool)
  (output_nonlinearity : option string)
  (dendritic_layer_class : layer_class_arg)
  (self : DendriticMLP.t DendriticLayer) :
  DendriticMLP.__init__ class_parameters input_size output_size hidden_sizes
    num_segments dim_context kw kw_percent_on context_percent_on
    dendrite_weight_sparsity weight_sparsity weight_init dendrite_init
    freeze_dendrites output_nonlinearity dendritic_layer_class
  = Ok self ->
  DendriticMLP.hardcode_dendrites self = false /\
  forall layer,
    layer ∈ DendriticMLP._layers self ->
    dendrite_sparsity layer = dendrite_weight_sparsity /\
    dendrite_sparsity layer = DendriticMLP.dendrite_weight_sparsity self.
Proof.
  intros Hinit.
  destruct (init_inversion _ _ _ _ _ _ _ _ _ _ _ _ _ _ _ _ _ Hinit)
    as (Hdi & Hhard & _ & _ & _ & Hdws & _ & Hall & _).
  assert (Hne : String.eqb dendrite_init "hardcoded" = false).
  { by destruct Hdi as [-> | ->]. }
  rewrite Hne in Hhard, Hall. split; [done |].
  intros layer Hin. rewrite Forall_forall in Hall.
  destruct (Hall layer Hin) as (_ & _ & _ & Hds & _).
  by rewrite Hdws.
Qed.

(** C9. If [kw_percent_on == 0.0] then [self.kw] is False, whatever [kw]
    was, and every hidden-layer activation is [nn.ReLU]; and whenever
    [self.kw] is True, the activation of hidden layer [i] is
    [KWinners(n=hidden_sizes[i], percent_on=kw_percent_on,
    k_inference_factor=1.0, boost_strength=0.0,
    boost_strength_factor=0.0)]. There is one activation per hidden
    layer. *)
Theorem activations_follow_kw
  (class_parameters : layer_class -> Linear -> Z -> nat -> list (string * bool))
  (input_size : nat) (output_size : size_arg) (hidden_sizes : list nat)
  (num_segments : Z) (dim_context : nat) (kw : bool)
  (kw_percent_on : option Q) (context_percent_on : Q)
  (dendrite_weight_sparsity weight_sparsity : Q)
  (weight_init dendrite_init : string) (freeze_dendrites : bool)
  (output_nonlinearity : option string)
  (dendritic_layer_class : layer_class_arg)
  (self : DendriticMLP.t DendriticLayer) :
  DendriticMLP.__init__ class_parameters input_size output_size hidden_sizes
    num_segments dim_context kw kw_percent_on context_percent_on
    dendrite_weight_sparsity weight_sparsity weight_init dendrite_init
    freeze_dendrites output_nonlinearity dendritic_layer_class
  = Ok self ->
  length (DendriticMLP._activations self) = length hidden_sizes /\
  (forall p, kw_percent_on = Some p -> (p == 0)%Q ->
     DendriticMLP.kw self = false /\
     Forall (fun a => a = ReLU) (DendriticMLP._activations self)) /\
  (DendriticMLP.kw self = true ->
   forall i a,
     DendriticMLP._activations self !! i = Some a ->
     exists n,
       hidden_sizes !! i = Some n /\
       a = KWinners n kw_percent_on 1 0 0).
Proof.
  intros Hinit.
  destruct (init_inversion _ _ _ _ _ _ _ _ _ _ _ _ _ _ _ _ _ Hinit)
    as (_ & _ & Hkw & _ & _ & _ & _ & _ & Hacts).
  split; [| split].
  - by rewrite Hacts, length_map.
  - intros p Hp Hzero.
    assert (Heff : effective_kw kw_percent_on kw = false).
    { unfold effective_kw. rewrite Hp.
      apply Qeq_bool_iff in Hzero. by rewrite Hzero. }
    rewrite Hkw, Hacts, Heff. split; [done |].
    apply Forall_forall. intros a Ha.
    by apply list_elem_of_In, in_map_iff in Ha as (n & <- & _).
  - intros Htrue i a Hi. rewrite Hkw in Htrue.
    rewrite Hacts, Htrue in Hi.
    apply list_lookup_fmap_Some in Hi as (n & -> & Hn). by exists n.
Qed.

(** ** More of [__init__]: what the loops build *)

Section InitLoops.
Variable class_parameters : layer_class -> Linear -> Z -> nat -> list (string * bool).

(** One iteration of the loop over the hidden layers, in detail. *)
Lemma hidden_layer_step_detail
  (hidden_sizes : list nat) (num_segments : Z) (dim_context : nat)
  (kw : bool) (kw_percent_on : option Q) (context_percent_on : Q)
  (weight_sparsity dendrite_sparsity_arg : Q) (weight_init dendrite_init : string)
  (freeze_dendrites : bool) (classes : list layer_class)
  (st st' : DendriticMLP.hidden_state) (i : nat) :
  DendriticMLP.hidden_layer_step class_parameters hidden_sizes num_segments
    dim_context kw kw_percent_on context_percent_on weight_sparsity
    dendrite_sparsity_arg weight_init dendrite_init freeze_dendrites classes st i
  = Ok st' ->
  exists cls n layer,
    classes !! i = Some cls /\
    hidden_sizes !! i = Some n /\
    DendriticMLP.cur_layers st' = DendriticMLP.cur_layers st ++ [layer] /\
    DendriticMLP.cur_input_size st' = n /\
    layer_class_of layer = cls /\
    module layer
    = {| in_features := DendriticMLP.cur_input_size st;
         out_features := n; bias := true |} /\
    exists weight_calls,
      layer_init_calls layer
      = weight_calls
        ++ (if String.eqb dendrite_init "modified"
            then [InitSparseDendrites (1 - context_percent_on)%Q] else []) /\
      (if String.eqb weight_init "modified"
       then exists s,
              weight_calls = [InitSparseWeights s] /\
              (if decide (i = 0) then s = 0%Q
               else DendriticMLP.kw_input_sparsity kw kw_percent_on = Ok s)
       else weight_calls = []).
Proof.
  unfold DendriticMLP.hidden_layer_step. intros Hstep.
  destruct (classes !! i) as [cls |]; [| done].
  destruct (hidden_sizes !! i) as [n |]; [| done].
  cbn [rbind] in Hstep.
  match type of Hstep with
  | rbind ?r _ = _ => destruct r as [layer0 |] eqn:Hinit; [| done]
  end.
  cbn [rbind] in Hstep. injection Hstep as <-.
  exists cls, n. eexists. split; [done |]. split; [done |].
  split; [reflexivity |]. split; [reflexivity |].
  assert (H0 : layer_class_of layer0 = cls /\
               module layer0
               = {| in_features := DendriticMLP.cur_input_size st;
                    out_features := n; bias := true |} /\
               exists weight_calls,
                 layer_init_calls layer0 = weight_calls /\
                 (if String.eqb weight_init "modified"
                  then exists s,
                         weight_calls = [InitSparseWeights s] /\
                         (if decide (i = 0) then s = 0%Q
                          else DendriticMLP.kw_input_sparsity kw kw_percent_on = Ok s)
                  else weight_calls = [])).
  { destruct (String.eqb weight_init "modified").
    - destruct (decide (i = 0)) as [Hi | Hi].
      + injection Hinit as <-. repeat split. eexists. split; [reflexivity |].
        exists 0%Q. by split.
      + destruct (DendriticMLP.kw_input_sparsity kw kw_percent_on) as [s |];
          [| done].
        injection Hinit as <-. repeat split. eexists. split; [reflexivity |].
        exists s. by split.
    - injection Hinit as <-. repeat split. by eexists. }
  destruct H0 as (Hcls & Hmod & calls & Hcalls & Hw).
  destruct (String.eqb dendrite_init "modified"), freeze_dendrites;
    cbn [DendriticMLP.freeze_segments DendriticMLP._init_sparse_dendrites
         layer_class_of module layer_init_calls];
    (split; [exact Hcls |]); (split; [exact Hmod |]);
    exists calls; rewrite Hcalls, ?app_nil_r; by split.
Qed.

(** The loop over the hidden layers, when it completes: layer [i] has the
    class at position [i], maps the previous size to [hidden_sizes[i]], and
    was initialised as [weight_init] and [dendrite_init] say. *)
Lemma hidden_layers_detail
  (hidden_sizes : list nat) (num_segments : Z) (dim_context : nat)
  (kw : bool) (kw_percent_on : option Q) (context_percent_on : Q)
  (weight_sparsity dendrite_sparsity_arg : Q) (weight_init dendrite_init : string)
  (freeze_dendrites : bool) (classes : list layer_class)
  (input_size : nat) (hidden : DendriticMLP.hidden_state) :
  for_result
    (DendriticMLP.hidden_layer_step class_parameters hidden_sizes num_segments
       dim_context kw kw_percent_on context_percent_on weight_sparsity
       dendrite_sparsity_arg weight_init dendrite_init freeze_dendrites classes)
    (seq 0 (length hidden_sizes))
    {| DendriticMLP.cur_input_size := input_size;
       DendriticMLP.cur_layers := [];
       DendriticMLP.cur_activations := [] |}
  = Ok hidden ->
  DendriticMLP.cur_input_size hidden = List.last hidden_sizes input_size /\
  forall i layer,
    DendriticMLP.cur_layers hidden !! i = Some layer ->
    exists cls n,
      classes !! i = Some cls /\
      hidden_sizes !! i = Some n /\
      layer_class_of layer = cls /\
      module layer
      = {| in_features := List.last (take i hidden_sizes) input_size;
           out_features := n; bias := true |} /\
      exists weight_calls,
        layer_init_calls layer
        = weight_calls
          ++ (if String.eqb dendrite_init "modified"
              then [InitSparseDendrites (1 - context_percent_on)%Q] else []) /\
        (if String.eqb weight_init "modified"
         then exists s,
                weight_calls = [InitSparseWeights s] /\
                (if decide (i = 0) then s = 0%Q
                 else DendriticMLP.kw_input_sparsity kw kw_percent_on = Ok s)
         else weight_calls = []).
Proof.
  intros Hrun.
  pose (I := fun (pre : list nat) (st : DendriticMLP.hidden_state) =>
    length (DendriticMLP.cur_layers st) = length pre /\
    DendriticMLP.cur_input_size st
    = List.last (take (length pre) hidden_sizes) input_size /\
    forall i layer,
      DendriticMLP.cur_layers st !! i = Some layer ->
      exists cls n,
        classes !! i = Some cls /\
        hidden_sizes !! i = Some n /\
        layer_class_of layer = cls /\
        module layer
        = {| in_features := List.last (take i hidden_sizes) input_size;
             out_features := n; bias := true |} /\
        exists weight_calls,
          layer_init_calls layer
          = weight_calls
            ++ (if String.eqb dendrite_init "modified"
                then [InitSparseDendrites (1 - context_percent_on)%Q] else []) /\
          (if String.eqb weight_init "modified"
           then exists s,
                  weight_calls = [InitSparseWeights s] /\
                  (if decide (i = 0) then s = 0%Q
                   else DendriticMLP.kw_input_sparsity kw kw_percent_on = Ok s)
           else weight_calls = [])).
  assert (HI : I (seq 0 (length hidden_sizes)) hidden).
  { eapply (for_result_invariant _ I); [exact Hrun | |].
    - split; [done |]. split; [done |]. intros i layer Hi. done.
    - intros pre i post st st' Hsplit (Hlen & Hin & Hall) Hstep.
      apply seq_split_at in Hsplit as (Hpre & Hi & _).
      assert (Hlp : length pre = i) by (by rewrite Hpre, length_seq).
      apply hidden_layer_step_detail in Hstep
        as (cls & n & layer & Hcls & Hn & Hlayers & Hsize & Hlc & Hmod & Hcalls).
      split; [| split].
      + rewrite Hlayers, !length_app. simpl. lia.
      + rewrite Hsize, length_app, Hlp. simpl.
        rewrite Nat.add_1_r, (take_S_r _ _ _ Hn), last_last. reflexivity.
      + intros j layer' Hj. rewrite Hlayers in Hj.
        apply lookup_app_Some in Hj as [Hj | [Hge Hj]]; [by apply Hall |].
        rewrite Hlen, Hlp in Hge, Hj.
        destruct (j - i) as [| ?] eqn:Hji; [| done].
        assert (j = i) as -> by lia.
        simpl in Hj. injection Hj as <-.
        exists cls, n. rewrite Hmod, Hin, Hlp. by repeat split. }
  destruct HI as (_ & Hin & Hall).
  rewrite length_seq, firstn_all in Hin. by split.
Qed.

(** The loop over the output sizes, when it completes. *)
Lemma output_layers_detail (input_size : nat) (kw : bool)
  (kw_percent_on : option Q) (weight_sparsity : Q) (weight_init : string)
  (output_nonlinearity : option string) (sizes : list nat)
  (heads : list OutputLayer) :
  for_result
    (DendriticMLP.output_layer_step input_size kw kw_percent_on weight_sparsity
       weight_init output_nonlinearity)
    sizes []
  = Ok heads ->
  Forall2
    (fun out_size head =>
       output_linear head
       = {| in_features := input_size; out_features := out_size; bias := true |} /\
       output_sparsity head = weight_sparsity /\
       allow_extremes head = true /\
       non_linearity head = output_nonlinearity /\
       (if String.eqb weight_init "modified"
        then exists s,
               DendriticMLP.kw_input_sparsity kw kw_percent_on = Ok s /\
               output_init_calls head = [InitSparseWeights s]
        else output_init_calls head = []))
    sizes heads.
Proof.
  intros Hrun.
  pose (P := fun (out_size : nat) (head : OutputLayer) =>
       output_linear head
       = {| in_features := input_size; out_features := out_size; bias := true |} /\
       output_sparsity head = weight_sparsity /\
       allow_extremes head = true /\
       non_linearity head = output_nonlinearity /\
       (if String.eqb weight_init "modified"
        then exists s,
               DendriticMLP.kw_input_sparsity kw kw_percent_on = Ok s /\
               output_init_calls head = [InitSparseWeights s]
        else output_init_calls head = [])).
  assert (HI : Forall2 P sizes heads).
  { eapply (for_result_invariant _ (fun pre acc => Forall2 P pre acc));
      [exact Hrun | constructor |].
    intros pre n post acc acc' _ Hpre Hstep.
    unfold DendriticMLP.output_layer_step in Hstep.
    match type of Hstep with
    | rbind ?r _ = _ => destruct r as [calls |] eqn:Hcalls; [| done]
    end.
    cbn [rbind] in Hstep. injection Hstep as <-.
    apply Forall2_app; [done |]. constructor; [| constructor].
    unfold P. cbn [output_linear output_sparsity allow_extremes non_linearity
                   output_init_calls].
    repeat split.
    destruct (String.eqb weight_init "modified").
    - destruct (DendriticMLP.kw_input_sparsity kw kw_percent_on) as [s |];
        [| done].
      injection Hcalls as <-. by exists s.
    - by injection Hcalls as <-. }
  exact HI.
Qed.

End InitLoops.

Section InitMore.
Variable class_parameters : layer_class -> Linear -> Z -> nat -> list (string * bool).
Variables (input_size : nat) (output_size : size_arg) (hidden_sizes : list nat).
Variables (num_segments : Z) (dim_context : nat) (kw : bool).
Variables (kw_percent_on : option Q) (context_percent_on : Q).
Variables (dendrite_weight_sparsity weight_sparsity : Q).
Variables (weight_init dendrite_init : string) (freeze_dendrites : bool).
Variables (output_nonlinearity : option string).
Variable dendritic_layer_class : layer_class_arg.

(** A completed construction, taken apart: the assertions held, both loops
    completed, and the object is built from their results. *)
Lemma init_unfold (self : DendriticMLP.t DendriticLayer) :
  DendriticMLP.__init__ class_parameters input_size output_size hidden_sizes
    num_segments dim_context kw kw_percent_on context_percent_on
    dendrite_weight_sparsity weight_sparsity weight_init dendrite_init
    freeze_dendrites output_nonlinearity dendritic_layer_class
  = Ok self ->
  exists hidden heads,
    for_result
      (DendriticMLP.hidden_layer_step class_parameters hidden_sizes num_segments
         dim_context (effective_kw kw_percent_on kw) kw_percent_on
         context_percent_on weight_sparsity
         (if String.eqb dendrite_init "hardcoded" then 0%Q
          else dendrite_weight_sparsity)
         weight_init dendrite_init freeze_dendrites
         (layer_classes_used num_segments dendritic_layer_class hidden_sizes))
      (seq 0 (length hidden_sizes))
      {| DendriticMLP.cur_input_size := input_size;
         DendriticMLP.cur_layers := [];
         DendriticMLP.cur_activations := [] |}
    = Ok hidden /\
    for_result
      (DendriticMLP.output_layer_step (DendriticMLP.cur_input_size hidden)
         (effective_kw kw_percent_on kw) kw_percent_on weight_sparsity
         weight_init output_nonlinearity)
      (output_sizes_of output_size) []
    = Ok heads /\
    DendriticMLP._layers self = DendriticMLP.cur_layers hidden /\
    DendriticMLP._output_layers self = heads /\
    DendriticMLP._single_output_head self
    = match output_size with IntSize _ => true | IterSize _ => false end.
Proof.
  intros Hc. unfold DendriticMLP.__init__ in Hc.
  repeat match type of Hc with
  | rbind (assert_ ?b) _ = _ => destruct b; [cbn [assert_ rbind] in Hc | done]
  end.
  fold (effective_kw kw_percent_on kw) in Hc.
  fold (layer_classes_used num_segments dendritic_layer_class hidden_sizes) in Hc.
  fold (output_sizes_of output_size) in Hc.
  match type of Hc with
  | rbind ?r _ = _ => destruct r as [hidden |] eqn:Hhidden; [| done]
  end.
  cbn [rbind] in Hc.
  match type of Hc with
  | rbind ?r _ = _ => destruct r as [heads |] eqn:Hheads; [| done]
  end.
  cbn [rbind] in Hc. injection Hc as <-.
  exists hidden, heads. by repeat split.
Qed.

(** X1. The four assertions of the constructor: a construction that
    completes had [weight_init] and [dendrite_init] among "kaiming" and
    "modified", [kw_percent_on] None or in [0, 1), and
    [context_percent_on >= 0]; and whenever one of these fails the
    constructor raises AssertionError. *)
Theorem init_checks_its_arguments :
  (forall self,
     DendriticMLP.__init__ class_parameters input_size output_size hidden_sizes
       num_segments dim_context kw kw_percent_on context_percent_on
       dendrite_weight_sparsity weight_sparsity weight_init dendrite_init
       freeze_dendrites output_nonlinearity dendritic_layer_class
     = Ok self ->
     (weight_init = "kaiming" \/ weight_init = "modified") /\
     (dendrite_init = "kaiming" \/ dendrite_init = "modified") /\
     (forall p, kw_percent_on = Some p -> (0 <= p)%Q /\ (p < 1)%Q) /\
     (0 <= context_percent_on)%Q) /\
  ((weight_init <> "kaiming" /\ weight_init <> "modified") \/
   (dendrite_init <> "kaiming" /\ dendrite_init <> "modified") \/
   (exists p, kw_percent_on = Some p /\ ((p < 0)%Q \/ (1 <= p)%Q)) \/
   (context_percent_on < 0)%Q ->
   DendriticMLP.__init__ class_parameters input_size output_size hidden_sizes
     num_segments dim_context kw kw_percent_on context_percent_on
     dendrite_weight_sparsity weight_sparsity weight_init dendrite_init
     freeze_dendrites output_nonlinearity dendritic_layer_class
   = Raise AssertionError).
Proof.
  split.
  - intros self Hc. unfold DendriticMLP.__init__ in Hc.
    destruct (String.eqb weight_init "kaiming" || String.eqb weight_init "modified")
      eqn:Hwi; [| done].
    cbn [assert_ rbind] in Hc.
    destruct (String.eqb dendrite_init "kaiming" || String.eqb dendrite_init "modified")
      eqn:Hdi; [| done].
    cbn [assert_ rbind] in Hc.
    match type of Hc with
    | rbind (assert_ ?b) _ = _ => destruct b eqn:Hkw; [| done]
    end.
    cbn [assert_ rbind] in Hc.
    destruct (Qle_bool 0 context_percent_on) eqn:Hcpo; [| done].
    split; [| split; [| split]].
    + apply orb_true_iff in Hwi as [Hk | Hm]; [left | right];
        by apply String.eqb_eq.
    + apply orb_true_iff in Hdi as [Hk | Hm]; [left | right];
        by apply String.eqb_eq.
    + intros p ->. apply andb_true_iff in Hkw as [H0 H1].
      split; [by apply Qle_bool_iff |].
      apply Qnot_le_lt. intros Hle. apply Qle_bool_iff in Hle.
      by rewrite Hle in H1.
    + by apply Qle_bool_iff.
  - intros Hfail. unfold DendriticMLP.__init__.
    destruct (String.eqb weight_init "kaiming" || String.eqb weight_init "modified")
      eqn:Hwi; [| done].
    cbn [assert_ rbind].
    destruct (String.eqb dendrite_init "kaiming" || String.eqb dendrite_init "modified")
      eqn:Hdi; [| done].
    cbn [assert_ rbind].
    match goal with
    | |- rbind (assert_ ?b) _ = _ => destruct b eqn:Hkw; [| done]
    end.
    cbn [assert_ rbind].
    destruct (Qle_bool 0 context_percent_on) eqn:Hcpo; [| done].
    exfalso. destruct Hfail as [[H1 H2] | [[H1 H2] | [(p & -> & Hp) | Hlt]]].
    + apply orb_true_iff in Hwi as [Hk | Hm]; by apply String.eqb_eq in Hk || apply String.eqb_eq in Hm.
    + apply orb_true_iff in Hdi as [Hk | Hm]; by apply String.eqb_eq in Hk || apply String.eqb_eq in Hm.
    + apply andb_true_iff in Hkw as [H0 H1].
      apply Qle_bool_iff in H0. destruct Hp as [Hp | Hp].
      * exact (Qlt_not_le _ _ Hp H0).
      * apply Qle_bool_iff in Hp. by rewrite Hp in H1.
    + apply Qle_bool_iff in Hcpo. exact (Qlt_not_le _ _ Hlt Hcpo).
Qed.

(** X2. A list of layer classes shorter than [hidden_sizes] is only
    tolerated when [num_segments == 1] (the list is then ignored):
    otherwise the constructor never completes. *)
Theorem init_short_class_list_fails (cs : list layer_class) :
  dendritic_layer_class = ClassList cs ->
  length cs < length hidden_sizes ->
  num_segments <> 1%Z ->
  forall self,
    DendriticMLP.__init__ class_parameters input_size output_size hidden_sizes
    num_segments dim_context kw kw_percent_on context_percent_on
    dendrite_weight_sparsity weight_sparsity weight_init dendrite_init
    freeze_dendrites output_nonlinearity dendritic_layer_class
    <> Ok self.
Proof.
  intros Hcs Hshort Hseg self Hc.
  apply init_unfold in Hc as (hidden & heads & Hhidden & _ & _).
  pose proof Hhidden as Hlen.
  apply hidden_layers_built in Hlen as (Hlen & _ & _).
  apply hidden_layers_detail in Hhidden as (_ & Hdetail).
  destruct (lookup_lt_is_Some_2 (DendriticMLP.cur_layers hidden) (length cs))
    as [layer Hlayer]; [lia |].
  destruct (Hdetail _ _ Hlayer) as (cls & n & Hcls & _).
  unfold layer_classes_used in Hcls.
  apply Z.eqb_neq in Hseg. rewrite Hseg, Hcs in Hcls.
  apply lookup_lt_Some in Hcls. lia.
Qed.

(** X3. The class of each hidden layer of a constructed network: the
    one-segment class when [num_segments == 1], whatever was passed;
    otherwise the class passed, or the class at the layer's position in the
    list passed. *)
Theorem init_layer_classes (self : DendriticMLP.t DendriticLayer) :
  DendriticMLP.__init__ class_parameters input_size output_size hidden_sizes
    num_segments dim_context kw kw_percent_on context_percent_on
    dendrite_weight_sparsity weight_sparsity weight_init dendrite_init
    freeze_dendrites output_nonlinearity dendritic_layer_class
  = Ok self ->
  forall i layer,
    DendriticMLP._layers self !! i = Some layer ->
    (num_segments = 1%Z -> layer_class_of layer = OneSegmentDendriticLayer) /\
    (num_segments <> 1%Z ->
     match dendritic_layer_class with
     | OneClass c => layer_class_of layer = c
     | ClassList cs => cs !! i = Some (layer_class_of layer)
     end).
Proof.
  intros Hc i layer Hi.
  apply init_unfold in Hc as (hidden & heads & Hhidden & _ & Hlayers & _).
  apply hidden_layers_detail in Hhidden as (_ & Hdetail).
  rewrite Hlayers in Hi.
  destruct (Hdetail _ _ Hi) as (cls & n & Hcls & _ & <- & _).
  unfold layer_classes_used in Hcls. split.
  - intros ->. simpl in Hcls.
    apply list_lookup_fmap_Some in Hcls as (? & -> & _). done.
  - intros Hseg. apply Z.eqb_neq in Hseg. rewrite Hseg in Hcls.
    destruct dendritic_layer_class as [c | cs]; [| done].
    apply list_lookup_fmap_Some in Hcls as (? & -> & _). done.
Qed.

(** X4. The sizes chain through a constructed network: hidden layer [i]
    maps [input_size] (for [i = 0]) or [hidden_sizes[i-1]] to
    [hidden_sizes[i]], and every output head takes the last hidden size
    ([input_size] when there is no hidden layer). *)
Theorem init_sizes_chain (self : DendriticMLP.t DendriticLayer) :
  DendriticMLP.__init__ class_parameters input_size output_size hidden_sizes
    num_segments dim_context kw kw_percent_on context_percent_on
    dendrite_weight_sparsity weight_sparsity weight_init dendrite_init
    freeze_dendrites output_nonlinearity dendritic_layer_class
  = Ok self ->
  (forall i layer,
     DendriticMLP._layers self !! i = Some layer ->
     hidden_sizes !! i = Some (out_features (module layer)) /\
     bias (module layer) = true /\
     match i with
     | 0 => in_features (module layer) = input_size
     | S j => hidden_sizes !! j = Some (in_features (module layer))
     end) /\
  (forall head,
     head ∈ DendriticMLP._output_layers self ->
     in_features (output_linear head) = List.last hidden_sizes input_size).
Proof.
  intros Hc.
  apply init_unfold in Hc as (hidden & heads & Hhidden & Hheads & Hlayers & Hout & _).
  apply hidden_layers_detail in Hhidden as (Hlast & Hdetail).
  split.
  - intros i layer Hi. rewrite Hlayers in Hi.
    destruct (Hdetail _ _ Hi) as (cls & n & _ & Hn & _ & Hmod & _).
    rewrite Hmod. cbn [out_features bias in_features].
    split; [done |]. split; [done |].
    destruct i as [| j]; [done |].
    assert (Hj : j < length hidden_sizes).
    { apply lookup_lt_Some in Hn. lia. }
    destruct (lookup_lt_is_Some_2 hidden_sizes j Hj) as [m Hm].
    by rewrite (take_S_r _ _ _ Hm), last_last.
  - intros head Hin. rewrite Hout in Hin.
    apply output_layers_detail in Hheads.
    apply list_elem_of_lookup in Hin as [k Hk].
    destruct (Forall2_lookup_r _ _ _ _ _ Hheads Hk) as (n & _ & Hlin & _).
    by rewrite Hlin, Hlast.
Qed.

(** X5. The output heads of a constructed network mirror [output_size]:
    one head for an integer and one per element of an iterable, in order,
    each with that number of output units, sparsity [weight_sparsity],
    [allow_extremes=True] and the nonlinearity passed; and
    [_single_output_head] tells the two cases apart. *)
Theorem init_output_heads (self : DendriticMLP.t DendriticLayer) :
  DendriticMLP.__init__ class_parameters input_size output_size hidden_sizes
    num_segments dim_context kw kw_percent_on context_percent_on
    dendrite_weight_sparsity weight_sparsity weight_init dendrite_init
    freeze_dendrites output_nonlinearity dendritic_layer_class
  = Ok self ->
  DendriticMLP._single_output_head self
  = match output_size with IntSize _ => true | IterSize _ => false end /\
  map (fun head => out_features (output_linear head))
    (DendriticMLP._output_layers self)
  = match output_size with IntSize n => [n] | IterSize ns => ns end /\
  Forall
    (fun head =>
       output_sparsity head = weight_sparsity /\
       allow_extremes head = true /\
       non_linearity head = output_nonlinearity)
    (DendriticMLP._output_layers self).
Proof.
  intros Hc.
  apply init_unfold in Hc as (hidden & heads & _ & Hheads & _ & Hout & Hsingle).
  split; [done |]. rewrite Hout. clear Hout Hsingle.
  apply output_layers_detail in Hheads.
  fold (output_sizes_of output_size).
  induction Hheads as [| n head sizes heads' (Hlin & Hs & Ha & Hn & _) _ IH].
  - by split.
  - destruct IH as [IH1 IH2]. split.
    + simpl. by rewrite Hlin, IH1.
    + by constructor.
Qed.

(** X6. The initialiser calls of a constructed network. With
    [weight_init == "modified"], [_init_sparse_weights] is called once on
    every hidden layer and every output head, with input sparsity 0 on the
    first hidden layer and [1 - kw_percent_on if kw else 0] elsewhere, [kw]
    being the value after the [kw_percent_on == 0] override; with
    "kaiming" it is never called. With [dendrite_init == "modified"],
    [_init_sparse_dendrites] is called after it on every hidden layer,
    with [1 - context_percent_on]. *)
Theorem init_initialiser_calls (self : DendriticMLP.t DendriticLayer) :
  DendriticMLP.__init__ class_parameters input_size output_size hidden_sizes
    num_segments dim_context kw kw_percent_on context_percent_on
    dendrite_weight_sparsity weight_sparsity weight_init dendrite_init
    freeze_dendrites output_nonlinearity dendritic_layer_class
  = Ok self ->
  let later_sparsity (s : Q) :=
    if effective_kw kw_percent_on kw
    then exists p, kw_percent_on = Some p /\ s = (1 - p)%Q
    else s = 0%Q in
  (forall i layer,
     DendriticMLP._layers self !! i = Some layer ->
     exists weight_calls,
       layer_init_calls layer
       = weight_calls
         ++ (if String.eqb dendrite_init "modified"
             then [InitSparseDendrites (1 - context_percent_on)%Q] else []) /\
       (if String.eqb weight_init "modified"
        then exists s,
               weight_calls = [InitSparseWeights s] /\
               match i with 0 => s = 0%Q | S _ => later_sparsity s end
        else weight_calls = [])) /\
  (forall head,
     head ∈ DendriticMLP._output_layers self ->
     if String.eqb weight_init "modified"
     then exists s, output_init_calls head = [InitSparseWeights s] /\
                    later_sparsity s
     else output_init_calls head = []).
Proof.
  intros Hc later_sparsity.
  assert (Hks : forall s,
            DendriticMLP.kw_input_sparsity (effective_kw kw_percent_on kw)
              kw_percent_on = Ok s ->
            later_sparsity s).
  { intros s Hs. unfold later_sparsity, DendriticMLP.kw_input_sparsity in *.
    destruct (effective_kw kw_percent_on kw).
    - destruct kw_percent_on as [p |]; [| done]. injection Hs as <-. by exists p.
    - by injection Hs as <-. }
  apply init_unfold in Hc as (hidden & heads & Hhidden & Hheads & Hlayers & Hout & _).
  apply hidden_layers_detail in Hhidden as (_ & Hdetail).
  split.
  - intros i layer Hi. rewrite Hlayers in Hi.
    destruct (Hdetail _ _ Hi) as (cls & n & _ & _ & _ & _ & calls & Hcalls & Hw).
    exists calls. split; [done |].
    destruct (String.eqb weight_init "modified"); [| done].
    destruct Hw as (s & Hs & Hcase). exists s. split; [done |].
    destruct i as [| j]; [done |]. by apply Hks.
  - intros head Hin. rewrite Hout in Hin.
    apply output_layers_detail in Hheads.
    apply list_elem_of_lookup in Hin as [k Hk].
    destruct (Forall2_lookup_r _ _ _ _ _ Hheads Hk) as (n & _ & _ & _ & _ & _ & Hcalls).
    destruct (String.eqb weight_init "modified"); [| done].
    destruct Hcalls as (s & Hs & Hcalls). exists s. split; [done | by apply Hks].
Qed.

(** X7. Without [freeze_dendrites] the constructor changes no
    [requires_grad] flag: every hidden layer has the parameters its class
    gave it. The layers also carry the arguments of the network:
    [num_segments], [dim_context] and [module_sparsity = weight_sparsity]. *)
Theorem init_without_freeze (self : DendriticMLP.t DendriticLayer) :
  DendriticMLP.__init__ class_parameters input_size output_size hidden_sizes
    num_segments dim_context kw kw_percent_on context_percent_on
    dendrite_weight_sparsity weight_sparsity weight_init dendrite_init
    freeze_dendrites output_nonlinearity dendritic_layer_class
  = Ok self ->
  forall layer,
    layer ∈ DendriticMLP._layers self ->
    layer_num_segments layer = num_segments /\
    layer_dim_context layer = dim_context /\
    module_sparsity layer = weight_sparsity /\
    (freeze_dendrites = false ->
     named_parameters layer
     = class_parameters (layer_class_of layer) (module layer)
         num_segments dim_context).
Proof.
  intros Hc layer Hin.
  apply init_unfold in Hc as (hidden & heads & Hhidden & _ & Hlayers & _).
  apply hidden_layers_built in Hhidden as (_ & Hall & _).
  rewrite Hlayers in Hin. rewrite Forall_forall in Hall.
  destruct (Hall layer Hin) as (H1 & H2 & H3 & _ & Hparams).
  split; [done |]. split; [done |]. split; [done |].
  intros Hfreeze. cbv zeta in Hparams. by rewrite Hfreeze in Hparams.
Qed.

End InitMore.

(** ** More of [forward] *)

Section ForwardMore.
Context {Layer X Ctx : Type}.
Variable layer_forward : Layer -> X -> option Ctx -> X.
Variable activation_forward : activation -> X -> X.
Variable head_forward : OutputLayer -> X -> X.

(** [forward] past its assertion, for any context. *)
Lemma forward_run (self : DendriticMLP.t Layer) (x : X) (context : option Ctx)
  (tr : list (@DendriticMLP.call Layer X Ctx)) :
  is_Some context \/ DendriticMLP.num_segments self = 0%Z ->
  let pairs := zip (DendriticMLP._layers self) (DendriticMLP._activations self) in
  let y := hidden_pass layer_forward activation_forward context pairs x in
  let calls := hidden_calls layer_forward activation_forward context pairs x in
  DendriticMLP.forward layer_forward activation_forward head_forward
    self x context tr
  = (if DendriticMLP._single_output_head self then
       match DendriticMLP._output_layers self !! 0 with
       | Some head =>
           (Ok (DendriticMLP.Single (head_forward head y)),
            tr ++ calls ++ [DendriticMLP.CallHead head y])
       | None => (Raise IndexError, tr ++ calls)
       end
     else
       (Ok (DendriticMLP.Multi
              (map (fun head => head_forward head y)
                 (DendriticMLP._output_layers self))),
        tr ++ calls
           ++ map (fun head => DendriticMLP.CallHead head y)
                (DendriticMLP._output_layers self))).
Proof.
  intros Hassert pairs y calls. unfold DendriticMLP.forward.
  assert (Hb : match context with Some _ => true | None => false end
               || (DendriticMLP.num_segments self =? 0)%Z = true).
  { destruct Hassert as [[c ->] | ->]; [done |]. by rewrite orb_true_r. }
  rewrite Hb. cbn [assert_].
  unfold bind at 1. unfold lift_result at 1.
  unfold bind at 1. rewrite hidden_loop_run. fold pairs y calls.
  destruct (DendriticMLP._single_output_head self).
  - destruct (DendriticMLP._output_layers self !! 0) as [head |]; [| done].
    unfold bind, DendriticMLP.call_head, ret. by rewrite <- app_assoc.
  - unfold bind at 1. rewrite call_heads_run. unfold ret.
    by rewrite <- app_assoc.
Qed.

Lemma hidden_calls_length (context : option Ctx)
  (pairs : list (Layer * activation)) (x : X) :
  length (hidden_calls layer_forward activation_forward context pairs x)
  = 2 * length pairs.
Proof.
  revert x. induction pairs as [| p pairs IH]; intros x; [done |].
  simpl. rewrite IH. lia.
Qed.

Lemma called_layers_app (tr1 tr2 : list (@DendriticMLP.call Layer X Ctx)) :
  called_layers (tr1 ++ tr2) = called_layers tr1 ++ called_layers tr2.
Proof. unfold called_layers. apply omap_app. Qed.

Lemma called_layers_heads (heads : list OutputLayer) (y : X) :
  called_layers
    (map (fun head => @DendriticMLP.CallHead Layer X Ctx head y) heads) = [].
Proof. induction heads as [| head heads IH]; [done |]. exact IH. Qed.

(** X8. Without dendrites no context is needed: when
    [self.num_segments == 0], [forward] with [context == None] does not
    raise on the assertion; it calls every (layer, activation) pair in
    order, each layer with [None] as its context, and then the output
    head, or all the heads, on the last value. *)
Theorem forward_without_segments (self : DendriticMLP.t Layer) (x : X)
  (tr : list (@DendriticMLP.call Layer X Ctx)) :
  DendriticMLP.num_segments self = 0%Z ->
  let pairs := zip (DendriticMLP._layers self) (DendriticMLP._activations self) in
  let y := hidden_pass layer_forward activation_forward None pairs x in
  let calls := hidden_calls layer_forward activation_forward None pairs x in
  DendriticMLP.forward layer_forward activation_forward head_forward
    self x None tr
  = (if DendriticMLP._single_output_head self then
       match DendriticMLP._output_layers self !! 0 with
       | Some head =>
           (Ok (DendriticMLP.Single (head_forward head y)),
            tr ++ calls ++ [DendriticMLP.CallHead head y])
       | None => (Raise IndexError, tr ++ calls)
       end
     else
       (Ok (DendriticMLP.Multi
              (map (fun head => head_forward head y)
                 (DendriticMLP._output_layers self))),
        tr ++ calls
           ++ map (fun head => DendriticMLP.CallHead head y)
                (DendriticMLP._output_layers self))) /\
  called_layers calls = map (fun p => (p.1, None)) pairs.
Proof.
  intros Hzero pairs y calls. split.
  - apply forward_run. by right.
  - apply called_layers_hidden.
Qed.

End ForwardMore.

Section ForwardOfConstructed.
Context {X Ctx : Type}.
Variable layer_forward : DendriticLayer -> X -> option Ctx -> X.
Variable activation_forward : activation -> X -> X.
Variable head_forward : OutputLayer -> X -> X.
Variable class_parameters : layer_class -> Linear -> Z -> nat -> list (string * bool).
Variables (input_size : nat) (output_size : size_arg) (hidden_sizes : list nat).
Variables (num_segments : Z) (dim_context : nat) (kw : bool).
Variables (kw_percent_on : option Q) (context_percent_on : Q).
Variables (dendrite_weight_sparsity weight_sparsity : Q).
Variables (weight_init dendrite_init : string) (freeze_dendrites : bool).
Variables (output_nonlinearity : option string).
Variable dendritic_layer_class : layer_class_arg.

Lemma init_num_segments (self : DendriticMLP.t DendriticLayer) :
  DendriticMLP.__init__ class_parameters input_size output_size hidden_sizes
    num_segments dim_context kw kw_percent_on context_percent_on
    dendrite_weight_sparsity weight_sparsity weight_init dendrite_init
    freeze_dendrites output_nonlinearity dendritic_layer_class
  = Ok self ->
  DendriticMLP.num_segments self = num_segments /\
  DendriticMLP._activations self
  = map (fun n => if effective_kw kw_percent_on kw
                  then KWinners n kw_percent_on 1 0 0 else ReLU) hidden_sizes.
Proof.
  intros Hc.
  destruct (init_inversion _ _ _ _ _ _ _ _ _ _ _ _ _ _ _ _ _ Hc)
    as (_ & _ & _ & _ & _ & _ & _ & _ & Hacts).
  split; [| done].
  unfold DendriticMLP.__init__ in Hc.
  repeat match type of Hc with
  | rbind (assert_ ?b) _ = _ => destruct b; [cbn [assert_ rbind] in Hc | done]
  end.
  repeat match type of Hc with
  | rbind ?r _ = _ => destruct r; [cbn [rbind] in Hc | done]
  end.
  by injection Hc as <-.
Qed.

(** X9. [forward] on a network as the constructor builds it, with a
    context, or without one when [num_segments == 0]: it returns normally
    after two calls per hidden size and one per output head, on top of the
    trace it started from; the layers called are [self._layers] in order,
    each with the context given; the result is one tensor when
    [output_size] was an integer and a list of [len(output_size)] tensors
    otherwise. *)
Theorem forward_of_constructed (self : DendriticMLP.t DendriticLayer)
  (x : X) (context : option Ctx)
  (tr : list (@DendriticMLP.call DendriticLayer X Ctx)) :
  DendriticMLP.__init__ class_parameters input_size output_size hidden_sizes
    num_segments dim_context kw kw_percent_on context_percent_on
    dendrite_weight_sparsity weight_sparsity weight_init dendrite_init
    freeze_dendrites output_nonlinearity dendritic_layer_class
  = Ok self ->
  is_Some context \/ num_segments = 0%Z ->
  exists out calls,
    DendriticMLP.forward layer_forward activation_forward head_forward
      self x context tr
    = (Ok out, tr ++ calls) /\
    length calls
    = 2 * length hidden_sizes
      + match output_size with IntSize _ => 1 | IterSize ns => length ns end /\
    called_layers calls
    = map (fun layer => (layer, context)) (DendriticMLP._layers self) /\
    match output_size with
    | IntSize _ => exists y, out = DendriticMLP.Single y
    | IterSize ns => exists ys, out = DendriticMLP.Multi ys /\ length ys = length ns
    end.
Proof.
  intros Hc Hassert.
  destruct (init_num_segments self Hc) as [Hseg Hacts].
  destruct (init_inversion _ _ _ _ _ _ _ _ _ _ _ _ _ _ _ _ _ Hc)
    as (_ & _ & _ & _ & _ & _ & Hlen & _ & _).
  destruct (init_unfold _ _ _ _ _ _ _ _ _ _ _ _ _ _ _ _ _ Hc)
    as (hidden & heads & _ & Hheads & _ & Hout & Hsingle).
  apply output_layers_detail in Hheads.
  apply Forall2_length in Hheads.
  assert (Hzip : length (zip (DendriticMLP._layers self)
                           (DendriticMLP._activations self))
                 = length hidden_sizes).
  { rewrite length_zip_with, Hlen, Hacts, length_map. lia. }
  assert (Hfst : map (fun p : DendriticLayer * activation => (p.1, context))
                   (zip (DendriticMLP._layers self) (DendriticMLP._activations self))
                 = map (fun layer => (layer, context)) (DendriticMLP._layers self)).
  { rewrite <- (map_fst_zip (DendriticMLP._layers self)
                  (DendriticMLP._activations self)) at 2.
    - by rewrite map_map.
    - by rewrite Hlen, Hacts, length_map. }
  pose proof (forward_run layer_forward activation_forward head_forward
                self x context tr) as Hrun.
  cbv zeta in Hrun. rewrite Hrun; [| by rewrite Hseg].
  rewrite Hsingle, Hout. clear Hrun.
  destruct output_size as [n | ns]; simpl in Hheads.
  - destruct heads as [| head [| ? ?]]; try done. simpl.
    eexists _, _. split; [reflexivity |].
    split; [rewrite length_app, hidden_calls_length, Hzip; simpl; lia |].
    split; [| by eexists].
    rewrite called_layers_app, called_layers_hidden, Hfst.
    by rewrite app_nil_r.
  - eexists _, _. split; [reflexivity |].
    split; [rewrite length_app, hidden_calls_length, Hzip, length_map; lia |].
    split; [| eexists; split; [reflexivity | by rewrite length_map]].
    rewrite called_layers_app, called_layers_hidden, called_layers_heads, Hfst.
    by rewrite app_nil_r.
Qed.

End ForwardOfConstructed.

(** ** More of [_hardcode_dendritic_weights]: every outcome *)

Section HardcodeOutcomes.
Context {G : Type} `{RandPerm G}.

(** The branches on [init], run in the world. *)
Lemma hardcoded_weights_in_world (init : string) (U S D C : nat) (ctx : mat)
  (w0 : world G) :
  (if String.eqb init "overlapping"
   then let! st := with_rng (overlapping U S D C ctx) in
        ret (new_dendritic_weights st)
   else if String.eqb init "non_overlapping"
        then with_rng (non_overlapping U S D C ctx)
        else raise (Exception "Invalid dendritic weight hardcode choice")) w0
  = (let '(r, g1) := hardcoded_weights init U S D C ctx (rng w0) in
     (r, World (heap w0) g1)).
Proof.
  unfold hardcoded_weights.
  destruct (String.eqb init "overlapping").
  - unfold bind, with_rng, ret.
    destruct (overlapping U S D C ctx (rng w0)) as [[st | e] g1]; reflexivity.
  - destruct (String.eqb init "non_overlapping"); [reflexivity |].
    unfold raise. by destruct w0.
Qed.

(** A context tensor that is not two-dimensional. *)
Lemma hardcode_bad_context (l : loc) (t : tensor) (n0 n1 n2 : nat) (units : cube)
  (init : string) (h : gmap loc tensor) (g : G) :
  h !! l = Some t ->
  exists h',
    _hardcode_dendritic_weights l (Tensor3 n0 n1 n2 units) init (World h g)
    = (Raise ValueError, World h' g) /\
    forall l' t0, h !! l' = Some t0 -> h' !! l' = Some t0.
Proof.
  intros Hl. unfold _hardcode_dendritic_weights.
  unfold bind at 1. unfold load at 1. cbn [heap rng]. rewrite Hl.
  destruct t as [U D rows | U S D w].
  - unfold bind at 1. unfold bind at 1. unfold new_object at 1.
    cbn [heap rng unsqueeze1 ret].
    unfold bind at 1. unfold load at 1. cbn [heap rng].
    rewrite lookup_insert_eq.
    unfold bind at 1. unfold lift_result at 1. cbn [size3].
    unfold bind at 1. unfold lift_result at 1. cbn [size2].
    eexists. split; [reflexivity |].
    intros l' t0 Ht. rewrite lookup_insert_ne; [done |].
    intros Heq. apply (is_fresh (dom h)). rewrite Heq.
    apply elem_of_dom. by exists t0.
  - unfold bind at 1. unfold ret at 1.
    unfold bind at 1. unfold load at 1. cbn [heap rng]. rewrite Hl.
    unfold bind at 1. unfold lift_result at 1. cbn [size3].
    unfold bind at 1. unfold lift_result at 1. cbn [size2].
    exists h. by split.
Qed.

(** A three-dimensional weight tensor: the tensor object receives the new
    weights, or the computation of the new weights raises and nothing is
    assigned. *)
Lemma hardcode_three_dimensional (l : loc) (U S D C W : nat) (w : cube)
  (ctx : mat) (init : string) (h : gmap loc tensor) (g : G) :
  h !! l = Some (Tensor3 U S D w) ->
  _hardcode_dendritic_weights l (Tensor2 C W ctx) init (World h g)
  = match hardcoded_weights init U S D C ctx g with
    | (Ok new, g') => (Ok tt, World (<[l := Tensor3 U S D new]> h) g')
    | (Raise e, g') => (Raise e, World h g')
    end.
Proof.
  intros Hl. unfold _hardcode_dendritic_weights.
  unfold bind at 1. unfold load at 1. cbn [heap rng]. rewrite Hl.
  unfold bind at 1. unfold ret at 1.
  unfold bind at 1. unfold load at 1. cbn [heap rng]. rewrite Hl.
  unfold bind at 1. unfold lift_result at 1. cbn [size3].
  unfold bind at 1. unfold lift_result at 1. cbn [size2 rows_of].
  unfold bind at 1. rewrite hardcoded_weights_in_world. cbn [heap rng].
  destruct (hardcoded_weights init U S D C ctx g) as [[new | e] g']; reflexivity.
Qed.

(** A two-dimensional weight tensor, when the computation of the new
    weights raises: only the view was created. *)
Lemma hardcode_two_dimensional_raise (l : loc) (U D C W : nat) (rows ctx : mat)
  (init : string) (h : gmap loc tensor) (g g' : G) (e : exn) :
  h !! l = Some (Tensor2 U D rows) ->
  hardcoded_weights init U 1 D C ctx g = (Raise e, g') ->
  _hardcode_dendritic_weights l (Tensor2 C W ctx) init (World h g)
  = (Raise e,
     World (<[fresh (dom h) := Tensor3 U 1 D (map (fun r => [r]) rows)]> h) g').
Proof.
  intros Hl Hnew. unfold _hardcode_dendritic_weights.
  unfold bind at 1. unfold load at 1. cbn [heap rng]. rewrite Hl.
  unfold bind at 1. unfold bind at 1. unfold new_object at 1.
  cbn [heap rng unsqueeze1 ret].
  unfold bind at 1. unfold load at 1. cbn [heap rng].
  rewrite lookup_insert_eq.
  unfold bind at 1. unfold lift_result at 1. cbn [size3].
  unfold bind at 1. unfold lift_result at 1. cbn [size2 rows_of].
  unfold bind at 1. rewrite hardcoded_weights_in_world. cbn [heap rng].
  by rewrite Hnew.
Qed.

(** What the call on a two-dimensional tensor leaves of the objects that
    existed before. *)
Lemma two_dimensional_frame (l : loc) (t1 t2 t3 t4 : tensor)
  (h : gmap loc tensor) (l' : loc) (t0 : tensor) :
  h !! l' = Some t0 -> l' <> l ->
  let view := fresh (dom h) in
  let h1 := <[view := t2]> (<[view := t1]> h) in
  (<[l := t4]> (<[fresh (dom h1) := t3]> h1)) !! l' = Some t0.
Proof.
  intros Ht Hne view h1.
  assert (Hv : view <> l').
  { intros Heq. apply (is_fresh (dom h)). fold view. rewrite Heq.
    apply elem_of_dom. by exists t0. }
  assert (Hin : h1 !! l' = Some t0).
  { unfold h1. by rewrite !lookup_insert_ne. }
  rewrite lookup_insert_ne by done.
  rewrite lookup_insert_ne; [done |].
  intros Heq. apply (is_fresh (dom h1)). rewrite Heq.
  apply elem_of_dom. by exists t0.
Qed.

(** X10. Whatever the arguments, a call of [_hardcode_dendritic_weights]
    that raises has assigned to no tensor object that existed before the
    call: the weights are only replaced once the new tensor is complete. *)
Theorem hardcode_raise_changes_nothing (l : loc) (context_vectors : tensor)
  (init : string) (h h' : gmap loc tensor) (g g' : G) (e : exn) :
  _hardcode_dendritic_weights l context_vectors init (World h g)
  = (Raise e, World h' g') ->
  forall l' t, h !! l' = Some t -> h' !! l' = Some t.
Proof.
  intros Hrun l' t0 Ht.
  destruct (h !! l) as [t |] eqn:Hl.
  2:{ unfold _hardcode_dendritic_weights, bind, load in Hrun.
      cbn [heap rng] in Hrun. rewrite Hl in Hrun. by injection Hrun as _ <- _. }
  destruct context_vectors as [C W ctx | n0 n1 n2 units].
  2:{ destruct (hardcode_bad_context l t n0 n1 n2 units init h g Hl)
        as (h1 & Hrun1 & Hframe).
      rewrite Hrun1 in Hrun. injection Hrun as _ <- _. by apply Hframe. }
  destruct t as [U D rows | U S D w].
  - destruct (hardcoded_weights init U 1 D C ctx g) as [[new | e1] g1] eqn:Hnew.
    + pose proof (hardcode_two_dimensional l U D C W rows ctx init h g g1 new
                    Hl Hnew) as Hok.
      cbv zeta in Hok. rewrite Hok in Hrun. done.
    + rewrite (hardcode_two_dimensional_raise l U D C W rows ctx init h g g1 e1
                 Hl Hnew) in Hrun.
      injection Hrun as _ <- _.
      rewrite lookup_insert_ne; [done |].
      intros Heq. apply (is_fresh (dom h)). rewrite Heq.
      apply elem_of_dom. by exists t0.
  - rewrite (hardcode_three_dimensional l U S D C W w ctx init h g Hl) in Hrun.
    destruct (hardcoded_weights init U S D C ctx g) as [[new | e1] g1]; [done |].
    by injection Hrun as _ <- _.
Qed.

End HardcodeOutcomes.

(** ** [hardcode_dendritic_weights] over all the layers *)

Lemma accepts_shape (init : string) (D : nat) (t t' : tensor) :
  shape_of t' = shape_of t -> accepts init D t -> accepts init D t'.
Proof.
  destruct t, t'; simpl; intros Hs Ha; try done.
  - by injection Hs as _ ->.
  - by injection Hs as _ -> ->.
Qed.

Section HardcodeAll.
Context {G : Type} `{RandPerm G}.

(** One call with a valid [init] on a tensor it accepts. *)
Lemma hardcode_valid_run (l : loc) (t : tensor) (C D : nat) (ctx : mat)
  (init : string) (h : gmap loc tensor) (g : G) :
  h !! l = Some t ->
  accepts init D t ->
  well_shaped_mat C D ctx ->
  init = "overlapping" \/ (init = "non_overlapping" /\ 0 < C) ->
  exists t' h' g',
    _hardcode_dendritic_weights l (Tensor2 C D ctx) init (World h g)
    = (Ok tt, World h' g') /\
    h' !! l = Some t' /\
    shape_of t' = shape_of t /\
    well_shaped t' /\
    forall l' t0, l' <> l -> h !! l' = Some t0 -> h' !! l' = Some t0.
Proof.
  intros Hl Hacc Hctx Hinit.
  destruct t as [U D' rows | U S D' w]; simpl in Hacc.
  - subst D'.
    destruct (hardcoded_weights_run init U 1 D C ctx g Hctx)
      as (new & g' & Hnew & Hshape).
    { destruct Hinit as [-> | [-> HC]]; [by left | right].
      repeat split; [done | lia]. }
    destruct (squeeze_one_segment U D new Hshape) as [Hmat _].
    pose proof (hardcode_two_dimensional l U D C D rows ctx init h g g' new
                  Hl Hnew) as Hrun.
    cbv zeta in Hrun.
    eexists _, _, g'. split; [exact Hrun |].
    split; [by rewrite lookup_insert_eq |]. split; [done |]. split; [done |].
    intros l' t0 Hne Ht0.
    by apply (two_dimensional_frame l _ _ _ _ h l' t0).
  - destruct Hacc as [-> HS].
    destruct (hardcoded_weights_run init U S D C ctx g Hctx)
      as (new & g' & Hnew & Hshape).
    { destruct Hinit as [-> | [-> HC]]; [by left | right].
      repeat split; [done | by apply HS]. }
    rewrite (hardcode_three_dimensional l U S D C D w ctx init h g Hl), Hnew.
    eexists _, _, g'. split; [reflexivity |].
    split; [by rewrite lookup_insert_eq |]. split; [done |]. split; [done |].
    intros l' t0 Hne Ht0. by rewrite lookup_insert_ne.
Qed.

(** X11. With [self.num_segments > 0], a valid [init] and context vectors
    of width [dim_context] (non-empty for "non_overlapping"), on a network
    whose layers all have weight tensors that such a call accepts,
    [hardcode_dendritic_weights] returns normally; afterwards the weights
    of every layer are a well-formed tensor of the shape they had, and
    every tensor object that is not the weights of a layer is unchanged. *)
Theorem hardcode_all_layers {Layer : Type} (weights : Layer -> loc)
  (self : DendriticMLP.t Layer) (C D : nat) (ctx : mat) (init : string)
  (h : gmap loc tensor) (g : G) :
  (0 < DendriticMLP.num_segments self)%Z ->
  well_shaped_mat C D ctx ->
  init = "overlapping" \/ (init = "non_overlapping" /\ 0 < C) ->
  (forall dendrite,
     dendrite ∈ DendriticMLP._layers self ->
     exists t, h !! weights dendrite = Some t /\ accepts init D t) ->
  exists h' g',
    DendriticMLP.hardcode_dendritic_weights weights self (Tensor2 C D ctx) init
      (World h g)
    = (Ok tt, World h' g') /\
    (forall dendrite,
       dendrite ∈ DendriticMLP._layers self ->
       exists t t',
         h !! weights dendrite = Some t /\
         h' !! weights dendrite = Some t' /\
         shape_of t' = shape_of t /\
         well_shaped t') /\
    (forall l t,
       h !! l = Some t ->
       (forall dendrite,
          dendrite ∈ DendriticMLP._layers self -> weights dendrite <> l) ->
       h' !! l = Some t).
Proof.
  intros Hseg Hctx Hinit Hlayers.
  unfold DendriticMLP.hardcode_dendritic_weights.
  apply Z.ltb_lt in Hseg. rewrite Hseg.
  pose (I := fun (pre : list Layer) (_ : unit) (w : world G) =>
    (forall l t, h !! l = Some t ->
       exists t', heap w !! l = Some t' /\ shape_of t' = shape_of t) /\
    (forall l t, h !! l = Some t ->
       (forall d, d ∈ pre -> weights d <> l) -> heap w !! l = Some t) /\
    (forall d, d ∈ pre ->
       exists t', heap w !! weights d = Some t' /\ well_shaped t')).
  destruct (for_loop_invariant
              (fun (_ : unit) dendrite =>
                 _hardcode_dendritic_weights (weights dendrite)
                   (Tensor2 C D ctx) init)
              I (DendriticMLP._layers self) tt (World h g))
    as ([] & [h' g'] & Hrun & Hshape & Hframe & Hdone).
  - split; [| split].
    + intros l t Ht. by exists t.
    + by intros l t Ht _.
    + intros d Hd. by apply elem_of_nil in Hd.
  - intros pre d post [] [hk gk] Hsplit (Hshape & Hframe & Hdone).
    simpl in Hshape, Hframe, Hdone.
    assert (Hd : d ∈ DendriticMLP._layers self).
    { rewrite Hsplit. apply elem_of_app. right. constructor. }
    destruct (Hlayers d Hd) as (t & Ht & Hacc).
    destruct (Hshape _ _ Ht) as (tk & Htk & Hsk).
    destruct (hardcode_valid_run (weights d) tk C D ctx init hk gk Htk
                (accepts_shape init D t tk Hsk Hacc) Hctx Hinit)
      as (t' & hk' & gk' & Hrun & Ht' & Hs' & Hwf & Hfr).
    exists tt, (World hk' gk'). split; [exact Hrun |]. simpl.
    split; [| split].
    + intros l t0 Ht0. destruct (decide (l = weights d)) as [-> | Hne].
      * exists t'. split; [done |].
        rewrite Ht in Ht0. injection Ht0 as <-. by rewrite Hs'.
      * destruct (Hshape _ _ Ht0) as (t1 & Ht1 & Hs1).
        exists t1. split; [by apply Hfr | done].
    + intros l t0 Ht0 Hnot.
      assert (Hne : l <> weights d).
      { intros ->. apply (Hnot d); [| done].
        apply elem_of_app. right. constructor. }
      apply Hfr; [done |]. apply (Hframe _ _ Ht0).
      intros d' Hd'. apply Hnot. apply elem_of_app. by left.
    + intros d' Hd'. destruct (decide (weights d' = weights d)) as [-> | Hne].
      * by exists t'.
      * apply elem_of_app in Hd' as [Hd' | Hd'].
        -- destruct (Hdone d' Hd') as (t1 & Ht1 & Hwf1).
           exists t1. split; [by apply Hfr | done].
        -- apply list_elem_of_singleton in Hd'. by subst d'.
  - exists h', g'. split; [exact Hrun |]. simpl in *. split.
    + intros d Hd. destruct (Hlayers d Hd) as (t & Ht & _).
      destruct (Hshape _ _ Ht) as (t1 & Ht1 & Hs1).
      destruct (Hdone d Hd) as (t2 & Ht2 & Hwf2).
      rewrite Ht1 in Ht2. injection Ht2 as <-.
      by exists t, t1.
    + intros l t Ht Hnot. by apply Hframe.
Qed.

End HardcodeAll.

(** ** More of the "overlapping" initialisation *)

Lemma units_per_context_div (U : nat) : units_per_context U = U / 20.
Proof.
  unfold units_per_context.
  assert (Hq : (0.05 * inject_Z (Z.of_nat U) == inject_Z (Z.of_nat U) / inject_Z 20)%Q).
  { unfold Qeq, Qdiv, Qmult, Qinv, inject_Z. simpl. lia. }
  rewrite (Qfloor_comp _ _ Hq), <- Zdiv_Qdiv.
  change 20%Z with (Z.of_nat 20). by rewrite <- Nat2Z.inj_div, Nat2Z.id.
Qed.

Lemma units_per_context_le (U : nat) : units_per_context U <= U.
Proof.
  rewrite units_per_context_div.
  apply Nat.Div0.div_le_upper_bound. lia.
Qed.

Lemma segments_of_unit_app (i : nat) (l1 l2 : list (nat * nat * nat)) :
  segments_of_unit i (l1 ++ l2) = segments_of_unit i l1 ++ segments_of_unit i l2.
Proof. unfold segments_of_unit. by rewrite filter_app, map_app. Qed.

Lemma segments_of_unit_absent (i : nat) (l : list (nat * nat * nat)) :
  i ∉ map (fun e => e.1.2) l -> segments_of_unit i l = [].
Proof.
  unfold segments_of_unit. induction l as [| e l IH]; [done |].
  simpl. intros Hnot. apply not_elem_of_cons in Hnot as [Hne Hnot].
  rewrite filter_cons, decide_False by done. by apply IH.
Qed.

Lemma segments_of_unit_once (i : nat) (l : list (nat * nat * nat)) :
  NoDup (map (fun e => e.1.2) l) -> length (segments_of_unit i l) <= 1.
Proof.
  induction l as [| e l IH]; [simpl; lia |].
  simpl. intros Hnd. apply NoDup_cons in Hnd as [Hnot Hnd].
  change (e :: l) with ([e] ++ l). rewrite segments_of_unit_app, length_app.
  destruct (decide (e.1.2 = i)) as [Heq | Hne].
  - subst i. rewrite (segments_of_unit_absent _ l Hnot).
    unfold segments_of_unit. rewrite filter_cons, decide_True by done.
    simpl. lia.
  - rewrite (segments_of_unit_absent i [e]).
    + simpl. by apply IH.
    + simpl. intros Hin. apply list_elem_of_singleton in Hin. congruence.
Qed.

Section OverlappingMore.
Context {G : Type} `{RandPerm G}.

(** With no unit per context, the loop over the contexts leaves the state
    as it is. *)
Lemma overlapping_contexts_idle (U S D : nat) (ctx : mat) (cs : list nat)
  (st : overlap_state) (g : G) :
  exists g',
    for_loop (overlapping_context U S D 0 ctx) cs st g = (Ok st, g').
Proof.
  revert g. induction cs as [| c cs IH]; intros g.
  - by exists g.
  - cbn [for_loop]. unfold bind at 1. unfold overlapping_context at 1.
    unfold bind at 1. unfold torch_randperm at 1.
    destruct (randperm U g) as [perm g1]. rewrite take_0. cbn [for_loop].
    unfold ret at 1. apply IH.
Qed.

(** X12. The number of units per context is the quotient of [num_units]
    by 20, so with fewer than 20 units "overlapping" hardcodes no context:
    whatever the context vectors are, the call returns normally and every
    row of the layer is the constant -0.95. *)
Theorem overlapping_needs_twenty_units
  (l : loc) (U S D C W : nat) (w : cube) (ctx : mat)
  (h : gmap loc tensor) (g : G) :
  units_per_context U = U / 20 /\
  (h !! l = Some (Tensor3 U S D w) ->
   U < 20 ->
   exists g',
     _hardcode_dendritic_weights l (Tensor2 C W ctx) "overlapping" (World h g)
     = (Ok tt,
        World (<[l := Tensor3 U S D
                         (replicate U (replicate S (replicate D (-0.95)%Q)))]> h)
          g')).
Proof.
  split; [apply units_per_context_div |].
  intros Hl HU.
  rewrite (hardcode_three_dimensional l U S D C W w ctx "overlapping" h g Hl).
  unfold hardcoded_weights. simpl. unfold overlapping.
  rewrite units_per_context_div, (Nat.div_small U 20) by lia.
  unfold bind.
  edestruct (overlapping_contexts_idle U S D ctx (seq 0 C)) as [g' Hrun].
  rewrite Hrun. exists g'. unfold ret. simpl.
  by rewrite scaled_ones.
Qed.

(** One iteration of [for i in selected_units] on a unit that still has a
    free segment: the context is assigned. *)
Lemma overlapping_unit_step_assigns (ctx : mat) (U S D C c i : nat)
  (st : overlap_state) (g : G) :
  well_shaped_mat C D ctx -> c < C -> i < U ->
  state_ok ctx U S D st ->
  length (segments_of_unit i (assigned st)) < S ->
  exists st' n,
    overlapping_unit S D ctx c st i g = (Ok st', g) /\
    state_ok ctx U S D st' /\
    assigned st' = assigned st ++ [(c, i, n)].
Proof.
  intros Hctx Hc Hi Hok Hfree.
  destruct (overlapping_unit_step ctx U S D C c i st g Hctx Hc Hi Hok)
    as (st' & Hrun & Hok' & _).
  exists st'. pose proof Hok as [_ Hunits].
  destruct (Hunits i Hi) as (n & segs & Hn & _ & Hw & Hlen & Hlog & _).
  exists n. split; [done |]. split; [done |].
  rewrite Hlog, length_seq in Hfree.
  destruct Hctx as [HC HD].
  destruct (lookup_lt_is_Some_2 ctx c ltac:(lia)) as [v Hv].
  assert (Hvlen : length v = D).
  { rewrite Forall_forall in HD. apply HD. by eapply list_elem_of_lookup_2. }
  unfold overlapping_unit in Hrun. rewrite Hn in Hrun.
  rewrite decide_False in Hrun by lia.
  unfold bind, lift_result, getitem_row, setitem_segment, ret in Hrun.
  rewrite Hv, Hw in Hrun. rewrite decide_True in Hrun by lia.
  rewrite (broadcast_to_same _ _ Hvlen) in Hrun. simpl in Hrun.
  by injection Hrun as <-.
Qed.

(** The loop [for i in selected_units] when every selected unit still has
    a free segment: every one of them is assigned, in order. *)
Lemma overlapping_units_loop_assigns (ctx : mat) (U S D C c : nat)
  (sel : list nat) (st : overlap_state) (g : G) :
  well_shaped_mat C D ctx -> c < C ->
  Forall (fun i => i < U) sel -> NoDup sel ->
  state_ok ctx U S D st ->
  Forall (fun i => length (segments_of_unit i (assigned st)) < S) sel ->
  exists st' extra,
    for_loop (overlapping_unit S D ctx c) sel st g = (Ok st', g) /\
    state_ok ctx U S D st' /\
    assigned st' = assigned st ++ extra /\
    Forall (fun e => e.1.1 = c) extra /\
    map (fun e => e.1.2) extra = sel.
Proof.
  intros Hctx Hc Hsel Hnd Hok Hfree.
  pose (I := fun (pre : list nat) (st' : overlap_state) (g' : G) =>
    g' = g /\ state_ok ctx U S D st' /\
    exists extra,
      assigned st' = assigned st ++ extra /\
      Forall (fun e => e.1.1 = c) extra /\
      map (fun e => e.1.2) extra = pre).
  destruct (for_loop_invariant (overlapping_unit S D ctx c) I sel st g)
    as (st' & g' & Hrun & -> & Hok' & extra & Hlog & Hall & Hunits).
  - split; [done |]. split; [done |]. exists [].
    split; [by rewrite app_nil_r |]. split; [constructor | done].
  - intros pre i post st1 g1 Hsplit (-> & Hok1 & extra & Hlog & Hall & Hunits).
    assert (Hin : i ∈ sel).
    { rewrite Hsplit. apply elem_of_app. right. constructor. }
    assert (Hi : i < U) by (rewrite Forall_forall in Hsel; by apply Hsel).
    assert (Hnot : i ∉ pre).
    { rewrite Hsplit in Hnd. apply NoDup_app in Hnd as (_ & Hdisj & _).
      intros Hpre. apply (Hdisj i Hpre). constructor. }
    assert (Hfree1 : length (segments_of_unit i (assigned st1)) < S).
    { rewrite Hlog, segments_of_unit_app.
      rewrite (segments_of_unit_absent i extra) by (by rewrite Hunits).
      rewrite app_nil_r. rewrite Forall_forall in Hfree. by apply Hfree. }
    destruct (overlapping_unit_step_assigns ctx U S D C c i st1 g
                Hctx Hc Hi Hok1 Hfree1)
      as (st2 & n & Hrun & Hok2 & Hsnoc).
    exists st2, g. split; [done |]. split; [done |]. split; [done |].
    exists (extra ++ [(c, i, n)]). rewrite Hsnoc, Hlog.
    split; [by rewrite app_assoc |]. split.
    + apply Forall_app. split; [done | by constructor].
    + rewrite map_app. simpl. by rewrite Hunits.
  - by exists st', extra.
Qed.

(** X13. With at least as many segments as contexts no selection is ever
    skipped: "overlapping" returns normally and every context is assigned
    to exactly k = int(0.05 * num_units) units. *)
Theorem overlapping_enough_segments (U S D C : nat) (ctx : mat) (g : G) :
  well_shaped_mat C D ctx ->
  C <= S ->
  exists st g',
    overlapping U S D C ctx g = (Ok st, g') /\
    forall c, c < C ->
      length (units_of_context c (assigned st)) = units_per_context U.
Proof.
  intros Hctx HCS. unfold overlapping.
  set (k := units_per_context U).
  pose (I := fun (pre : list nat) (st : overlap_state) (_ : G) =>
    state_ok ctx U S D st /\
    (forall e, e ∈ assigned st -> e.1.1 ∈ pre) /\
    (forall i, length (segments_of_unit i (assigned st)) <= length pre) /\
    (forall c, c ∈ pre -> length (units_of_context c (assigned st)) = k)).
  destruct (for_loop_invariant (overlapping_context U S D k ctx) I (seq 0 C)
              {| new_dendritic_weights := scale3 (-0.95)%Q (ones3 U S D);
                 num_contexts_chosen := list_to_map (map (fun i => (i, 0)) (seq 0 U));
                 assigned := [] |} g)
    as (st & g' & Hrun & _ & _ & _ & Hexact).
  - split; [apply state_ok_init |]. split; [| split]; simpl.
    + intros e He. by apply elem_of_nil in He.
    + intros i. unfold segments_of_unit. simpl. lia.
    + intros c Hc. by apply elem_of_nil in Hc.
  - intros pre c post st g0 Hsplit (Hok & Hctxs & Hcount & Hexact).
    apply seq_split_at in Hsplit as (Hpre & Hc & _).
    assert (Hlp : length pre = c) by (by rewrite Hpre, length_seq).
    unfold overlapping_context, bind, torch_randperm.
    destruct (randperm U g0) as [perm g1] eqn:Hperm.
    assert (Hplen : length perm = U).
    { pose proof (randperm_length U g0) as Hl. by rewrite Hperm in Hl. }
    assert (Hbound : Forall (fun i => i < U) (take k perm)).
    { apply Forall_take. pose proof (randperm_bound U g0) as Hb.
      by rewrite Hperm in Hb. }
    assert (Hnodup : NoDup (take k perm)).
    { pose proof (randperm_NoDup U g0) as Hn. rewrite Hperm in Hn.
      eapply sublist_NoDup; [exact Hn | apply sublist_take]. }
    assert (Hfree : Forall (fun i => length (segments_of_unit i (assigned st)) < S)
                      (take k perm)).
    { apply Forall_forall. intros i _. specialize (Hcount i). lia. }
    destruct (overlapping_units_loop_assigns ctx U S D C c (take k perm) st g1
                Hctx Hc Hbound Hnodup Hok Hfree)
      as (st' & extra & Hrun & Hok' & Hlog & Hall & Hunits).
    exists st', g1. split; [done |]. split; [done |]. split; [| split].
    + intros e He. rewrite Hlog in He. apply elem_of_app in He as [He | He].
      * apply elem_of_app. left. by apply Hctxs.
      * apply elem_of_app. right. rewrite Forall_forall in Hall.
        rewrite (Hall e He). constructor.
    + intros i. rewrite Hlog, segments_of_unit_app, !length_app. simpl.
      pose proof (segments_of_unit_once i extra) as Honce.
      rewrite Hunits in Honce. specialize (Honce Hnodup).
      specialize (Hcount i). lia.
    + intros c' Hc'. rewrite Hlog, units_of_context_app.
      apply elem_of_app in Hc' as [Hc' | Hc'].
      * rewrite (units_of_context_other c' extra), app_nil_r; [by apply Hexact |].
        eapply Forall_impl; [exact Hall |]. simpl. intros e He Hec.
        rewrite Hpre in Hc'. apply elem_of_seq in Hc'. lia.
      * apply list_elem_of_singleton in Hc'. subst c'.
        rewrite (units_of_context_other c (assigned st)).
        2:{ apply Forall_forall. intros e He Hec.
            apply Hctxs in He. rewrite Hec, Hpre in He.
            apply elem_of_seq in He. lia. }
        rewrite (units_of_context_same c extra Hall), Hunits. simpl.
        rewrite length_take, Hplen.
        pose proof (units_per_context_le U) as Hle. fold k in Hle. lia.
  - exists st, g'. split; [done |].
    intros c Hc. apply Hexact. apply elem_of_seq. lia.
Qed.

End OverlappingMore.

(** ** Edges of the "non_overlapping" initialisation, and of the context *)

Section NonOverlappingEdges.
Context {G : Type} `{RandPerm G}.

Lemma randperm_zero (g : G) : (randperm 0 g).1 = [].
Proof. apply Permutation_nil_r. exact (randperm_perm 0 g). Qed.

(** The first iteration without a context: there is no
    [context_perm[0, :]]. *)
Lemma non_overlapping_unit_no_context (D : nat) (ctx : mat) (w : cube)
  (i : nat) (g : G) :
  non_overlapping_unit 0 D ctx w i g = (Raise IndexError, (randperm 0 g).2).
Proof.
  unfold non_overlapping_unit, bind, torch_randperm.
  pose proof (randperm_zero g) as Hz.
  destruct (randperm 0 g) as [perm g1]. simpl in Hz. subst perm. reflexivity.
Qed.

(** The first iteration without a segment: there is no
    [new_dendritic_weights[i, 0, :]]. *)
Lemma non_overlapping_unit_no_segment (C D : nat) (ctx : mat) (w : cube)
  (i : nat) (g : G) :
  well_shaped_mat C D ctx -> 0 < C ->
  w !! i = Some [] ->
  non_overlapping_unit C D ctx w i g = (Raise IndexError, (randperm C g).2).
Proof.
  intros [HC HD] HCpos Hi.
  unfold non_overlapping_unit, bind, torch_randperm, lift_result.
  destruct (randperm C g) as [perm g1] eqn:Hperm.
  assert (Hlen : length perm = C).
  { pose proof (randperm_length C g) as Hl. by rewrite Hperm in Hl. }
  assert (Hbound : Forall (fun p => p < length ctx) perm).
  { pose proof (randperm_bound C g) as Hb. rewrite Hperm in Hb.
    by rewrite HC. }
  destruct (index_rows_ok ctx perm Hbound) as (rs & Hrs & Hall).
  destruct perm as [| p perm]; [simpl in Hlen; lia |].
  inversion Hall as [| ? v ? rs' Hv Hall' ]; subst.
  assert (Hvlen : length (indicator v) = D).
  { unfold indicator. rewrite length_map.
    rewrite Forall_forall in HD. apply HD.
    by eapply list_elem_of_lookup_2. }
  assert (Hilt : i < length w) by (by eapply lookup_lt_Some).
  rewrite Hrs. cbn [getitem_row lookup list_lookup].
  unfold setitem_unit. rewrite Hi, (broadcast_to_same _ _ Hvlen). simpl.
  unfold fill_tail. rewrite list_lookup_insert_eq by done. simpl.
  unfold getitem_segment.
  rewrite list_lookup_insert_eq by (by rewrite length_insert).
  reflexivity.
Qed.

(** X14. The edges of "non_overlapping" on a three-dimensional weight
    tensor. With no unit the call returns normally, draws nothing from the
    generator and leaves an empty tensor of the same shape. With a unit,
    it raises IndexError when [context_vectors] has no row, and when the
    tensor has no segment; the tensor objects are then as before. *)
Theorem non_overlapping_edges
  (l : loc) (U S D C W : nat) (w : cube) (ctx : mat)
  (h : gmap loc tensor) (g : G) :
  h !! l = Some (Tensor3 U S D w) ->
  (U = 0 ->
   _hardcode_dendritic_weights l (Tensor2 C W ctx) "non_overlapping" (World h g)
   = (Ok tt, World (<[l := Tensor3 0 S D []]> h) g)) /\
  (0 < U -> C = 0 ->
   exists g',
     _hardcode_dendritic_weights l (Tensor2 C W ctx) "non_overlapping" (World h g)
     = (Raise IndexError, World h g')) /\
  (0 < U -> S = 0 -> 0 < C -> well_shaped_mat C D ctx ->
   exists g',
     _hardcode_dendritic_weights l (Tensor2 C W ctx) "non_overlapping" (World h g)
     = (Raise IndexError, World h g')).
Proof.
  intros Hl.
  rewrite (hardcode_three_dimensional l U S D C W w ctx "non_overlapping" h g Hl).
  unfold hardcoded_weights. simpl. unfold non_overlapping.
  split; [| split].
  - intros ->. reflexivity.
  - intros HU ->. destruct U as [| U']; [lia |].
    cbn [seq for_loop]. unfold bind at 1.
    rewrite non_overlapping_unit_no_context. by eexists.
  - intros HU -> HC Hctx. destruct U as [| U']; [lia |].
    cbn [seq for_loop]. unfold bind at 1.
    rewrite (non_overlapping_unit_no_segment C D ctx _ 0 g Hctx HC); [| done].
    by eexists.
Qed.

(** X15. A [context_vectors] tensor with three dimensions cannot be
    unpacked into [num_contexts, _]: with [self.num_segments > 0] and a
    first hidden layer, [hardcode_dendritic_weights] raises ValueError for
    every [init], known or not, before the generator is used, and every
    tensor object that existed before is unchanged. *)
Theorem context_must_be_two_dimensional {Layer : Type}
  (weights : Layer -> loc) (self : DendriticMLP.t Layer)
  (n0 n1 n2 : nat) (units : cube) (init : string)
  (h : gmap loc tensor) (g : G) (dendrite : Layer) (rest : list Layer) :
  (0 < DendriticMLP.num_segments self)%Z ->
  DendriticMLP._layers self = dendrite :: rest ->
  is_Some (h !! weights dendrite) ->
  exists h',
    DendriticMLP.hardcode_dendritic_weights weights self
      (Tensor3 n0 n1 n2 units) init (World h g)
    = (Raise ValueError, World h' g) /\
    forall l t, h !! l = Some t -> h' !! l = Some t.
Proof.
  intros Hseg Hlayers [t Ht].
  unfold DendriticMLP.hardcode_dendritic_weights.
  apply Z.ltb_lt in Hseg. rewrite Hseg, Hlayers.
  destruct (hardcode_bad_context (weights dendrite) t n0 n1 n2 units init h g Ht)
    as (h' & Hrun & Hframe).
  exists h'. split; [| exact Hframe].
  cbn [for_loop]. by rewrite (bind_raise _ _ _ _ _ Hrun).
Qed.

(** X16. A one-segment layer, whose weights are two-dimensional, after a
    call with context vectors of width [dim_context]: with
    "non_overlapping" (and a context) every row of the weights is the
    indicator of [v > 0] of a context row [v]; with "overlapping" every row
    is the constant -0.95 or a context row. *)
Theorem one_segment_rows
  (l : loc) (U D C : nat) (rows ctx : mat) (init : string)
  (h : gmap loc tensor) (g : G) :
  h !! l = Some (Tensor2 U D rows) ->
  well_shaped_mat C D ctx ->
  init = "overlapping" \/ (init = "non_overlapping" /\ 0 < C) ->
  exists rows' h' g',
    _hardcode_dendritic_weights l (Tensor2 C D ctx) init (World h g)
    = (Ok tt, World h' g') /\
    h' !! l = Some (Tensor2 U D rows') /\
    length rows' = U /\
    forall r, r ∈ rows' ->
      if String.eqb init "non_overlapping"
      then exists v, v ∈ ctx /\ r = positive_indicator v
      else r = replicate D (-0.95)%Q \/ r ∈ ctx.
Proof.
  intros Hl Hctx Hinit.
  assert (Hnew : exists new g',
            hardcoded_weights init U 1 D C ctx g = (Ok new, g') /\
            length new = U /\
            forall segs, segs ∈ new ->
              exists r, segs = [r] /\
                if String.eqb init "non_overlapping"
                then exists v, v ∈ ctx /\ r = positive_indicator v
                else r = replicate D (-0.95)%Q \/ r ∈ ctx).
  { destruct Hinit as [-> | [-> HC]]; unfold hardcoded_weights; simpl.
    - destruct (overlapping_run U 1 D C ctx g Hctx) as (st & g' & Hrun & Hok & _).
      exists (new_dendritic_weights st), g'.
      split; [by rewrite (bind_ok _ _ _ _ _ Hrun) |].
      split; [by destruct Hok |].
      intros segs Hsegs. apply list_elem_of_lookup in Hsegs as [i Hi].
      pose proof (state_ok_shape ctx U 1 D C st Hctx Hok) as [HU Hall].
      rewrite Forall_forall in Hall.
      destruct (Hall segs ltac:(by eapply list_elem_of_lookup_2)) as [Hlen _].
      destruct segs as [| r [| ? ?]]; try done.
      exists r. split; [done |].
      destruct (state_ok_row ctx U 1 D st i 0 r Hok) as (_ & _ & Hr).
      { unfold getitem_segment. by rewrite Hi. }
      by rewrite <- constant_row_eq.
    - destruct (non_overlapping_run U 1 D C ctx g Hctx HC ltac:(lia))
        as (w' & g' & Hrun & HU & Hunits).
      exists w', g'. split; [done |]. split; [done |].
      intros segs Hsegs. apply list_elem_of_lookup in Hsegs as [i Hi].
      assert (Hlt : i < U) by (rewrite <- HU; by eapply lookup_lt_Some).
      destruct (Hunits i Hlt) as (v & Hv & Hw).
      rewrite Hw in Hi. injection Hi as <-.
      exists (indicator v). split; [done |].
      exists v. split; [done | apply indicator_positive]. }
  destruct Hnew as (new & g' & Hnew & HU & Hrows).
  pose proof (hardcode_two_dimensional l U D C D rows ctx init h g g' new Hl Hnew)
    as Hrun.
  cbv zeta in Hrun.
  eexists (map (@concat Q) new), _, g'. split; [exact Hrun |].
  split; [by rewrite lookup_insert_eq |].
  split; [by rewrite length_map |].
  intros r Hr. apply list_elem_of_In, in_map_iff in Hr as (segs & <- & Hsegs).
  apply list_elem_of_In in Hsegs.
  destruct (Hrows segs Hsegs) as (r & -> & Hr).
  simpl. by rewrite app_nil_r.
Qed.

End NonOverlappingEdges.

(** ** The sparse initialisers *)

Section SparseInitFacts.
Import SparseInit.
Context {G : Type} `{Uniform G}.

Lemma draws_length (a b : R) (n : nat) (g : G) :
  length (draws a b n g).1 = n.
Proof.
  revert g. induction n as [| n IH]; intros g; [reflexivity |].
  cbn [draws]. destruct (uniform a b g) as [x g1].
  specialize (IH g1). destruct (draws a b n g1) as [xs g2].
  cbn [fst length] in *. congruence.
Qed.

Lemma draws_range (a b : R) (n : nat) (g : G) :
  (a < b)%R -> Forall (fun x => (a <= x < b)%R) (draws a b n g).1.
Proof.
  intros Hab. revert g. induction n as [| n IH]; intros g; [constructor |].
  cbn [draws]. pose proof (uniform_range a b g Hab) as Hx.
  destruct (uniform a b g) as [x g1].
  specialize (IH g1). destruct (draws a b n g1) as [xs g2].
  cbn [fst] in *. constructor; assumption.
Qed.

Lemma uniform__eq (t : weight_tensor) (a b : R) (g : G) :
  uniform_ t a b g
  = (Ok {| dims := dims t;
           entries := (draws a b (length (entries t)) g).1 |},
     (draws a b (length (entries t)) g).2).
Proof.
  unfold uniform_. destruct (draws a b (length (entries t)) g); reflexivity.
Qed.

Lemma rezero_lookup (mask : list bool) (t : weight_tensor) (i : nat) (x : R) :
  entries t !! i = Some x ->
  entries (rezero mask t) !! i = Some (if masked mask i then 0%R else x).
Proof.
  intros Hx. cbn [rezero entries]. rewrite list_lookup_imap, Hx. reflexivity.
Qed.

Lemma rezero_length (mask : list bool) (t : weight_tensor) :
  length (entries (rezero mask t)) = length (entries t).
Proof. cbn [rezero entries]. apply length_imap. Qed.

Lemma bound_pos (input_sparsity weight_sparsity : R) (fan_in : nat) :
  (input_sparsity < 1)%R -> (weight_sparsity < 1)%R -> 0 < fan_in ->
  (0 < bound input_sparsity weight_sparsity fan_in)%R.
Proof.
  intros Hi Hw Hf. unfold bound.
  assert (Hn : (0 < INR fan_in)%R) by (apply lt_0_INR; lia).
  apply Rdiv_lt_0_compat; [lra |].
  apply sqrt_lt_R0.
  apply Rmult_lt_0_compat; [apply Rmult_lt_0_compat; lra | exact Hn].
Qed.

(** Drawing a tensor with bounds [- h] and [h] and masking it gives a
    tensor that is sampled, then rezeroed. *)
Lemma rezero_draws_sampled (h : R) (mask : list bool) (old : weight_tensor)
    (g : G) :
  (0 < h)%R ->
  sampled_then_rezeroed h mask
    (draws (- h) h (length (entries old)) g).1 old
    (rezero mask
       {| dims := dims old;
          entries := (draws (- h) h (length (entries old)) g).1 |}).
Proof.
  intros Hh. split; [reflexivity |]. split.
  { rewrite rezero_length. cbn [entries]. apply draws_length. }
  intros i Hi.
  pose proof (draws_length (- h) h (length (entries old)) g) as Hlen.
  pose proof (draws_range (- h) h (length (entries old)) g) as Hrange.
  destruct ((draws (- h) h (length (entries old)) g).1 !! i) as [x |] eqn:Hx.
  - exists x. split; [reflexivity |]. split.
    + rewrite Forall_lookup in Hrange. apply (Hrange ltac:(lra) i x Hx).
    + apply rezero_lookup. exact Hx.
  - apply lookup_ge_None in Hx. lia.
Qed.

End SparseInitFacts.

(** C3. For a layer [m] with sparsity below 1 and an input sparsity below
    1, [_init_sparse_weights] on a weight matrix of shape [rows; fan_in]
    returns normally; with
    [h = 1 / sqrt((1 - input_sparsity) * (1 - m.sparsity) * fan_in)],
    which is positive, it has overwritten [m.module.weight] with one draw
    of [uniform_] per entry for the bounds [- h] and [h], and has then
    applied [rezero_weights]: every masked position holds zero, every
    other position its draw, and every draw lies in the range of
    [uniform_]. [_init_sparse_dendrites] does the same to the weights of
    [m.segments], with the sparsity of the segments and
    [fan_in = m.dim_context]; when [m.segments] is None it returns with
    the layer and the generator as they were. *)
Theorem sparse_init_samples_then_rezeroes {G : Type} `{SparseInit.Uniform G} :
  (forall (m : SparseInit.SparseWeights) (input_sparsity : R)
          (rows fan_in : nat) (g : G),
      (SparseInit.sparsity m < 1)%R ->
      (input_sparsity < 1)%R ->
      SparseInit.dims (SparseInit.module_weight m) = [rows; fan_in] ->
      0 < fan_in ->
      let h := SparseInit.bound input_sparsity (SparseInit.sparsity m) fan_in in
      let n := length (SparseInit.entries (SparseInit.module_weight m)) in
      let xs := (SparseInit.draws (- h) h n g).1 in
      let m' :=
        SparseInit.apply_rezero_weights
          (SparseInit.set_module_weight m
             {| SparseInit.dims := [rows; fan_in];
                SparseInit.entries := xs |}) in
      (0 < h)%R /\
      SparseInit._init_sparse_weights m input_sparsity g
      = (Ok m', (SparseInit.draws (- h) h n g).2) /\
      SparseInit.sampled_then_rezeroed h (SparseInit.zero_mask m) xs
        (SparseInit.module_weight m) (SparseInit.module_weight m') /\
      (forall i, i < n ->
         SparseInit.masked (SparseInit.zero_mask m) i = true ->
         SparseInit.entries (SparseInit.module_weight m') !! i = Some 0%R) /\
      SparseInit.sparsity m' = SparseInit.sparsity m /\
      SparseInit.zero_mask m' = SparseInit.zero_mask m /\
      SparseInit.dim_context m' = SparseInit.dim_context m) /\
  (forall (m : SparseInit.SparseWeights) (s : SparseInit.DendriteSegments)
          (input_sparsity : R) (g : G),
      SparseInit.segments m = Some s ->
      (SparseInit.segments_sparsity s < 1)%R ->
      (input_sparsity < 1)%R ->
      0 < SparseInit.dim_context m ->
      let h :=
        SparseInit.bound input_sparsity (SparseInit.segments_sparsity s)
          (SparseInit.dim_context m) in
      let n := length (SparseInit.entries (SparseInit.segments_weights s)) in
      let xs := (SparseInit.draws (- h) h n g).1 in
      let m' :=
        SparseInit.apply_rezero_weights
          (SparseInit.set_segment_weights m s
             {| SparseInit.dims :=
                  SparseInit.dims (SparseInit.segments_weights s);
                SparseInit.entries := xs |}) in
      (0 < h)%R /\
      SparseInit._init_sparse_dendrites m input_sparsity g
      = (Ok m', (SparseInit.draws (- h) h n g).2) /\
      (exists s',
         SparseInit.segments m' = Some s' /\
         SparseInit.sampled_then_rezeroed h (SparseInit.segments_zero_mask s)
           xs (SparseInit.segments_weights s)
           (SparseInit.segments_weights s') /\
         (forall i, i < n ->
            SparseInit.masked (SparseInit.segments_zero_mask s) i = true ->
            SparseInit.entries (SparseInit.segments_weights s') !! i
            = Some 0%R) /\
         SparseInit.segments_sparsity s' = SparseInit.segments_sparsity s /\
         SparseInit.segments_zero_mask s'
         = SparseInit.segments_zero_mask s) /\
      SparseInit.sparsity m' = SparseInit.sparsity m /\
      SparseInit.zero_mask m' = SparseInit.zero_mask m /\
      SparseInit.dim_context m' = SparseInit.dim_context m) /\
  (forall (m : SparseInit.SparseWeights) (input_sparsity : R) (g : G),
      SparseInit.segments m = None ->
      SparseInit._init_sparse_dendrites m input_sparsity g = (Ok m, g)).
Proof.
  split; [| split].
  - intros m input_sparsity rows fan_in g Hs Hi Hdims Hfan h n xs m'.
    assert (Hh : (0 < h)%R) by (apply bound_pos; assumption).
    pose proof (rezero_draws_sampled h (SparseInit.zero_mask m)
                  (SparseInit.module_weight m) g Hh) as Hsr.
    rewrite Hdims in Hsr.
    split; [exact Hh |]. split.
    { unfold SparseInit._init_sparse_weights, bind, lift_result,
        SparseInit.fan_in_of.
      rewrite Hdims. rewrite uniform__eq. rewrite Hdims. reflexivity. }
    split; [exact Hsr |]. split.
    { intros i Hlt Hmask.
      destruct Hsr as (_ & _ & Hpos). destruct (Hpos i Hlt) as (x & _ & _ & Hx).
      rewrite Hmask in Hx. exact Hx. }
    repeat split.
  - intros m s input_sparsity g Hseg Hs Hi Hctx h n xs m'.
    assert (Hh : (0 < h)%R) by (apply bound_pos; assumption).
    pose proof (rezero_draws_sampled h (SparseInit.segments_zero_mask s)
                  (SparseInit.segments_weights s) g Hh) as Hsr.
    split; [exact Hh |]. split.
    { unfold SparseInit._init_sparse_dendrites, bind. rewrite Hseg.
      rewrite uniform__eq. reflexivity. }
    split.
    { eexists. split; [reflexivity |]. cbn [SparseInit.segments_weights].
      split; [exact Hsr |]. split; [| split; reflexivity].
      intros i Hlt Hmask.
      destruct Hsr as (_ & _ & Hpos). destruct (Hpos i Hlt) as (x & _ & _ & Hx).
      rewrite Hmask in Hx. exact Hx. }
    repeat split.
  - intros m input_sparsity g Hseg.
    unfold SparseInit._init_sparse_dendrites. rewrite Hseg. reflexivity.
Qed.

(** ** Runs of the model *)

Example contains_substring :
  contains "segments" "module.segments.weights" = true /\
  contains "segments" "segment" = false /\
  contains "" "" = true.
Proof. by repeat split. Qed.

(** Two units with three segments, three contexts: the generator picks
    the context [1; -2] for unit 0 and [0; 3] for unit 1. *)
Example non_overlapping_run_example :
  non_overlapping 2 3 2 3 example_contexts 0
  = (Ok [[[1; 0]; [0; -1]; [0; -1]];
         [[0; 1]; [-1; 0]; [-1; 0]]]%Q, 2).
Proof. reflexivity. Qed.

(** Outside the shapes the statements assume, the "non_overlapping" branch
    raises: with no segment there is no [new_dendritic_weights[i, 0, :]],
    with no context there is no [context_perm[0, :]], and a context of
    another width does not broadcast. *)
Example non_overlapping_no_segment :
  non_overlapping 1 0 2 3 example_contexts 0 = (Raise IndexError, 1).
Proof. reflexivity. Qed.

Example non_overlapping_no_context :
  non_overlapping 1 2 2 0 [] 0 = (Raise IndexError, 1).
Proof. reflexivity. Qed.

Example non_overlapping_other_width :
  non_overlapping 1 2 3 3 example_contexts 0 = (Raise RuntimeError, 1).
Proof. reflexivity. Qed.

(** A context of width 1 is broadcast along [dim_context]. *)
Example non_overlapping_broadcast :
  non_overlapping 1 2 2 1 [[1]]%Q 0 = (Ok [[[1; 1]; [0; 0]]]%Q, 1).
Proof. reflexivity. Qed.

(** Forty units, so two units per context: the assignments, as
    (context, unit, segment). *)
Example overlapping_run_example :
  (let '(r, _) := overlapping 40 2 2 3 example_contexts 0 in
   match r with
   | Ok st => Some (assigned st)
   | Raise _ => None
   end)
  = Some [(0, 0, 0); (0, 1, 0); (1, 1, 1); (1, 2, 0); (2, 2, 1); (2, 3, 0)].
Proof. vm_compute. reflexivity. Qed.

(** The one-segment layer at location 2 after the call: two units are too
    few for a context to select any ([k = 0]). *)
Example one_segment_run_example :
  (let '(r, w) :=
     _hardcode_dendritic_weights 2%positive (Tensor2 3 2 example_contexts)
       "overlapping" (World example_heap 0) in
   (r, heap w !! 2%positive))
  = (Ok tt, Some (Tensor2 2 2 [[-0.95; -0.95]; [-0.95; -0.95]]%Q)).
Proof. vm_compute. reflexivity. Qed.

(** The constructor refuses [dendrite_init = "hardcoded"], a missing
    [kw_percent_on] with k-winners on, and a list of classes that is too
    short. *)
Example init_refuses_hardcoded :
  DendriticMLP.__init__ example_parameters 4 (IntSize 2) [3; 3] 2 2 true
    (Some 0.05%Q) 1 0.95 0.95 "modified" "hardcoded" true None
    (OneClass AbsoluteMaxGatingDendriticLayer)
  = Raise AssertionError.
Proof. reflexivity. Qed.

Example init_kw_without_percent :
  DendriticMLP.__init__ example_parameters 4 (IntSize 2) [3; 3] 2 2 true
    None 1 0.95 0.95 "modified" "modified" true None
    (OneClass AbsoluteMaxGatingDendriticLayer)
  = Raise TypeError.
Proof. reflexivity. Qed.

Example init_short_class_list :
  DendriticMLP.__init__ example_parameters 4 (IntSize 2) [3; 3] 2 2 true
    (Some 0.05%Q) 1 0.95 0.95 "modified" "modified" true None
    (ClassList [AbsoluteMaxGatingDendriticLayer])
  = Raise IndexError.
Proof. reflexivity. Qed.

(** The parameters of a hidden layer built with frozen dendrites. *)
Example init_frozen_parameters :
  (match
     DendriticMLP.__init__ example_parameters 4 (IntSize 2) [3; 3] 2 2 true
       (Some 0.05%Q) 1 0.95 0.95 "modified" "modified" true None
       (OneClass AbsoluteMaxGatingDendriticLayer)
   with
   | Ok self => map named_parameters (DendriticMLP._layers self)
   | Raise _ => []
   end)
  = [[("module.module.weight", true); ("module.module.bias", false);
      ("segments.weights", false); ("segments.bias", false)];
     [("module.module.weight", true); ("module.module.bias", false);
      ("segments.weights", false); ("segments.bias", false)]].
Proof. reflexivity. Qed.

(** ** The theorems at concrete inputs *)

Lemma example_contexts_shape : well_shaped_mat 3 2 example_contexts.
Proof. split; [reflexivity |]. repeat constructor. Qed.

(** C1 on the layer at location 1, with three context vectors. *)
Lemma non_overlapping_hardcodes_one_context_witness :
  example_heap !! 1%positive = Some (Tensor3 2 3 2 (zeros3 2 3 2)) /\
  well_shaped_mat 3 2 example_contexts /\ 0 < 3 /\ 0 < 3 /\
  exists w' g',
    _hardcode_dendritic_weights 1%positive (Tensor2 3 2 example_contexts)
      "non_overlapping" (World example_heap 0)
    = (Ok tt, World (<[1%positive := Tensor3 2 3 2 w']> example_heap) g') /\
    well_shaped_cube 2 3 2 w' /\
    forall i, i < 2 ->
      exists v seg0,
        v ∈ example_contexts /\
        getitem_segment w' i 0 = Ok seg0 /\
        seg0 = positive_indicator v /\
        forall j, 1 <= j < 3 ->
          exists r,
            getitem_segment w' i j = Ok r /\
            Forall2 (fun x x0 => (x == x0 - 1)%Q /\
                       (x0 = 1%Q /\ x = 0%Q \/ x0 = 0%Q /\ x = (-1)%Q)) r seg0.
Proof.
  split; [reflexivity |]. split; [exact example_contexts_shape |].
  split; [lia |]. split; [lia |].
  apply (non_overlapping_hardcodes_one_context (G := nat)
           1%positive 2 3 2 3 (zeros3 2 3 2) example_contexts example_heap 0).
  - reflexivity.
  - exact example_contexts_shape.
  - lia.
  - lia.
Defined.

(** C2 on the layer of 40 units at location 3: k = 2. *)
Lemma overlapping_hardcodes_prefixes_witness :
  example_heap !! 3%positive = Some (Tensor3 40 2 2 (zeros3 40 2 2)) /\
  well_shaped_mat 3 2 example_contexts /\
  exists st g',
    overlapping 40 2 2 3 example_contexts 0 = (Ok st, g') /\
    _hardcode_dendritic_weights 3%positive (Tensor2 3 2 example_contexts)
      "overlapping" (World example_heap 0)
    = (Ok tt,
       World (<[3%positive := Tensor3 40 2 2 (new_dendritic_weights st)]>
                example_heap) g') /\
    well_shaped_cube 40 2 2 (new_dendritic_weights st) /\
    (forall i j r,
        getitem_segment (new_dendritic_weights st) i j = Ok r ->
        r = replicate 2 (-0.95)%Q \/ r ∈ example_contexts) /\
    (forall i, i < 40 ->
       exists n,
         n <= 2 /\
         segments_of_unit i (assigned st) = seq 0 n /\
         (forall j, j < n ->
            exists c v,
              (c, i, j) ∈ assigned st /\ example_contexts !! c = Some v /\
              getitem_segment (new_dendritic_weights st) i j = Ok v) /\
         (forall j, n <= j < 2 ->
            getitem_segment (new_dendritic_weights st) i j
            = Ok (replicate 2 (-0.95)%Q))) /\
    (forall c,
        NoDup (units_of_context c (assigned st)) /\
        length (units_of_context c (assigned st))
        <= Z.to_nat (Qfloor (0.05 * inject_Z (Z.of_nat 40)))).
Proof.
  split; [reflexivity |]. split; [exact example_contexts_shape |].
  apply (overlapping_hardcodes_prefixes (G := nat)
           3%positive 40 2 2 3 (zeros3 40 2 2) example_contexts example_heap 0).
  - reflexivity.
  - exact example_contexts_shape.
Defined.

(** C10 on the one-segment layer at location 2. *)
Lemma one_segment_weights_written_back_witness :
  example_heap !! 2%positive = Some (Tensor2 2 2 [[5; 5]; [6; 6]]%Q) /\
  well_shaped_mat 3 2 example_contexts /\
  exists new h' g',
    _hardcode_dendritic_weights 2%positive (Tensor2 3 2 example_contexts)
      "non_overlapping" (World example_heap 0)
    = (Ok tt, World h' g') /\
    hardcoded_weights "non_overlapping" 2 1 2 3 example_contexts 0 = (Ok new, g') /\
    h' !! 2%positive = Some (Tensor2 2 2 (map (@concat Q) new)) /\
    well_shaped_mat 2 2 (map (@concat Q) new) /\
    (forall i, i < 2 ->
       exists r, map (@concat Q) new !! i = Some r /\
                 getitem_segment new i 0 = Ok r) /\
    (forall l', l' ∈ dom example_heap -> l' <> 2%positive ->
       h' !! l' = example_heap !! l').
Proof.
  split; [reflexivity |]. split; [exact example_contexts_shape |].
  apply (one_segment_weights_written_back (G := nat)
           2%positive 2 2 3 [[5; 5]; [6; 6]]%Q example_contexts
           "non_overlapping" example_heap 0).
  - reflexivity.
  - exact example_contexts_shape.
  - right. split; [reflexivity | lia].
Defined.

(** C5 on the example network: an unknown [init] with two segments, and
    any [init] with no segments. *)
Lemma invalid_init_raises_before_assignment_witness :
  (exists e h',
     DendriticMLP.hardcode_dendritic_weights (fun l : loc => l)
       (example_network 2) (Tensor2 3 2 example_contexts) "random"
       (World example_heap 0)
     = (Raise e, World h' 0) /\
     (forall l t, example_heap !! l = Some t -> h' !! l = Some t) /\
     (forall dendrite t,
        dendrite ∈ DendriticMLP._layers (example_network 2) ->
        example_heap !! dendrite = Some t -> h' !! dendrite = Some t)) /\
  DendriticMLP.hardcode_dendritic_weights (fun l : loc => l)
    (example_network 0) (Tensor2 3 2 example_contexts) "random"
    (World example_heap 0)
  = (Ok tt, World example_heap 0).
Proof.
  split.
  - apply (invalid_init_raises_before_assignment (G := nat) (fun l : loc => l)
             (example_network 2) (Tensor2 3 2 example_contexts) "random"
             example_heap 0).
    + discriminate.
    + discriminate.
    + reflexivity.
    + discriminate.
  - apply (invalid_init_raises_before_assignment (G := nat) (fun l : loc => l)
             (example_network 0) (Tensor2 3 2 example_contexts) "random"
             example_heap 0).
    reflexivity.
Defined.

(** C6 on the example network, with numbers for tensors. *)
Lemma forward_threads_context_witness :
  DendriticMLP.num_segments (example_network 2) <> 0%Z /\
  DendriticMLP.forward example_layer_forward example_activation_forward
    example_head_forward (example_network 2) 7 None []
  = (Raise AssertionError, []) /\
  DendriticMLP.forward example_layer_forward example_activation_forward
    example_head_forward (example_network 2) 7 (Some 1) []
  = (Ok (DendriticMLP.Single 44),
     [DendriticMLP.CallLayer 1%positive 7 (Some 1);
      DendriticMLP.CallActivation ReLU 9;
      DendriticMLP.CallLayer 2%positive 18 (Some 1);
      DendriticMLP.CallActivation ReLU 21;
      DendriticMLP.CallHead
        {| output_linear := {| in_features := 2; out_features := 2; bias := true |};
           output_sparsity := 0.95%Q;
           allow_extremes := true;
           output_init_calls := [];
           non_linearity := None |} 42]).
Proof.
  pose proof (forward_threads_context example_layer_forward
                example_activation_forward example_head_forward
                (example_network 2) 7 []) as [Hnone Hsome].
  split; [discriminate |]. split.
  - apply Hnone. discriminate.
  - destruct (Hsome 1) as [Hrun _]. exact Hrun.
Defined.

(** C7, C8 and C9 on a network of two hidden layers built with frozen
    dendrites and k-winners. *)
Lemma frozen_dendrites_only_segments_witness :
  exists self,
    DendriticMLP.__init__ example_parameters 4 (IntSize 2) [3; 3] 2 2 true
      (Some 0.05%Q) 1 0.95 0.95 "modified" "modified" true None
      (OneClass AbsoluteMaxGatingDendriticLayer)
    = Ok self /\
    length (DendriticMLP._layers self) = 2 /\
    forall layer,
      layer ∈ DendriticMLP._layers self ->
      Forall2
        (fun before after =>
           after.1 = before.1 /\
           (contains "segments" before.1 = true -> after.2 = false) /\
           (contains "segments" before.1 = false -> after.2 = before.2))
        (example_parameters (layer_class_of layer) (module layer) 2 2)
        (named_parameters layer).
Proof.
  eexists. split; [vm_compute; reflexivity |]. split; [reflexivity |].
  apply (frozen_dendrites_only_segments example_parameters 4 (IntSize 2)
           [3; 3] 2 2 true (Some 0.05%Q) 1 0.95 0.95 "modified" "modified"
           true None (OneClass AbsoluteMaxGatingDendriticLayer)).
  - vm_compute. reflexivity.
  - reflexivity.
Defined.

Lemma hardcode_dendrites_is_false_witness :
  exists self,
    DendriticMLP.__init__ example_parameters 4 (IntSize 2) [3; 3] 2 2 true
      (Some 0.05%Q) 1 0.95 0.95 "modified" "modified" true None
      (OneClass AbsoluteMaxGatingDendriticLayer)
    = Ok self /\
    length (DendriticMLP._layers self) = 2 /\
    DendriticMLP.hardcode_dendrites self = false /\
    forall layer,
      layer ∈ DendriticMLP._layers self ->
      dendrite_sparsity layer = 0.95%Q /\
      dendrite_sparsity layer = DendriticMLP.dendrite_weight_sparsity self.
Proof.
  eexists. split; [vm_compute; reflexivity |]. split; [reflexivity |].
  apply (hardcode_dendrites_is_false example_parameters 4 (IntSize 2)
           [3; 3] 2 2 true (Some 0.05%Q) 1 0.95 0.95 "modified" "modified"
           true None (OneClass AbsoluteMaxGatingDendriticLayer)).
  vm_compute. reflexivity.
Defined.

(** C9 twice: with [kw_percent_on = 0.0], and with k-winners on. *)
Lemma activations_follow_kw_witness :
  (exists self,
     DendriticMLP.__init__ example_parameters 4 (IntSize 2) [3; 5] 2 2 true
       (Some 0%Q) 1 0.95 0.95 "modified" "modified" false None
       (OneClass AbsoluteMaxGatingDendriticLayer)
     = Ok self /\
     DendriticMLP.kw self = false /\
     DendriticMLP._activations self = [ReLU; ReLU]) /\
  (exists self,
     DendriticMLP.__init__ example_parameters 4 (IntSize 2) [3; 5] 2 2 true
       (Some 0.05%Q) 1 0.95 0.95 "modified" "modified" false None
       (OneClass AbsoluteMaxGatingDendriticLayer)
     = Ok self /\
     DendriticMLP.kw self = true /\
     DendriticMLP._activations self
     = [KWinners 3 (Some 0.05%Q) 1 0 0; KWinners 5 (Some 0.05%Q) 1 0 0]).
Proof.
  split.
  - eexists. split; [vm_compute; reflexivity |].
    pose proof (activations_follow_kw example_parameters 4 (IntSize 2)
                  [3; 5] 2 2 true (Some 0%Q) 1 0.95 0.95 "modified" "modified"
                  false None (OneClass AbsoluteMaxGatingDendriticLayer) _
                  eq_refl) as (_ & Hzero & _).
    destruct (Hzero 0%Q eq_refl ltac:(reflexivity)) as [Hkw _].
    split; [exact Hkw | reflexivity].
  - eexists. split; [vm_compute; reflexivity |].
    pose proof (activations_follow_kw example_parameters 4 (IntSize 2)
                  [3; 5] 2 2 true (Some 0.05%Q) 1 0.95 0.95 "modified" "modified"
                  false None (OneClass AbsoluteMaxGatingDendriticLayer) _
                  eq_refl) as (_ & _ & Hkw).
    split; [reflexivity |].
    apply list_eq. intros [| [| i]].
    + simpl. destruct (Hkw eq_refl 0 _ eq_refl) as (n & Hn & ->).
      by injection Hn as <-.
    + simpl. destruct (Hkw eq_refl 1 _ eq_refl) as (n & Hn & ->).
      by injection Hn as <-.
    + reflexivity.
Defined.

(** C3 on the example layers, with input sparsity 0 and the stepping
    generator in state 0: the bound is [1 / sqrt((1 - 0) * (1 - 1/2) * 2)]
    for the weights and for the segments. *)
Lemma sparse_init_samples_then_rezeroes_witness :
  ((SparseInit.sparsity SparseInit.example_layer < 1)%R /\
   (0 < 1)%R /\
   SparseInit.dims (SparseInit.module_weight SparseInit.example_layer)
   = [2; 2] /\
   0 < 2 /\
   exists m' g',
     SparseInit._init_sparse_weights SparseInit.example_layer 0%R 0
     = (Ok m', g') /\
     (0 < SparseInit.bound 0 (1 / 2) 2)%R /\
     SparseInit.sampled_then_rezeroed (SparseInit.bound 0 (1 / 2) 2)
       [true; false; false; true]
       (SparseInit.draws (- SparseInit.bound 0 (1 / 2) 2)
          (SparseInit.bound 0 (1 / 2) 2) 4 0).1
       (SparseInit.module_weight SparseInit.example_layer)
       (SparseInit.module_weight m') /\
     SparseInit.entries (SparseInit.module_weight m') !! 0 = Some 0%R /\
     SparseInit.entries (SparseInit.module_weight m') !! 3 = Some 0%R) /\
  (SparseInit.segments SparseInit.example_layer
   = Some SparseInit.example_segments /\
   (SparseInit.segments_sparsity SparseInit.example_segments < 1)%R /\
   0 < SparseInit.dim_context SparseInit.example_layer /\
   exists m' s' g',
     SparseInit._init_sparse_dendrites SparseInit.example_layer 0%R 0
     = (Ok m', g') /\
     SparseInit.segments m' = Some s' /\
     SparseInit.sampled_then_rezeroed (SparseInit.bound 0 (1 / 2) 2)
       [false; true; true; false]
       (SparseInit.draws (- SparseInit.bound 0 (1 / 2) 2)
          (SparseInit.bound 0 (1 / 2) 2) 4 0).1
       (SparseInit.segments_weights SparseInit.example_segments)
       (SparseInit.segments_weights s') /\
     SparseInit.entries (SparseInit.segments_weights s') !! 1 = Some 0%R /\
     SparseInit.entries (SparseInit.segments_weights s') !! 2 = Some 0%R) /\
  SparseInit._init_sparse_dendrites SparseInit.example_plain_layer 0%R 0
  = (Ok SparseInit.example_plain_layer, 0).
Proof.
  destruct (sparse_init_samples_then_rezeroes (G := nat))
    as (Hweights & Hdendrites & Hnone).
  split; [| split].
  - assert (Hs : (SparseInit.sparsity SparseInit.example_layer < 1)%R)
      by (cbn; lra).
    assert (Hi : (0 < 1)%R) by lra.
    assert (Hf : 0 < 2) by lia.
    split; [exact Hs |]. split; [exact Hi |].
    split; [reflexivity |]. split; [exact Hf |].
    destruct (Hweights SparseInit.example_layer 0%R 2 2 0 Hs Hi eq_refl Hf)
      as (Hh & Hcall & Hsr & Hzero & _).
    eexists. eexists. split; [exact Hcall |].
    split; [exact Hh |]. split; [exact Hsr |].
    split; apply Hzero; solve [cbn; lia | reflexivity].
  - assert (Hs : (SparseInit.segments_sparsity SparseInit.example_segments
                  < 1)%R) by (cbn; lra).
    assert (Hi : (0 < 1)%R) by lra.
    assert (Hc : 0 < SparseInit.dim_context SparseInit.example_layer)
      by (cbn; lia).
    split; [reflexivity |]. split; [exact Hs |]. split; [exact Hc |].
    destruct (Hdendrites SparseInit.example_layer SparseInit.example_segments
                0%R 0 eq_refl Hs Hi Hc)
      as (_ & Hcall & (s' & Hseg & Hsr & Hzero & _) & _).
    eexists. exists s'. eexists. split; [exact Hcall |].
    split; [exact Hseg |]. split; [exact Hsr |].
    split; apply Hzero; solve [cbn; lia | reflexivity].
  - apply Hnone. reflexivity.
Defined.

(** ** The further theorems at concrete inputs *)

Lemma init_checks_its_arguments_witness :
  DendriticMLP.__init__ example_parameters 4 (IntSize 2) [3; 3] 2 2 true
    (Some 0.05%Q) 1 0.95 0.95 "modified" "hardcoded" true None
    (OneClass AbsoluteMaxGatingDendriticLayer)
  = Raise AssertionError /\
  DendriticMLP.__init__ example_parameters 4 (IntSize 2) [3; 3] 2 2 true
    (Some 1.5%Q) 1 0.95 0.95 "modified" "modified" true None
    (OneClass AbsoluteMaxGatingDendriticLayer)
  = Raise AssertionError /\
  exists self,
    DendriticMLP.__init__ example_parameters 4 (IntSize 2) [3; 3] 2 2 true
      (Some 0.05%Q) 1 0.95 0.95 "modified" "kaiming" true None
      (OneClass AbsoluteMaxGatingDendriticLayer)
    = Ok self /\
    (0 <= 1)%Q.
Proof.
  split; [| split].
  - apply (init_checks_its_arguments example_parameters 4 (IntSize 2) [3; 3] 2 2
             true (Some 0.05%Q) 1 0.95 0.95 "modified" "hardcoded" true None
             (OneClass AbsoluteMaxGatingDendriticLayer)).
    right. left. split; discriminate.
  - apply (init_checks_its_arguments example_parameters 4 (IntSize 2) [3; 3] 2 2
             true (Some 1.5%Q) 1 0.95 0.95 "modified" "modified" true None
             (OneClass AbsoluteMaxGatingDendriticLayer)).
    right. right. left. exists 1.5%Q. split; [reflexivity |].
    right. unfold Qle. simpl. lia.
  - eexists. split; [vm_compute; reflexivity |].
    eapply (init_checks_its_arguments example_parameters 4 (IntSize 2) [3; 3] 2 2
              true (Some 0.05%Q) 1 0.95 0.95 "modified" "kaiming" true None
              (OneClass AbsoluteMaxGatingDendriticLayer)).
    vm_compute. reflexivity.
Defined.

Lemma init_short_class_list_fails_witness :
  ~ exists self,
      DendriticMLP.__init__ example_parameters 4 (IntSize 2) [3; 3] 2 2 true
        (Some 0.05%Q) 1 0.95 0.95 "modified" "modified" true None
        (ClassList [AbsoluteMaxGatingDendriticLayer])
      = Ok self.
Proof.
  intros [self Hself].
  apply (init_short_class_list_fails example_parameters 4 (IntSize 2) [3; 3] 2 2
           true (Some 0.05%Q) 1 0.95 0.95 "modified" "modified" true None
           (ClassList [AbsoluteMaxGatingDendriticLayer])
           [AbsoluteMaxGatingDendriticLayer] eq_refl ltac:(simpl; lia)
           ltac:(discriminate) self Hself).
Defined.

(** With one segment the (too short) list of classes is ignored. *)
Lemma init_layer_classes_witness :
  exists self,
    DendriticMLP.__init__ example_parameters 4 (IntSize 2) [3; 3] 1 2 true
      (Some 0.05%Q) 1 0.95 0.95 "modified" "modified" true None
      (ClassList [AbsoluteMaxGatingDendriticLayer])
    = Ok self /\
    length (DendriticMLP._layers self) = 2 /\
    forall i layer,
      DendriticMLP._layers self !! i = Some layer ->
      layer_class_of layer = OneSegmentDendriticLayer.
Proof.
  eexists. split; [vm_compute; reflexivity |]. split; [reflexivity |].
  intros i layer Hi.
  eapply (init_layer_classes example_parameters 4 (IntSize 2) [3; 3] 1 2
            true (Some 0.05%Q) 1 0.95 0.95 "modified" "modified" true None
            (ClassList [AbsoluteMaxGatingDendriticLayer])).
  - vm_compute. reflexivity.
  - exact Hi.
  - reflexivity.
Defined.

Lemma init_sizes_chain_witness :
  exists self,
    DendriticMLP.__init__ example_parameters 4 (IterSize [2; 7]) [3; 5] 2 2 true
      (Some 0.05%Q) 1 0.95 0.95 "modified" "modified" true None
      (OneClass AbsoluteMaxGatingDendriticLayer)
    = Ok self /\
    map (fun layer => (in_features (module layer), out_features (module layer)))
      (DendriticMLP._layers self)
    = [(4, 3); (3, 5)] /\
    forall head,
      head ∈ DendriticMLP._output_layers self ->
      in_features (output_linear head) = 5.
Proof.
  eexists. split; [vm_compute; reflexivity |]. split; [reflexivity |].
  apply (init_sizes_chain example_parameters 4 (IterSize [2; 7]) [3; 5] 2 2
           true (Some 0.05%Q) 1 0.95 0.95 "modified" "modified" true None
           (OneClass AbsoluteMaxGatingDendriticLayer)).
  vm_compute. reflexivity.
Defined.

Lemma init_output_heads_witness :
  exists self,
    DendriticMLP.__init__ example_parameters 4 (IterSize [2; 7]) [3; 5] 2 2 true
      (Some 0.05%Q) 1 0.95 0.95 "modified" "modified" true (Some "sigmoid")
      (OneClass AbsoluteMaxGatingDendriticLayer)
    = Ok self /\
    DendriticMLP._single_output_head self = false /\
    map (fun head => out_features (output_linear head))
      (DendriticMLP._output_layers self)
    = [2; 7] /\
    Forall
      (fun head =>
         output_sparsity head = 0.95%Q /\
         allow_extremes head = true /\
         non_linearity head = Some "sigmoid")
      (DendriticMLP._output_layers self).
Proof.
  eexists. split; [vm_compute; reflexivity |].
  apply (init_output_heads example_parameters 4 (IterSize [2; 7]) [3; 5] 2 2
           true (Some 0.05%Q) 1 0.95 0.95 "modified" "modified" true
           (Some "sigmoid") (OneClass AbsoluteMaxGatingDendriticLayer)).
  vm_compute. reflexivity.
Defined.

Lemma init_initialiser_calls_witness :
  exists self,
    DendriticMLP.__init__ example_parameters 4 (IntSize 2) [3; 5] 2 2 true
      (Some 0.05%Q) 1 0.95 0.95 "modified" "kaiming" true None
      (OneClass AbsoluteMaxGatingDendriticLayer)
    = Ok self /\
    map layer_init_calls (DendriticMLP._layers self)
    = [[InitSparseWeights 0]; [InitSparseWeights (1 - 0.05)]] /\
    forall head,
      head ∈ DendriticMLP._output_layers self ->
      exists s, output_init_calls head = [InitSparseWeights s] /\
                exists p, Some 0.05%Q = Some p /\ s = (1 - p)%Q.
Proof.
  eexists. split; [vm_compute; reflexivity |]. split; [reflexivity |].
  apply (init_initialiser_calls example_parameters 4 (IntSize 2) [3; 5] 2 2
           true (Some 0.05%Q) 1 0.95 0.95 "modified" "kaiming" true None
           (OneClass AbsoluteMaxGatingDendriticLayer)).
  vm_compute. reflexivity.
Defined.

Lemma init_without_freeze_witness :
  exists self,
    DendriticMLP.__init__ example_parameters 4 (IntSize 2) [3; 5] 2 2 true
      (Some 0.05%Q) 1 0.95 0.95 "modified" "modified" false None
      (OneClass AbsoluteMaxGatingDendriticLayer)
    = Ok self /\
    length (DendriticMLP._layers self) = 2 /\
    forall layer,
      layer ∈ DendriticMLP._layers self ->
      layer_num_segments layer = 2%Z /\
      layer_dim_context layer = 2 /\
      module_sparsity layer = 0.95%Q /\
      (false = false ->
       named_parameters layer
       = example_parameters (layer_class_of layer) (module layer) 2 2).
Proof.
  eexists. split; [vm_compute; reflexivity |]. split; [reflexivity |].
  apply (init_without_freeze example_parameters 4 (IntSize 2) [3; 5] 2 2
           true (Some 0.05%Q) 1 0.95 0.95 "modified" "modified" false None
           (OneClass AbsoluteMaxGatingDendriticLayer)).
  vm_compute. reflexivity.
Defined.

Lemma forward_without_segments_witness :
  DendriticMLP.num_segments (example_network 0) = 0%Z /\
  DendriticMLP.forward example_layer_forward example_activation_forward
    example_head_forward (example_network 0) 7 None []
  = (Ok (DendriticMLP.Single 38),
     [DendriticMLP.CallLayer 1%positive 7 None;
      DendriticMLP.CallActivation ReLU 8;
      DendriticMLP.CallLayer 2%positive 16 None;
      DendriticMLP.CallActivation ReLU 18;
      DendriticMLP.CallHead
        {| output_linear := {| in_features := 2; out_features := 2; bias := true |};
           output_sparsity := 0.95%Q;
           allow_extremes := true;
           output_init_calls := [];
           non_linearity := None |} 36]).
Proof.
  split; [reflexivity |].
  destruct (forward_without_segments example_layer_forward
              example_activation_forward example_head_forward
              (example_network 0) 7 [] eq_refl) as [Hrun _].
  exact Hrun.
Defined.

Lemma forward_of_constructed_witness :
  exists self,
    DendriticMLP.__init__ example_parameters 4 (IterSize [2; 7]) [3; 5] 2 2 true
      (Some 0.05%Q) 1 0.95 0.95 "modified" "modified" true None
      (OneClass AbsoluteMaxGatingDendriticLayer)
    = Ok self /\
    exists out calls,
      DendriticMLP.forward example_dendritic_forward example_activation_forward
        example_head_forward self 7 (Some 1) []
      = (Ok out, [] ++ calls) /\
      length calls = 2 * length [3; 5] + length [2; 7] /\
      called_layers calls
      = map (fun layer => (layer, Some 1)) (DendriticMLP._layers self) /\
      exists ys, out = DendriticMLP.Multi ys /\ length ys = length [2; 7].
Proof.
  eexists. split; [vm_compute; reflexivity |].
  apply (forward_of_constructed example_dendritic_forward
           example_activation_forward example_head_forward example_parameters
           4 (IterSize [2; 7]) [3; 5] 2 2 true (Some 0.05%Q) 1 0.95 0.95
           "modified" "modified" true None
           (OneClass AbsoluteMaxGatingDendriticLayer)).
  - vm_compute. reflexivity.
  - left. by eexists.
Defined.

(** An unknown [init] on the one-segment layer at location 2: the view is
    created, the call raises, the heap is otherwise as before. *)
Lemma hardcode_raise_changes_nothing_witness :
  _hardcode_dendritic_weights 2%positive (Tensor2 3 2 example_contexts)
    "random" (World example_heap 0)
  = (Raise (Exception "Invalid dendritic weight hardcode choice"),
     World (<[fresh (dom example_heap)
              := Tensor3 2 1 2 [[[5; 5]]; [[6; 6]]]%Q]> example_heap) 0) /\
  forall l' t,
    example_heap !! l' = Some t ->
    (<[fresh (dom example_heap)
       := Tensor3 2 1 2 [[[5; 5]]; [[6; 6]]]%Q]> example_heap) !! l' = Some t.
Proof.
  assert (Hrun :
    _hardcode_dendritic_weights 2%positive (Tensor2 3 2 example_contexts)
      "random" (World example_heap 0)
    = (Raise (Exception "Invalid dendritic weight hardcode choice"),
       World (<[fresh (dom example_heap)
                := Tensor3 2 1 2 [[[5; 5]]; [[6; 6]]]%Q]> example_heap) 0)).
  { vm_compute. reflexivity. }
  split; [exact Hrun |].
  exact (hardcode_raise_changes_nothing (G := nat) 2%positive
           (Tensor2 3 2 example_contexts) "random" example_heap _ 0 0 _ Hrun).
Defined.

Lemma hardcode_all_layers_witness :
  exists h' g',
    DendriticMLP.hardcode_dendritic_weights (fun l : loc => l)
      (example_network 2) (Tensor2 3 2 example_contexts) "non_overlapping"
      (World example_heap 0)
    = (Ok tt, World h' g') /\
    (forall dendrite,
       dendrite ∈ DendriticMLP._layers (example_network 2) ->
       exists t t',
         example_heap !! dendrite = Some t /\
         h' !! dendrite = Some t' /\
         shape_of t' = shape_of t /\
         well_shaped t') /\
    (forall l t,
       example_heap !! l = Some t ->
       (forall dendrite,
          dendrite ∈ DendriticMLP._layers (example_network 2) -> dendrite <> l) ->
       h' !! l = Some t).
Proof.
  apply (hardcode_all_layers (G := nat) (fun l : loc => l) (example_network 2)
           3 2 example_contexts "non_overlapping" example_heap 0).
  - reflexivity.
  - split; [reflexivity |]. repeat constructor.
  - right. split; [reflexivity | lia].
  - intros dendrite Hd. simpl in Hd.
    apply elem_of_cons in Hd as [-> | Hd].
    + eexists. split; [reflexivity |]. simpl. split; [reflexivity | lia].
    + apply list_elem_of_singleton in Hd. subst dendrite.
      eexists. split; [reflexivity |]. reflexivity.
Defined.

Lemma overlapping_needs_twenty_units_witness :
  example_heap !! 1%positive = Some (Tensor3 2 3 2 (zeros3 2 3 2)) /\
  2 < 20 /\
  exists g',
    _hardcode_dendritic_weights 1%positive (Tensor2 3 2 example_contexts)
      "overlapping" (World example_heap 0)
    = (Ok tt,
       World (<[1%positive
                := Tensor3 2 3 2
                     (replicate 2 (replicate 3 (replicate 2 (-0.95)%Q)))]>
                example_heap) g').
Proof.
  split; [reflexivity |]. split; [lia |].
  apply (overlapping_needs_twenty_units (G := nat) 1%positive 2 3 2 3 2
           (zeros3 2 3 2) example_contexts example_heap 0).
  - reflexivity.
  - lia.
Defined.

(** Forty units, three contexts and three segments: two units each. *)
Lemma overlapping_enough_segments_witness :
  well_shaped_mat 3 2 example_contexts /\ 3 <= 3 /\
  exists st g',
    overlapping 40 3 2 3 example_contexts 0 = (Ok st, g') /\
    forall c, c < 3 ->
      length (units_of_context c (assigned st)) = units_per_context 40.
Proof.
  split; [split; [reflexivity | repeat constructor] |]. split; [lia |].
  apply (overlapping_enough_segments (G := nat) 40 3 2 3 example_contexts 0).
  - split; [reflexivity |]. repeat constructor.
  - lia.
Defined.

(** No context for the layer at location 1. *)
Lemma non_overlapping_edges_witness :
  example_heap !! 1%positive = Some (Tensor3 2 3 2 (zeros3 2 3 2)) /\
  exists g',
    _hardcode_dendritic_weights 1%positive (Tensor2 0 2 []) "non_overlapping"
      (World example_heap 0)
    = (Raise IndexError, World example_heap g').
Proof.
  split; [reflexivity |].
  destruct (non_overlapping_edges (G := nat) 1%positive 2 3 2 0 2
              (zeros3 2 3 2) [] example_heap 0 eq_refl) as (_ & Hempty & _).
  apply Hempty; [lia | reflexivity].
Defined.

Lemma context_must_be_two_dimensional_witness :
  exists h',
    DendriticMLP.hardcode_dendritic_weights (fun l : loc => l)
      (example_network 2) (Tensor3 1 3 2 [example_contexts]) "overlapping"
      (World example_heap 0)
    = (Raise ValueError, World h' 0) /\
    forall l t, example_heap !! l = Some t -> h' !! l = Some t.
Proof.
  apply (context_must_be_two_dimensional (G := nat) (fun l : loc => l)
           (example_network 2) 1 3 2 [example_contexts] "overlapping"
           example_heap 0 1%positive [2%positive]).
  - reflexivity.
  - reflexivity.
  - by eexists.
Defined.

Lemma one_segment_rows_witness :
  exists rows' h' g',
    _hardcode_dendritic_weights 2%positive (Tensor2 3 2 example_contexts)
      "non_overlapping" (World example_heap 0)
    = (Ok tt, World h' g') /\
    h' !! 2%positive = Some (Tensor2 2 2 rows') /\
    length rows' = 2 /\
    forall r, r ∈ rows' ->
      exists v, v ∈ example_contexts /\ r = positive_indicator v.
Proof.
  apply (one_segment_rows (G := nat) 2%positive 2 2 3 [[5; 5]; [6; 6]]%Q
           example_contexts "non_overlapping" example_heap 0).
  - reflexivity.
  - split; [reflexivity |]. repeat constructor.
  - right. split; [reflexivity | lia].
Defined.
